(** * pm2-gui: the real-time telemetry and event-relay pipeline

    A shallow embedding of the relay core of the PM2 web console:

    - [PM2Client]        backend/src/pm2/client.ts     (connection supervisor)
    - [WebSocketManager] backend/src/websocket/server.ts (broadcast hub)
    - [PM2EventBus]      backend/src/pm2/events.ts      (event translator)
    - [Frontend]         frontend/src/stores/*.ts, hooks/useWebSocket.ts

    JavaScript numbers that hold counters, ids and millisecond stamps are
    modelled as [Z]; a JS [Set] of primitives as a [gset]; the [Set] of
    socket objects as an insertion-ordered list of object identities over
    a heap of socket objects; [async] methods are split at their
    suspension points. *)

From Stdlib Require Import ZArith Lia.
From stdpp Require Import base option list gmap strings.

Local Open Scope Z_scope.

(** ** Exceptions and the state-and-exception monad *)

Inductive JSError :=
  | SyntaxError (msg : string)
  | TransportError (msg : string)
  | PM2Error (msg : string)
  | ConnectionError (msg : string).

Inductive Outcome (A : Type) : Type :=
  | Returned (a : A)
  | Thrown (e : JSError).
Arguments Returned {A} a.
Arguments Thrown {A} e.

Definition Eff (S A : Type) : Type := S -> Outcome A * S.

Definition ret {S A} (a : A) : Eff S A := fun s => (Returned a, s).

Definition bind {S A B} (m : Eff S A) (k : A -> Eff S B) : Eff S B :=
  fun s => match m s with
           | (Returned a, s') => k a s'
           | (Thrown e, s') => (Thrown e, s')
           end.

Definition throw {S A} (e : JSError) : Eff S A := fun s => (Thrown e, s).

(** [try { m } catch (e) { h e }]: state changes made before the throw stay. *)
Definition try_catch {S A} (m : Eff S A) (h : JSError -> Eff S A) : Eff S A :=
  fun s => match m s with
           | (Thrown e, s') => h e s'
           | r => r
           end.

Definition modify {S} (f : S -> S) : Eff S unit := fun s => (Returned tt, f s).

Notation "m ;; k" := (bind m (fun _ => k))
  (at level 100, k at level 200, right associativity).

(** [collection.forEach(f)] over the elements in iteration order. *)
Fixpoint forEach {S A} (l : list A) (f : A -> Eff S unit) : Eff S unit :=
  match l with
  | [] => ret tt
  | x :: l' => f x ;; forEach l' f
  end.

(** ** Logger *)

Inductive LogLevel := LDebug | LInfo | LWarn | LError.

Record LogLine := { level : LogLevel; text : string }.

(** ** Wire vocabulary: types/pm2.ts and types/websocket.ts *)

(** ['out' | 'err' | 'pm2'] *)
Inductive LogType := log_out | log_err | log_pm2.

Record LogEntry := {
  le_id : string;
  le_processId : Z;
  le_processName : string;
  le_type : LogType;
  le_message : string;
  le_timestamp : Z
}.

Record PM2Process := {
  pm_id : Z;
  proc_name : string;
  proc_pid : Z;
  proc_status : string;
  monit_memory : Z;
  monit_cpu : Z
}.

(** [number | 'all']: the element type of a session's subscription set. *)
Inductive SubKey := Pid (n : Z) | All.

#[global] Instance SubKey_eq_dec : EqDecision SubKey.
Proof. solve_decision. Defined.

#[global] Instance SubKey_countable : Countable SubKey.
Proof.
  refine (inj_countable'
    (fun k => match k with Pid n => Some n | All => None end)
    (fun o => match o with Some n => Pid n | None => All end) _).
  by intros [].
Defined.

Record ProcessEventData := {
  pe_processId : Z;
  pe_processName : string;
  pe_event : string;
  pe_timestamp : Z
}.

Record MetricsUpdateData := { mu_processId : Z; mu_cpu : Z; mu_memory : Z }.

Record ConnectionStatusData := { cs_connected : bool; cs_pm2Connected : bool }.

(** The message [type] tag together with the [data] shape that
    types/websocket.ts declares for it. *)
Inductive WSBody :=
  | PROCESS_LIST_UPDATE (processes : list PM2Process)
  | PROCESS_EVENT (data : ProcessEventData)
  | LOG_MESSAGE (data : LogEntry)
  | METRICS_UPDATE (data : MetricsUpdateData)
  | SUBSCRIBE_LOGS (processId : SubKey)
  | UNSUBSCRIBE_LOGS (processId : SubKey)
  | CONNECTION_STATUS (data : ConnectionStatusData)
  | ERROR (message : string).

Record WSMessage := { body : WSBody; timestamp : Z }.

(** ** [Array.prototype] helpers *)

Module JSArray.

(** [arr.push(x)] *)
Definition push {A} (arr : list A) (x : A) : list A := arr ++ [x].

(** [arr.shift()]: drops the element at index 0, the rest moves down. *)
Definition shift {A} (arr : list A) : list A := tail arr.

Definition len {A} (arr : list A) : Z := Z.of_nat (length arr).

(** [arr.slice(start)] for an integer [start]: a negative [start] counts
    from the end and is clamped at 0, a non-negative one is clamped at
    the length. *)
Definition slice {A} (arr : list A) (start : Z) : list A :=
  let k := if start <? 0 then Z.max (len arr + start) 0
           else Z.min start (len arr) in
  drop (Z.to_nat k) arr.

End JSArray.

(** ** WebSocketManager (websocket/server.ts) *)

Inductive ReadyState := CONNECTING | OPEN | CLOSING | CLOSED.

#[global] Instance ReadyState_eq_dec : EqDecision ReadyState.
Proof. solve_decision. Defined.

(** A socket object of the [ws] library extended with the two fields the
    hub adds.  [sendFails] is the transport's side of [ws.send]: whether
    the call (serialisation included) raises.  [outbox] is what the
    transport accepted, oldest first; [pings] counts [ws.ping()] calls. *)
Record ExtendedWebSocket := {
  readyState : ReadyState;
  sendFails : bool;
  outbox : list WSMessage;
  pings : nat;
  isAlive : bool;
  subscriptions : gset SubKey
}.

Definition SocketId := nat.

(** The hub singleton together with the heap of socket objects and the
    logger's output.  [clients] is the JS [Set] of sockets: object
    identities in insertion order.  [handleConnection] stores the object
    before it adds its identity to the set, so an identity of the set
    with no object behind it does not arise; the methods leave the state
    alone on one. *)
Record Hub := {
  heap : gmap SocketId ExtendedWebSocket;
  clients : list SocketId;
  logger : list LogLine
}.

Module WebSocketManager.

Definition set_heap (h : gmap SocketId ExtendedWebSocket) (w : Hub) : Hub :=
  {| heap := h; clients := clients w; logger := logger w |}.

Definition set_clients (cs : list SocketId) (w : Hub) : Hub :=
  {| heap := heap w; clients := cs; logger := logger w |}.

Definition log (lv : LogLevel) (t : string) : Eff Hub unit :=
  modify (fun w => {| heap := heap w; clients := clients w;
                      logger := logger w ++ [{| level := lv; text := t |}] |}).

(** Field updates on one socket object. *)
Definition with_isAlive (b : bool) (s : ExtendedWebSocket) :=
  {| readyState := readyState s; sendFails := sendFails s; outbox := outbox s;
     pings := pings s; isAlive := b; subscriptions := subscriptions s |}.

Definition with_subscriptions (x : gset SubKey) (s : ExtendedWebSocket) :=
  {| readyState := readyState s; sendFails := sendFails s; outbox := outbox s;
     pings := pings s; isAlive := isAlive s; subscriptions := x |}.

Definition with_outbox (o : list WSMessage) (s : ExtendedWebSocket) :=
  {| readyState := readyState s; sendFails := sendFails s; outbox := o;
     pings := pings s; isAlive := isAlive s; subscriptions := subscriptions s |}.

Definition with_pings (n : nat) (s : ExtendedWebSocket) :=
  {| readyState := readyState s; sendFails := sendFails s; outbox := outbox s;
     pings := n; isAlive := isAlive s; subscriptions := subscriptions s |}.

Definition with_readyState (r : ReadyState) (s : ExtendedWebSocket) :=
  {| readyState := r; sendFails := sendFails s; outbox := outbox s;
     pings := pings s; isAlive := isAlive s; subscriptions := subscriptions s |}.

Definition update (c : SocketId) (f : ExtendedWebSocket -> ExtendedWebSocket)
  : Eff Hub unit :=
  modify (fun w => set_heap (alter f c (heap w)) w).

(** [this.clients.add(ws)] and [this.clients.delete(ws)] *)
Definition Set_add (c : SocketId) (cs : list SocketId) : list SocketId :=
  if decide (c ∈ cs) then cs else cs ++ [c].

Definition Set_delete (c : SocketId) (cs : list SocketId) : list SocketId :=
  filter (fun x => x ≠ c) cs.

(** Library calls on a socket. *)
Definition ws_send (c : SocketId) (m : WSMessage) : Eff Hub unit :=
  fun w => match heap w !! c with
           | Some s =>
               if sendFails s then (Thrown (TransportError "send"), w)
               else (Returned tt,
                     set_heap (<[c := with_outbox (outbox s ++ [m]) s]> (heap w)) w)
           | None => (Returned tt, w)
           end.

Definition ws_ping (c : SocketId) : Eff Hub unit :=
  update c (fun s => with_pings (S (pings s)) s).

(** What [ws.terminate()] leaves of a socket: it is destroyed, and
    [CLOSING] until the library reports the close. *)
Definition dropped (s : ExtendedWebSocket) : ExtendedWebSocket :=
  match readyState s with
  | CLOSED => s
  | _ => with_readyState CLOSING s
  end.

Definition ws_terminate (c : SocketId) : Eff Hub unit := update c dropped.

Definition sendToClient (c : SocketId) (message : WSMessage) : Eff Hub unit :=
  fun w => match heap w !! c with
           | Some s =>
               if decide (readyState s = OPEN) then
                 try_catch (ws_send c message)
                   (fun _ => log LError "Failed to send message to client") w
               else (Returned tt, w)
           | None => (Returned tt, w)
           end.

Definition broadcast (message : WSMessage) : Eff Hub unit :=
  fun w => forEach (clients w) (fun client => sendToClient client message) w.

Definition has_subscription (k : SubKey) (c : SocketId) (w : Hub) : bool :=
  match heap w !! c with
  | Some s => bool_decide (k ∈ subscriptions s)
  | None => false
  end.

Definition broadcastToSubscribers (processId : Z) (message : WSMessage)
  : Eff Hub unit :=
  fun w => forEach (clients w) (fun client =>
    fun w' =>
      if has_subscription All client w' || has_subscription (Pid processId) client w'
      then sendToClient client message w'
      else (Returned tt, w')) w.

(** [handleConnection(ws)]: [c] is the identity of the socket object the
    library hands over, [s] its transport state; [now] is [Date.now()]. *)
Definition handleConnection (c : SocketId) (s : ExtendedWebSocket) (now : Z)
  : Eff Hub unit :=
  modify (fun w =>
    set_heap (<[c := with_subscriptions {[ All ]} (with_isAlive true s)]> (heap w)) w) ;;
  modify (fun w => set_clients (Set_add c (clients w)) w) ;;
  log LInfo "WebSocket client connected" ;;
  sendToClient c {| body := CONNECTION_STATUS
                              {| cs_connected := true; cs_pm2Connected := true |};
                    timestamp := now |}.

(** The listeners [handleConnection] registers on the socket. *)
Definition on_pong (c : SocketId) : Eff Hub unit :=
  update c (with_isAlive true).

Definition on_close (c : SocketId) : Eff Hub unit :=
  modify (fun w => set_clients (Set_delete c (clients w)) w) ;;
  log LInfo "WebSocket client disconnected".

Definition on_error (c : SocketId) : Eff Hub unit :=
  log LError "WebSocket client error" ;;
  modify (fun w => set_clients (Set_delete c (clients w)) w).

(** [handleMessage(ws, data)].  [parsed] is what
    [JSON.parse(data.toString())] followed by reading [message.data]
    yields: [None] when that raises. *)
Definition handleMessage (c : SocketId) (parsed : option WSMessage) (now : Z)
  : Eff Hub unit :=
  try_catch
    (match parsed with
     | None => throw (SyntaxError "Unexpected token")
     | Some message =>
         match body message with
         | SUBSCRIBE_LOGS processId =>
             update c (fun s =>
               with_subscriptions (subscriptions s ∪ {[ processId ]}) s) ;;
             log LDebug "Client subscribed to logs for process"
         | UNSUBSCRIBE_LOGS processId =>
             update c (fun s =>
               with_subscriptions (subscriptions s ∖ {[ processId ]}) s) ;;
             log LDebug "Client unsubscribed from logs for process"
         | _ => log LWarn "Unknown message type"
         end
     end)
    (fun _ =>
       log LError "Failed to parse WebSocket message" ;;
       sendToClient c {| body := ERROR "Invalid message format";
                         timestamp := now |}).

(** One callback of the [forEach] in [checkHeartbeat]. *)
Definition checkHeartbeat_one (c : SocketId) : Eff Hub unit :=
  fun w => match heap w !! c with
           | Some s =>
               if negb (isAlive s) then
                 (log LDebug "Terminating unresponsive WebSocket client" ;;
                  ws_terminate c ;;
                  modify (fun w' => set_clients (Set_delete c (clients w')) w')) w
               else
                 (update c (with_isAlive false) ;; ws_ping c) w
           | None => (Returned tt, w)
           end.

(** [checkHeartbeat()].  The callback deletes at most the element being
    visited, so iterating the set as it was on entry visits the same
    elements as the live iteration does. *)
Definition checkHeartbeat : Eff Hub unit :=
  fun w => forEach (clients w) checkHeartbeat_one w.

Definition initial : Hub := {| heap := ∅; clients := []; logger := [] |}.

End WebSocketManager.

(** ** PM2Client (pm2/client.ts) *)

Record PM2Client := {
  connected : bool;
  connecting : bool;
  reconnectAttempts : Z;
  maxReconnectAttempts : Z;
  reconnectDelay : Z;
  maxReconnectDelay : Z
}.

(** The supervisor singleton together with what it has asked of the
    outside: [inFlight] counts the [pm2.connect] calls whose callback has
    not run yet, [sleeping] holds the delays of the [setTimeout]s that
    [reconnect] is waiting on, [disconnects] counts [pm2.disconnect]
    calls. *)
Record Supervisor := {
  client : PM2Client;
  inFlight : nat;
  sleeping : list Z;
  disconnects : nat;
  journal : list LogLine
}.

(** How a call to an [async] method stands when control comes back to the
    caller: already fulfilled, or pending on an outside completion.  A
    rejection is [Thrown]. *)
Inductive Promise := Fulfilled | Pending.

Module PM2Client.

Definition set_client (c : PM2Client) (w : Supervisor) : Supervisor :=
  {| client := c; inFlight := inFlight w; sleeping := sleeping w;
     disconnects := disconnects w; journal := journal w |}.

Definition set_inFlight (n : nat) (w : Supervisor) : Supervisor :=
  {| client := client w; inFlight := n; sleeping := sleeping w;
     disconnects := disconnects w; journal := journal w |}.

Definition set_sleeping (l : list Z) (w : Supervisor) : Supervisor :=
  {| client := client w; inFlight := inFlight w; sleeping := l;
     disconnects := disconnects w; journal := journal w |}.

Definition log (lv : LogLevel) (t : string) : Eff Supervisor unit :=
  modify (fun w =>
    {| client := client w; inFlight := inFlight w; sleeping := sleeping w;
       disconnects := disconnects w;
       journal := journal w ++ [{| level := lv; text := t |}] |}).

Definition with_connected (b : bool) (c : PM2Client) : PM2Client :=
  {| connected := b; connecting := connecting c;
     reconnectAttempts := reconnectAttempts c;
     maxReconnectAttempts := maxReconnectAttempts c;
     reconnectDelay := reconnectDelay c;
     maxReconnectDelay := maxReconnectDelay c |}.

Definition with_connecting (b : bool) (c : PM2Client) : PM2Client :=
  {| connected := connected c; connecting := b;
     reconnectAttempts := reconnectAttempts c;
     maxReconnectAttempts := maxReconnectAttempts c;
     reconnectDelay := reconnectDelay c;
     maxReconnectDelay := maxReconnectDelay c |}.

Definition with_reconnectAttempts (n : Z) (c : PM2Client) : PM2Client :=
  {| connected := connected c; connecting := connecting c;
     reconnectAttempts := n;
     maxReconnectAttempts := maxReconnectAttempts c;
     reconnectDelay := reconnectDelay c;
     maxReconnectDelay := maxReconnectDelay c |}.

Definition this (f : PM2Client -> PM2Client) : Eff Supervisor unit :=
  modify (fun w => set_client (f (client w)) w).

(** [pm2.connect(cb)]: one more callback is owed. *)
Definition pm2_connect : Eff Supervisor unit :=
  modify (fun w => set_inFlight (S (inFlight w)) w).

Definition pm2_disconnect : Eff Supervisor unit :=
  modify (fun w =>
    {| client := client w; inFlight := inFlight w; sleeping := sleeping w;
       disconnects := S (disconnects w); journal := journal w |}).

(** [connect()] up to the point where it hands back its promise. *)
Definition connect : Eff Supervisor Promise :=
  fun w =>
    if connected (client w) then
      (log LDebug "Already connected to PM2" ;; ret Fulfilled) w
    else if connecting (client w) then
      (log LDebug "Connection already in progress" ;; ret Fulfilled) w
    else
      (this (with_connecting true) ;; pm2_connect ;; ret Pending) w.

(** The callback given to [pm2.connect]; [Returned] is [resolve()],
    [Thrown] is [reject(...)]. *)
Definition connect_callback (err : option string) : Eff Supervisor unit :=
  modify (fun w => set_inFlight (pred (inFlight w)) w) ;;
  this (with_connecting false) ;;
  match err with
  | Some msg =>
      log LError "Failed to connect to PM2 daemon" ;;
      throw (ConnectionError msg)
  | None =>
      this (with_connected true) ;;
      this (with_reconnectAttempts 0) ;;
      log LInfo "Connected to PM2 daemon"
  end.

Definition disconnect : Eff Supervisor unit :=
  fun w =>
    if negb (connected (client w)) then log LDebug "Not connected to PM2" w
    else
      (pm2_disconnect ;;
       this (with_connected false) ;;
       log LInfo "Disconnected from PM2 daemon") w.

Definition isConnected (w : Supervisor) : bool := connected (client w).

Definition ensureConnected : Eff Supervisor Promise :=
  fun w => if negb (connected (client w)) then connect w
           else (Returned Fulfilled, w).

(** [reconnect()] up to its [setTimeout]: the result is the delay it
    sleeps for.  When the timer fires it goes on with [connect()]. *)
Definition reconnect : Eff Supervisor Z :=
  fun w =>
    if reconnectAttempts (client w) >=? maxReconnectAttempts (client w) then
      (Thrown (ConnectionError "Failed to reconnect after max attempts"), w)
    else
      (this (fun c => with_reconnectAttempts (reconnectAttempts c + 1) c) ;;
       fun w1 =>
        let delay := Z.min (reconnectDelay (client w1)
                              * 2 ^ (reconnectAttempts (client w1) - 1))
                           (maxReconnectDelay (client w1)) in
        (log LInfo "Attempting to reconnect to PM2" ;;
         disconnect ;;
         modify (fun w2 => set_sleeping (sleeping w2 ++ [delay]) w2) ;;
         ret delay) w1) w.

Definition reconnect_resume : Eff Supervisor Promise :=
  fun w => match sleeping w with
           | [] => (Returned Fulfilled, w)
           | _ :: rest => connect (set_sleeping rest w)
           end.

Definition initial : Supervisor :=
  {| client := {| connected := false; connecting := false;
                  reconnectAttempts := 0; maxReconnectAttempts := 10;
                  reconnectDelay := 1000; maxReconnectDelay := 30000 |};
     inFlight := 0; sleeping := []; disconnects := 0; journal := [] |}.

(** What can happen to the supervisor: a caller invokes a method, a
    reconnect timer fires, or the daemon answers a pending
    [pm2.connect]. *)
Inductive Action :=
  | CallConnect
  | CallEnsureConnected
  | CallDisconnect
  | CallReconnect
  | TimerFires
  | DaemonAnswers (err : option string).

Definition enabled (a : Action) (w : Supervisor) : bool :=
  match a with
  | TimerFires => bool_decide (sleeping w ≠ [])
  | DaemonAnswers _ => bool_decide (inFlight w ≠ 0%nat)
  | _ => true
  end.

Definition act (a : Action) (w : Supervisor) : Supervisor :=
  match a with
  | CallConnect => snd (connect w)
  | CallEnsureConnected => snd (ensureConnected w)
  | CallDisconnect => snd (disconnect w)
  | CallReconnect => snd (reconnect w)
  | TimerFires => snd (reconnect_resume w)
  | DaemonAnswers err => snd (connect_callback err w)
  end.

Inductive reachable : Supervisor -> Prop :=
  | reach_initial : reachable initial
  | reach_step w a : reachable w -> enabled a w = true -> reachable (act a w).

(** The delay as the specification words it, over the number of
    reconnects made since the last success. *)
Definition spec_delay (baseDelay maxDelay attempt : Z) : Z :=
  Z.min (baseDelay * 2 ^ attempt) maxDelay.

End PM2Client.

(** ** PM2EventBus (pm2/events.ts) *)

Record PM2LogPacket := {
  lp_pm_id : Z;
  lp_name : string;
  lp_namespace : string;
  lp_data : string;
  lp_at : Z
}.

Record PM2ProcessEventPacket := {
  ep_event : string;
  ep_pm_id : Z;
  ep_name : string;
  ep_pid : Z;
  ep_at : Z
}.

Record PM2EventBus := {
  logBuffer : list LogEntry;
  maxBufferSize : Z;
  metricsInterval : bool
}.

(** The translator singleton, the hub singleton it talks to, and the
    number of [pm2API.list()] calls it has started whose promise has not
    settled yet. *)
Record Relay := {
  pm2EventBus : PM2EventBus;
  wsManager : Hub;
  listCalls : nat
}.

Module PM2EventBus.

Definition set_bus (b : PM2EventBus) (r : Relay) : Relay :=
  {| pm2EventBus := b; wsManager := wsManager r; listCalls := listCalls r |}.

Definition set_ws (h : Hub) (r : Relay) : Relay :=
  {| pm2EventBus := pm2EventBus r; wsManager := h; listCalls := listCalls r |}.

Definition set_listCalls (n : nat) (r : Relay) : Relay :=
  {| pm2EventBus := pm2EventBus r; wsManager := wsManager r; listCalls := n |}.

Definition with_logBuffer (l : list LogEntry) (b : PM2EventBus) : PM2EventBus :=
  {| logBuffer := l; maxBufferSize := maxBufferSize b;
     metricsInterval := metricsInterval b |}.

Definition with_metricsInterval (t : bool) (b : PM2EventBus) : PM2EventBus :=
  {| logBuffer := logBuffer b; maxBufferSize := maxBufferSize b;
     metricsInterval := t |}.

(** A call into the [wsManager] singleton (the logger included). *)
Definition onHub {A} (m : Eff Hub A) : Eff Relay A :=
  fun r => let (o, h) := m (wsManager r) in (o, set_ws h r).

Definition this (f : PM2EventBus -> PM2EventBus) : Eff Relay unit :=
  modify (fun r => set_bus (f (pm2EventBus r)) r).

(** [a || b] on numbers: [0] is falsy. *)
Definition or_else (a b : Z) : Z := if a =? 0 then b else a.

Definition mkLogEntry (packet : PM2LogPacket) (type : LogType)
    (uuid : string) (now : Z) : LogEntry :=
  {| le_id := uuid;
     le_processId := lp_pm_id packet;
     le_processName := lp_name packet;
     le_type := type;
     le_message := lp_data packet;
     le_timestamp := or_else (lp_at packet) now |}.

(** The buffer update of [handleLog]: push, then shift when over size. *)
Definition buffer_add (maxSize : Z) (buf : list LogEntry) (e : LogEntry)
  : list LogEntry :=
  let buf1 := JSArray.push buf e in
  if JSArray.len buf1 >? maxSize then JSArray.shift buf1 else buf1.

(** [handleLog(packet, type)]; [uuid] is what [uuidv4()] returns for
    this call and [now] what [Date.now()] reads. *)
Definition handleLog (packet : PM2LogPacket) (type : LogType)
    (uuid : string) (now : Z) : Eff Relay unit :=
  let logEntry := mkLogEntry packet type uuid now in
  this (fun b => with_logBuffer
                   (buffer_add (maxBufferSize b) (logBuffer b) logEntry) b) ;;
  onHub (WebSocketManager.broadcastToSubscribers (lp_pm_id packet)
           {| body := LOG_MESSAGE logEntry; timestamp := now |}).

(** [broadcastProcessList()] up to its [await pm2API.list()]. *)
Definition broadcastProcessList : Eff Relay unit :=
  modify (fun r => set_listCalls (S (listCalls r)) r).

(** ... and from there on, once the list promise has settled with
    [result]. *)
Definition broadcastProcessList_settled
    (result : Outcome (list PM2Process)) (now : Z) : Eff Relay unit :=
  modify (fun r => set_listCalls (pred (listCalls r)) r) ;;
  try_catch
    (match result with
     | Returned processes =>
         onHub (WebSocketManager.broadcast
                  {| body := PROCESS_LIST_UPDATE processes; timestamp := now |})
     | Thrown e => throw e
     end)
    (fun _ => onHub (WebSocketManager.log LError "Failed to broadcast process list")).

(** The ['process:event'] listener of [setupProcessEventHandlers]. *)
Definition on_process_event (packet : PM2ProcessEventPacket) (now : Z)
  : Eff Relay unit :=
  onHub (WebSocketManager.log LInfo "Process event") ;;
  onHub (WebSocketManager.broadcast
           {| body := PROCESS_EVENT
                        {| pe_processId := ep_pm_id packet;
                           pe_processName := ep_name packet;
                           pe_event := ep_event packet;
                           pe_timestamp := or_else (ep_at packet) now |};
              timestamp := now |}) ;;
  broadcastProcessList.

Definition startMetricsPolling : Eff Relay unit :=
  broadcastProcessList ;;
  this (with_metricsInterval true).

(** The [setInterval] callback, every 2000 ms while the timer is set. *)
Definition on_metricsInterval : Eff Relay unit := broadcastProcessList.

(** [getRecentLogs(processId?, limit = 100)]: [None] is an argument left
    out. *)
Definition getRecentLogs (processId : option Z) (limit : option Z)
    (b : PM2EventBus) : list LogEntry :=
  let limit := default 100 limit in
  let logs := logBuffer b in
  let logs := match processId with
              | Some p => filter (fun log => le_processId log = p) logs
              | None => logs
              end in
  JSArray.slice logs (- limit).

Definition clearLogBuffer : Eff Relay unit := this (with_logBuffer []).

Definition destroy : Eff Relay unit :=
  this (with_metricsInterval false) ;;
  this (with_logBuffer []) ;;
  onHub (WebSocketManager.log LInfo "PM2 event bus destroyed").

Definition new (maxSize : Z) : PM2EventBus :=
  {| logBuffer := []; maxBufferSize := maxSize; metricsInterval := false |}.

Definition initial : Relay :=
  {| pm2EventBus := new 10000; wsManager := WebSocketManager.initial;
     listCalls := 0 |}.

(** One log item off the daemon bus, with the id and clock reading the
    runtime supplies while it is handled. *)
Record Ingestion := {
  in_packet : PM2LogPacket;
  in_type : LogType;
  in_uuid : string;
  in_now : Z
}.

Definition entry_of (i : Ingestion) : LogEntry :=
  mkLogEntry (in_packet i) (in_type i) (in_uuid i) (in_now i).

Definition ingest (i : Ingestion) (r : Relay) : Relay :=
  snd (handleLog (in_packet i) (in_type i) (in_uuid i) (in_now i) r).

Definition ingest_all (l : list Ingestion) (r : Relay) : Relay :=
  foldl (fun r i => ingest i r) r l.

End PM2EventBus.

(** ** The browser side: stores/processStore.ts, stores/logStore.ts and
       hooks/useWebSocket.ts *)

Module Frontend.

Record ProcessStore := {
  processes : list PM2Process;
  selectedProcessId : option Z;
  isLoading : bool;
  error : option string
}.

(** [set({ processes, isLoading: false, error: null })]: the partial
    state is merged over the store, the other fields stay. *)
Definition setProcesses (ps : list PM2Process) (st : ProcessStore) : ProcessStore :=
  {| processes := ps; selectedProcessId := selectedProcessId st;
     isLoading := false; error := None |}.

Record LogFilters := {
  f_processId : SubKey;
  f_type : option LogType;
  f_search : string
}.

Record LogStore := {
  logs : list LogEntry;
  filters : LogFilters;
  isPaused : bool;
  maxLogs : Z
}.

Definition addLog (entry : LogEntry) (st : LogStore) : LogStore :=
  if isPaused st then st
  else
    let newLogs := logs st ++ [entry] in
    if JSArray.len newLogs >? maxLogs st then
      {| logs := JSArray.slice newLogs (- maxLogs st); filters := filters st;
         isPaused := isPaused st; maxLogs := maxLogs st |}
    else
      {| logs := newLogs; filters := filters st;
         isPaused := isPaused st; maxLogs := maxLogs st |}.

Record ClientState := {
  processStore : ProcessStore;
  logStore : LogStore;
  console : list string
}.

(** [handleMessage(message)] of the [useWebSocket] hook. *)
Definition handleMessage (message : WSMessage) (st : ClientState) : ClientState :=
  match body message with
  | PROCESS_LIST_UPDATE processes =>
      {| processStore := setProcesses processes (processStore st);
         logStore := logStore st; console := console st |}
  | LOG_MESSAGE logEntry =>
      {| processStore := processStore st;
         logStore := addLog logEntry (logStore st); console := console st |}
  | PROCESS_EVENT _ => st
  | CONNECTION_STATUS _ => st
  | ERROR errorMessage =>
      {| processStore := processStore st; logStore := logStore st;
         console := console st ++ [("WebSocket error: " +:+ errorMessage)%string] |}
  | _ =>
      {| processStore := processStore st; logStore := logStore st;
         console := console st ++ ["Unknown message type"%string] |}
  end.

End Frontend.

(** * Vocabulary of the properties *)

(** The last [n] elements of [l], in order. *)
Definition most_recent {A} (n : Z) (l : list A) : list A :=
  drop (length l - Z.to_nat n) l.

Module Samples.

Import PM2EventBus.

Definition sample_packet (p : Z) (text : string) : PM2LogPacket :=
  {| lp_pm_id := p; lp_name := "api"; lp_namespace := "default";
     lp_data := text; lp_at := 0 |}.

Definition sample_ingestion (p : Z) (u : string) (now : Z) : Ingestion :=
  {| in_packet := sample_packet p u; in_type := log_out;
     in_uuid := u; in_now := now |}.

Definition small_relay : Relay := set_bus (new 2) initial.

Definition open_socket (subs : gset SubKey) : ExtendedWebSocket :=
  {| readyState := OPEN; sendFails := false; outbox := []; pings := 0;
     isAlive := true; subscriptions := subs |}.

Definition broken_socket (subs : gset SubKey) : ExtendedWebSocket :=
  {| readyState := OPEN; sendFails := true; outbox := []; pings := 0;
     isAlive := true; subscriptions := subs |}.

(** Socket 0 follows process 7 only, socket 1 follows everything and
    its [send] raises, socket 2 follows everything. *)
Definition sample_hub : Hub :=
  {| heap := <[0%nat := open_socket {[ Pid 7 ]}]>
               (<[1%nat := broken_socket {[ All ]}]>
                  (<[2%nat := open_socket {[ All ]}]> ∅));
     clients := [0%nat; 1%nat; 2%nat];
     logger := [] |}.

Definition sample_relay : Relay := set_ws sample_hub initial.

Definition sample_message : WSMessage :=
  {| body := PROCESS_LIST_UPDATE []; timestamp := 5 |}.

Definition sample_log (p : Z) : WSMessage :=
  {| body := LOG_MESSAGE (mkLogEntry (sample_packet p "hello") log_out "u1" 9);
     timestamp := 9 |}.

Definition sample_event : PM2ProcessEventPacket :=
  {| ep_event := "exit"; ep_pm_id := 5; ep_name := "api"; ep_pid := 4242;
     ep_at := 0 |}.

End Samples.

(** What a fan-out does to one socket. *)
Module Delivery.

Import WebSocketManager.

(** The socket is open and its [send] goes through. *)
Definition accepts (s : ExtendedWebSocket) : bool :=
  bool_decide (readyState s = OPEN) && negb (sendFails s).

(** The socket is open and its [send] raises. *)
Definition refuses (s : ExtendedWebSocket) : bool :=
  bool_decide (readyState s = OPEN) && sendFails s.

Definition deliver (m : WSMessage) (s : ExtendedWebSocket) : ExtendedWebSocket :=
  with_outbox (outbox s ++ [m]) s.

(** The subscription test of [broadcastToSubscribers]. *)
Definition wants (p : Z) (s : ExtendedWebSocket) : bool :=
  bool_decide (All ∈ subscriptions s) || bool_decide (Pid p ∈ subscriptions s).

Definition everyone (s : ExtendedWebSocket) : bool := true.

Definition send_failure : LogLine :=
  {| level := LError; text := "Failed to send message to client" |}.

(** One callback of a fan-out loop that sends to the sockets selected by
    [P]. *)
Definition visit (P : ExtendedWebSocket -> bool) (m : WSMessage) (c : SocketId)
  : Eff Hub unit :=
  fun w => match heap w !! c with
           | Some s => if P s then sendToClient c m w else (Returned tt, w)
           | None => (Returned tt, w)
           end.

Definition relayed (P : ExtendedWebSocket -> bool) (m : WSMessage)
    (s : ExtendedWebSocket) : ExtendedWebSocket :=
  if P s && accepts s then deliver m s else s.

(** The error lines a fan-out over [l] writes. *)
Definition failures (P : ExtendedWebSocket -> bool) (w : Hub) (l : list SocketId)
  : list LogLine :=
  flat_map (fun c => match heap w !! c with
                     | Some s => if P s && refuses s then [send_failure] else []
                     | None => []
                     end) l.

(** A fan-out with result [res] kept a failing send to itself: it
    returned, the set is as before, each failing send left one error
    line and the failing socket as it was, and every selected socket
    that takes the send got the message. *)
Definition isolated (P : ExtendedWebSocket -> bool) (m : WSMessage) (w : Hub)
    (res : Outcome unit * Hub) : Prop :=
  fst res = Returned tt /\
  clients (snd res) = clients w /\
  logger (snd res) = logger w ++ failures P w (clients w) /\
  forall c s, c ∈ clients w -> heap w !! c = Some s -> P s = true ->
    (refuses s = true ->
       heap (snd res) !! c = Some s /\ send_failure ∈ logger (snd res)) /\
    (accepts s = true -> heap (snd res) !! c = Some (deliver m s)).

(** The reading under which a failing send also ends the session. *)
Definition removes_failed_sessions (m : WSMessage) (w : Hub) : Prop :=
  forall c s, c ∈ clients w -> heap w !! c = Some s -> refuses s = true ->
    c ∉ clients (snd (broadcast m w)).

End Delivery.

(** The messages the translator hands to the hub. *)
Module Wire.

Import PM2EventBus.

Definition log_message (packet : PM2LogPacket) (type : LogType)
    (uuid : string) (now : Z) : WSMessage :=
  {| body := LOG_MESSAGE (mkLogEntry packet type uuid now); timestamp := now |}.

Definition process_event_message (packet : PM2ProcessEventPacket) (now : Z)
  : WSMessage :=
  {| body := PROCESS_EVENT
               {| pe_processId := ep_pm_id packet;
                  pe_processName := ep_name packet;
                  pe_event := ep_event packet;
                  pe_timestamp := or_else (ep_at packet) now |};
     timestamp := now |}.

Definition process_list_message (ps : list PM2Process) (now : Z) : WSMessage :=
  {| body := PROCESS_LIST_UPDATE ps; timestamp := now |}.

Definition process_event_line : LogLine :=
  {| level := LInfo; text := "Process event" |}.

Definition with_line (ln : LogLine) (w : Hub) : Hub :=
  {| heap := heap w; clients := clients w; logger := logger w ++ [ln] |}.

(** Client frames. *)
Definition subscribe_logs (k : SubKey) (t : Z) : WSMessage :=
  {| body := SUBSCRIBE_LOGS k; timestamp := t |}.

Definition unsubscribe_logs (k : SubKey) (t : Z) : WSMessage :=
  {| body := UNSUBSCRIBE_LOGS k; timestamp := t |}.

End Wire.

(** The hub as a transition system: what the [ws] library, the timers and
    the translator can make it do. *)
Module HubSteps.

Import WebSocketManager.

Definition with_transport (r : ReadyState) (fails : bool) (s : ExtendedWebSocket)
  : ExtendedWebSocket :=
  {| readyState := r; sendFails := fails; outbox := outbox s;
     pings := pings s; isAlive := isAlive s; subscriptions := subscriptions s |}.

Inductive HubEvent :=
  | EvConnection (c : SocketId) (s : ExtendedWebSocket) (now : Z)
  | EvPong (c : SocketId)
  | EvMessage (c : SocketId) (parsed : option WSMessage) (now : Z)
  | EvClose (c : SocketId)
  | EvError (c : SocketId)
  | EvHeartbeat
  | EvBroadcast (m : WSMessage)
  | EvBroadcastToSubscribers (p : Z) (m : WSMessage)
  | EvTransport (c : SocketId) (r : ReadyState) (fails : bool).

Definition handler (e : HubEvent) : Eff Hub unit :=
  match e with
  | EvConnection c s now => handleConnection c s now
  | EvPong c => on_pong c
  | EvMessage c parsed now => handleMessage c parsed now
  | EvClose c => on_close c
  | EvError c => on_error c
  | EvHeartbeat => checkHeartbeat
  | EvBroadcast m => broadcast m
  | EvBroadcastToSubscribers p m => broadcastToSubscribers p m
  | EvTransport c r fails => update c (with_transport r fails)
  end.

Definition hub_step (e : HubEvent) (w : Hub) : Hub := snd (handler e w).

Definition hub_run (es : list HubEvent) (w : Hub) : Hub :=
  foldl (fun w e => hub_step e w) w es.

(** No pong of socket [c] (and no new connection under its identity)
    among the events. *)
Definition quiet_event (c : SocketId) (e : HubEvent) : bool :=
  match e with
  | EvPong c' => bool_decide (c' ≠ c)
  | EvConnection c' _ _ => bool_decide (c' ≠ c)
  | _ => true
  end.

Definition quiet (c : SocketId) (es : list HubEvent) : bool :=
  forallb (quiet_event c) es.

(** What one heartbeat tick does to a socket of the set. *)
Definition beat (s : ExtendedWebSocket) : ExtendedWebSocket :=
  if isAlive s then with_pings (S (pings s)) (with_isAlive false s)
  else dropped s.

Definition unconfirmed (w : Hub) (c : SocketId) : bool :=
  match heap w !! c with
  | Some s => negb (isAlive s)
  | None => false
  end.

Definition liveness (w : Hub) (c : SocketId) : option bool :=
  isAlive <$> heap w !! c.

(** Socket [c] has been pinged and has not answered: if it is still in
    the set, its flag is down. *)
Definition awaiting_pong (c : SocketId) (w : Hub) : Prop :=
  NoDup (clients w) /\ (c ∈ clients w -> liveness w c = Some false).

End HubSteps.

(** Readings of the supervisor's contract that the properties below
    compare the code with. *)
Module SupervisorSpec.

Import PM2Client.

(** A successful return of [ensureConnected] leaves the supervisor
    connected. *)
Definition ensureConnected_ensures (w : Supervisor) : Prop :=
  forall w', ensureConnected w = (Returned Fulfilled, w') ->
             connected (client w') = true.

(** [reconnect] gives up only when the counter is beyond the ceiling. *)
Definition fails_only_beyond_ceiling (w : Supervisor) : Prop :=
  forall e w', reconnect w = (Thrown e, w') ->
               maxReconnectAttempts (client w) < reconnectAttempts (client w).

(** The supervisor while its first connection attempt is in flight. *)
Definition first_attempt : Supervisor := act CallConnect initial.

(** The supervisor after ten reconnects in a row with the daemon
    silent. *)
Definition exhausted : Supervisor := Nat.iter 10 (act CallReconnect) initial.

Definition invariant (w : Supervisor) : Prop :=
  inFlight w = (if connecting (client w) then 1 else 0)%nat /\
  (connected (client w) = true -> connecting (client w) = false) /\
  0 <= reconnectAttempts (client w) <= maxReconnectAttempts (client w) /\
  maxReconnectAttempts (client w) = 10 /\
  reconnectDelay (client w) = 1000 /\
  maxReconnectDelay (client w) = 30000.

End SupervisorSpec.

(** Readings of the translator's contract that the properties below
    compare the code with, and sample states. *)
Module TranslatorSpec.

Import PM2EventBus Samples.

(** A burst of lifecycle items, each with the clock reading it is
    handled at. *)
Definition lifecycle_burst (l : list (PM2ProcessEventPacket * Z)) (r : Relay)
  : Relay :=
  foldl (fun r pn => snd (on_process_event (fst pn) (snd pn) r)) r l.

(** A lifecycle item that arrives while a refresh is already under way
    starts no further refresh. *)
Definition burst_is_noop (r : Relay) : Prop :=
  forall packet now,
    listCalls r ≠ 0%nat ->
    listCalls (snd (on_process_event packet now r)) = listCalls r.

(** The relay right after [startMetricsPolling]: the interval is armed
    and the initial refresh is under way. *)
Definition polling_relay : Relay := snd (startMetricsPolling sample_relay).

Definition sample_entry (u : string) (p : Z) : LogEntry :=
  {| le_id := u; le_processId := p; le_processName := "api";
     le_type := log_out; le_message := u; le_timestamp := 1 |}.

Definition sample_bus : PM2EventBus :=
  {| logBuffer := [sample_entry "a" 1; sample_entry "b" 2; sample_entry "c" 1];
     maxBufferSize := 10000; metricsInterval := false |}.

(** The entries of the buffer that [getRecentLogs] selects from. *)
Definition matching (processId : option Z) (b : PM2EventBus) : list LogEntry :=
  match processId with
  | Some p => filter (fun log => le_processId log = p) (logBuffer b)
  | None => logBuffer b
  end.

End TranslatorSpec.

(** * Vocabulary of the further properties *)

Module HubMore.

Import WebSocketManager PM2EventBus Delivery Wire HubSteps.

(** The greeting [handleConnection] sends. *)
Definition connection_status (now : Z) : WSMessage :=
  {| body := CONNECTION_STATUS {| cs_connected := true; cs_pm2Connected := true |};
     timestamp := now |}.

(** The reply of [handleMessage] to a frame it cannot read. *)
Definition invalid_format (now : Z) : WSMessage :=
  {| body := ERROR "Invalid message format"; timestamp := now |}.

Definition parse_failure : LogLine :=
  {| level := LError; text := "Failed to parse WebSocket message" |}.

(** [getClientCount()] *)
Definition getClientCount (w : Hub) : nat := length (clients w).

(** The LOG_MESSAGE that [handleLog] hands to the hub for an ingestion. *)
Definition message_of (i : Ingestion) : WSMessage :=
  log_message (in_packet i) (in_type i) (in_uuid i) (in_now i).

(** The ingestions whose log message socket [s] asks for. *)
Definition asked_for (s : ExtendedWebSocket) (l : list Ingestion) : list Ingestion :=
  filter (fun i => wants (lp_pm_id (in_packet i)) s = true) l.

(** [n] heartbeat ticks, each answered by a pong of socket [c]. *)
Definition answered_ticks (c : SocketId) (n : nat) : list HubEvent :=
  concat (replicate n [EvHeartbeat; EvPong c]).

(** A client frame that is neither SUBSCRIBE_LOGS nor UNSUBSCRIBE_LOGS. *)
Definition other_type (m : WSMessage) : bool :=
  match body m with
  | SUBSCRIBE_LOGS _ | UNSUBSCRIBE_LOGS _ => false
  | _ => true
  end.

(** Hub [w'] is hub [w] without session [c]: the set has lost [c] and
    nothing else, no socket object has changed, and a broadcast does not
    reach [c] any more. *)
Definition forgets (c : SocketId) (w w' : Hub) : Prop :=
  (c ∉ clients w') /\
  (getClientCount w' + 1 = getClientCount w)%nat /\
  (forall x, x ≠ c -> x ∈ clients w' <-> x ∈ clients w) /\
  heap w' = heap w /\
  (forall m, heap (snd (broadcast m w')) !! c = heap w !! c) /\
  clients (snd (on_close c w')) = clients w'.

End HubMore.

(** The rest of the hub class: the server object, the heartbeat timer and
    [shutdown]. *)
Record HubServer := {
  hub : Hub;
  wss : bool;
  heartbeatInterval : bool;
  liveIntervals : nat
}.

Module HubServer.

Import WebSocketManager.

Definition set_hub (h : Hub) (v : HubServer) : HubServer :=
  {| hub := h; wss := wss v; heartbeatInterval := heartbeatInterval v;
     liveIntervals := liveIntervals v |}.

Definition onHub {A} (m : Eff Hub A) : Eff HubServer A :=
  fun v => let (o, h) := m (hub v) in (o, set_hub h v).

(** [ws.close()]: like [terminate] the library leaves the socket
    [CLOSING] until the close completes, and a closed one alone. *)
Definition ws_close (c : SocketId) : Eff Hub unit := update c dropped.

(** [initialize(server)]: [wss] holds a server object, one more
    [setInterval] runs and its handle is kept. *)
Definition initialize : Eff HubServer unit :=
  modify (fun v => {| hub := hub v; wss := true; heartbeatInterval := true;
                      liveIntervals := S (liveIntervals v) |}) ;;
  onHub (log LInfo "WebSocket server initialized").

Definition shutdown : Eff HubServer unit :=
  (fun v => if heartbeatInterval v then
              (Returned tt,
               {| hub := hub v; wss := wss v; heartbeatInterval := false;
                  liveIntervals := pred (liveIntervals v) |})
            else (Returned tt, v)) ;;
  onHub (fun w => forEach (clients w) ws_close w) ;;
  onHub (modify (set_clients [])) ;;
  (fun v => if wss v then
              (Returned tt,
               {| hub := hub v; wss := false;
                  heartbeatInterval := heartbeatInterval v;
                  liveIntervals := liveIntervals v |})
            else (Returned tt, v)) ;;
  onHub (log LInfo "WebSocket server shut down").

Definition fresh : HubServer :=
  {| hub := WebSocketManager.initial; wss := false; heartbeatInterval := false;
     liveIntervals := 0 |}.

End HubServer.

Module SupervisorMore.

Import PM2Client.

(** The delays of the default configuration, by the number of
    reconnects made since the last success. *)
Definition default_delay (attempt : Z) : Z :=
  if attempt <=? 4 then 1000 * 2 ^ attempt else 30000.

(** [reconnect()], its timer and a daemon answer without error, one
    after the other. *)
Definition reconnect_cycle (w : Supervisor) : Supervisor :=
  snd (connect_callback None (snd (reconnect_resume (snd (reconnect w))))).

Definition was_connected (w : Supervisor) : nat :=
  if connected (client w) then 1%nat else 0%nat.

End SupervisorMore.

Module TranslatorMore.

Import PM2EventBus.

Definition list_failure : LogLine :=
  {| level := LError; text := "Failed to broadcast process list" |}.

(** The relay after a refresh has failed, the interval has ticked and
    the refresh started by the tick has settled with [ps]. *)
Definition retried (e : JSError) (now1 : Z) (ps : list PM2Process) (now2 : Z)
    (r : Relay) : Relay :=
  snd (broadcastProcessList_settled (Returned ps) now2
         (snd (on_metricsInterval
                 (snd (broadcastProcessList_settled (Thrown e) now1 r))))).

End TranslatorMore.

(** ** JavaScript numbers *)

(** A Number is an IEEE 754 binary64 value: NaN, an infinity, or the
    finite value [mantissa * 2 ^ exponent].  Every finite binary64 value
    has this form ([0.5] is [Finite 1 (-1)], [1.5] is [Finite 3 (-1)]);
    the sign of zero is not kept, no operation below looks at it. *)
Inductive JSNumber :=
  | Finite (mantissa exponent : Z)
  | NaN
  | PosInfinity
  | NegInfinity.

(** What is followed of the result of a floating-point operation: its
    value, when the operands are finite and the exact result is itself a
    binary64 value, so that the operation has nothing to round; and
    nothing otherwise. *)
Inductive Computed :=
  | Exact (x : JSNumber)
  | Unfollowed.

(** The integers and infinities of [ToIntegerOrInfinity]. *)
Inductive IntegerOrInfinity :=
  | Int (z : Z)
  | PlusInf
  | MinusInf.

Module JSNumber.

Definition of_Z (z : Z) : JSNumber := Finite z 0.

(** Unary [-x]. *)
Definition neg (x : JSNumber) : JSNumber :=
  match x with
  | Finite m e => Finite (- m) e
  | NaN => NaN
  | PosInfinity => NegInfinity
  | NegInfinity => PosInfinity
  end.

(** [m * 2 ^ e] with its fraction cut off (rounding toward zero). *)
Definition truncate (m e : Z) : Z :=
  if 0 <=? e then m * 2 ^ e else Z.quot m (2 ^ (- e)).

(** [ToIntegerOrInfinity(x)] of ECMAScript: NaN becomes 0, a finite
    number is truncated. *)
Definition ToIntegerOrInfinity (x : JSNumber) : IntegerOrInfinity :=
  match x with
  | Finite m e => Int (truncate m e)
  | NaN => Int 0
  | PosInfinity => PlusInf
  | NegInfinity => MinusInf
  end.

(** [z <= x] for an integer [z]. *)
Definition Z_leb (z : Z) (x : JSNumber) : bool :=
  match x with
  | Finite m e => if 0 <=? e then z <=? m * 2 ^ e else z * 2 ^ (- e) <=? m
  | PosInfinity => true
  | NaN | NegInfinity => false
  end.

(** [m * 2 ^ e] is a binary64 value when the mantissa has at most 53
    bits and the exponent is in range. *)
Definition binary64 (m e : Z) : bool :=
  (Z.abs m <? 2 ^ 53) && (-1074 <=? e) && (e <=? 971).

(** [x * y]: the product itself, when it is a binary64 value. *)
Definition mul (x y : JSNumber) : Computed :=
  match x, y with
  | Finite m1 e1, Finite m2 e2 =>
      if binary64 (m1 * m2) (e1 + e2) then Exact (Finite (m1 * m2) (e1 + e2))
      else Unfollowed
  | _, _ => Unfollowed
  end.

(** [Math.pow(base, n)] for an integer [n]: the power itself, when
    [n] is not negative and the power is a binary64 value. *)
Definition Math_pow (base : JSNumber) (n : Z) : Computed :=
  match base with
  | Finite m e =>
      if (0 <=? n) && binary64 (m ^ n) (e * n) then Exact (Finite (m ^ n) (e * n))
      else Unfollowed
  | _ => Unfollowed
  end.

Definition and_then (c : Computed) (f : JSNumber -> Computed) : Computed :=
  match c with
  | Exact x => f x
  | Unfollowed => Unfollowed
  end.

(** [arr.slice(start)] for any Number [start]: the start is made an
    integer or infinity first; minus infinity starts at 0, plus
    infinity at the length. *)
Definition Array_slice {A} (arr : list A) (start : JSNumber) : list A :=
  match ToIntegerOrInfinity start with
  | Int z => JSArray.slice arr z
  | MinusInf => arr
  | PlusInf => []
  end.

End JSNumber.

(** ** [getRecentLogs] with the limit as the Number it is *)

Module RecentLogs.

(** [getRecentLogs(processId?, limit = 100)] for every Number [limit];
    [None] is an argument left out. *)
Definition getRecentLogs (processId : option Z) (limit : option JSNumber)
    (b : PM2EventBus) : list LogEntry :=
  let limit := default (JSNumber.of_Z 100) limit in
  let logs := logBuffer b in
  let logs := match processId with
              | Some p => filter (fun log => le_processId log = p) logs
              | None => logs
              end in
  JSNumber.Array_slice logs (JSNumber.neg limit).

End RecentLogs.

#[global] Instance LogType_eq_dec : EqDecision LogType.
Proof. solve_decision. Defined.

(** [arr.find(pred)]: the first element that satisfies [pred]. *)
Fixpoint Array_find {A} (P : A -> Prop) `{forall x, Decision (P x)} (l : list A)
  : option A :=
  match l with
  | [] => None
  | x :: l' => if decide (P x) then Some x else Array_find P l'
  end.

(** [s.includes(sub)] *)
Definition String_includes (s sub : string) : bool :=
  match String.index 0 sub s with
  | Some _ => true
  | None => false
  end.

(** ** The rest of stores/processStore.ts and stores/logStore.ts *)

Module Stores.

Import Frontend.

(** [Partial<Process>]: the fields an update carries. *)
Record ProcessPatch := {
  patch_pm_id : option Z;
  patch_name : option string;
  patch_pid : option Z;
  patch_pm2_env : option string;
  patch_monit : option (Z * Z)
}.

(** [{ ...p, ...updates }] *)
Definition spread (p : PM2Process) (updates : ProcessPatch) : PM2Process :=
  {| pm_id := default (pm_id p) (patch_pm_id updates);
     proc_name := default (proc_name p) (patch_name updates);
     proc_pid := default (proc_pid p) (patch_pid updates);
     proc_status := default (proc_status p) (patch_pm2_env updates);
     monit_memory := default (monit_memory p) (fst <$> patch_monit updates);
     monit_cpu := default (monit_cpu p) (snd <$> patch_monit updates) |}.

Definition no_patch : ProcessPatch :=
  {| patch_pm_id := None; patch_name := None; patch_pid := None;
     patch_pm2_env := None; patch_monit := None |}.

Definition with_processes (ps : list PM2Process) (st : ProcessStore) : ProcessStore :=
  {| processes := ps; selectedProcessId := selectedProcessId st;
     isLoading := isLoading st; error := error st |}.

Definition updateProcess (id : Z) (updates : ProcessPatch) (st : ProcessStore)
  : ProcessStore :=
  with_processes
    ((fun p => if decide (pm_id p = id) then spread p updates else p)
       <$> processes st) st.

Definition removeProcess (id : Z) (st : ProcessStore) : ProcessStore :=
  {| processes := filter (fun p => pm_id p ≠ id) (processes st);
     selectedProcessId :=
       if decide (selectedProcessId st = Some id) then None
       else selectedProcessId st;
     isLoading := isLoading st; error := error st |}.

Definition selectProcess (id : option Z) (st : ProcessStore) : ProcessStore :=
  {| processes := processes st; selectedProcessId := id;
     isLoading := isLoading st; error := error st |}.

Definition setLoading (loading : bool) (st : ProcessStore) : ProcessStore :=
  {| processes := processes st; selectedProcessId := selectedProcessId st;
     isLoading := loading; error := error st |}.

Definition setError (e : option string) (st : ProcessStore) : ProcessStore :=
  {| processes := processes st; selectedProcessId := selectedProcessId st;
     isLoading := false; error := e |}.

Definition processStore_initial : ProcessStore :=
  {| processes := []; selectedProcessId := None; isLoading := true;
     error := None |}.

Definition reset (st : ProcessStore) : ProcessStore := processStore_initial.

(** Selectors. *)
Definition useSelectedProcess (st : ProcessStore) : option PM2Process :=
  match selectedProcessId st with
  | None => None
  | Some id => Array_find (fun p => pm_id p = id) (processes st)
  end.

Definition useProcessById (id : Z) (st : ProcessStore) : option PM2Process :=
  Array_find (fun p => pm_id p = id) (processes st).

Record ProcessStats := { total : nat; online : nat; stopped : nat; errored : nat }.

Definition useProcessStats (st : ProcessStore) : ProcessStats :=
  {| total := length (processes st);
     online := length (filter (fun p => proc_status p = "online"%string)
                         (processes st));
     stopped := length (filter (fun p => proc_status p = "stopped"%string)
                          (processes st));
     errored := length (filter (fun p => proc_status p = "errored"%string)
                          (processes st)) |}.

(** The log store. *)
Definition with_logs (l : list LogEntry) (st : LogStore) : LogStore :=
  {| logs := l; filters := filters st; isPaused := isPaused st;
     maxLogs := maxLogs st |}.

Definition addLogs (entries : list LogEntry) (st : LogStore) : LogStore :=
  if isPaused st then st
  else
    let newLogs := logs st ++ entries in
    if JSArray.len newLogs >? maxLogs st then
      with_logs (JSArray.slice newLogs (- maxLogs st)) st
    else with_logs newLogs st.

Definition clearLogs (st : LogStore) : LogStore := with_logs [] st.

(** [Partial<LogFilters>] *)
Record FilterPatch := {
  patch_processId : option SubKey;
  patch_type : option (option LogType);
  patch_search : option string
}.

Definition setFilter (filter : FilterPatch) (st : LogStore) : LogStore :=
  {| logs := logs st;
     filters :=
       {| f_processId := default (f_processId (filters st)) (patch_processId filter);
          f_type := default (f_type (filters st)) (patch_type filter);
          f_search := default (f_search (filters st)) (patch_search filter) |};
     isPaused := isPaused st; maxLogs := maxLogs st |}.

Definition setPaused (paused : bool) (st : LogStore) : LogStore :=
  {| logs := logs st; filters := filters st; isPaused := paused;
     maxLogs := maxLogs st |}.

Definition togglePause (st : LogStore) : LogStore := setPaused (negb (isPaused st)) st.

Definition logStore_initial : LogStore :=
  {| logs := [];
     filters := {| f_processId := All; f_type := None; f_search := "" |};
     isPaused := false; maxLogs := 10000 |}.

(** [useFilteredLogs()].  [toLowerCase] stands for the method of the
    same name of the JS string type. *)
Definition useFilteredLogs (toLowerCase : string -> string) (st : LogStore)
  : list LogEntry :=
  let filtered := logs st in
  let filtered :=
    match f_processId (filters st) with
    | All => filtered
    | Pid p => filter (fun log => le_processId log = p) filtered
    end in
  let filtered :=
    match f_type (filters st) with
    | None => filtered
    | Some t => filter (fun log => le_type log = t) filtered
    end in
  if decide (f_search (filters st) = ""%string) then filtered
  else
    let search := toLowerCase (f_search (filters st)) in
    filter (fun log =>
              String_includes (toLowerCase (le_message log)) search
              || String_includes (toLowerCase (le_processName log)) search = true)
           filtered.

(** The hook applying the frames of a connection one after the other. *)
Definition replay (ms : list WSMessage) (st : ClientState) : ClientState :=
  foldl (fun st m => handleMessage m st) st ms.

Definition snapshot_of (m : WSMessage) : option (list PM2Process) :=
  match body m with
  | PROCESS_LIST_UPDATE ps => Some ps
  | _ => None
  end.

Definition log_entry_of (m : WSMessage) : option LogEntry :=
  match body m with
  | LOG_MESSAGE e => Some e
  | _ => None
  end.

Definition client_initial : ClientState :=
  {| processStore := processStore_initial; logStore := logStore_initial;
     console := [] |}.

Definition sample_process (id : Z) (status : string) : PM2Process :=
  {| pm_id := id; proc_name := "api"; proc_pid := 100 + id;
     proc_status := status; monit_memory := 0; monit_cpu := 0 |}.

Definition sample_store : ProcessStore :=
  {| processes := [sample_process 1 "online"; sample_process 2 "stopped";
                   sample_process 3 "launching"];
     selectedProcessId := Some 2; isLoading := false; error := None |}.

End Stores.

(** ** The rest of hooks/useWebSocket.ts: the connection of the browser *)

Module UseWebSocket.

(** The options, refs and state of the hook, the browser's socket
    objects with their [readyState], and the timers [setTimeout] has
    pending, each with the delay it was given; [scheduled] lists the
    delays of all [setTimeout] calls made, oldest first; [sent] lists
    what [ws.send] was given. *)
Record Hook := {
  sockets : gmap SocketId ReadyState;
  nextSocket : SocketId;
  wsRef : option SocketId;
  reconnectAttemptsRef : Z;
  maxReconnectAttempts : Z;
  reconnectInterval : JSNumber;
  pendingTimers : gmap nat Computed;
  nextTimer : nat;
  reconnectTimeoutRef : option nat;
  scheduled : list Computed;
  connected : bool;
  connecting : bool;
  sent : list (SocketId * WSMessage)
}.

Definition set_flags (c g : bool) (h : Hook) : Hook :=
  {| sockets := sockets h; nextSocket := nextSocket h; wsRef := wsRef h;
     reconnectAttemptsRef := reconnectAttemptsRef h;
     maxReconnectAttempts := maxReconnectAttempts h;
     reconnectInterval := reconnectInterval h;
     pendingTimers := pendingTimers h; nextTimer := nextTimer h;
     reconnectTimeoutRef := reconnectTimeoutRef h; scheduled := scheduled h;
     connected := c; connecting := g; sent := sent h |}.

Definition set_wsRef (r : option SocketId) (h : Hook) : Hook :=
  {| sockets := sockets h; nextSocket := nextSocket h; wsRef := r;
     reconnectAttemptsRef := reconnectAttemptsRef h;
     maxReconnectAttempts := maxReconnectAttempts h;
     reconnectInterval := reconnectInterval h;
     pendingTimers := pendingTimers h; nextTimer := nextTimer h;
     reconnectTimeoutRef := reconnectTimeoutRef h; scheduled := scheduled h;
     connected := connected h; connecting := connecting h; sent := sent h |}.

Definition set_attempts (n : Z) (h : Hook) : Hook :=
  {| sockets := sockets h; nextSocket := nextSocket h; wsRef := wsRef h;
     reconnectAttemptsRef := n;
     maxReconnectAttempts := maxReconnectAttempts h;
     reconnectInterval := reconnectInterval h;
     pendingTimers := pendingTimers h; nextTimer := nextTimer h;
     reconnectTimeoutRef := reconnectTimeoutRef h; scheduled := scheduled h;
     connected := connected h; connecting := connecting h; sent := sent h |}.

Definition set_sockets (s : gmap SocketId ReadyState) (h : Hook) : Hook :=
  {| sockets := s; nextSocket := nextSocket h; wsRef := wsRef h;
     reconnectAttemptsRef := reconnectAttemptsRef h;
     maxReconnectAttempts := maxReconnectAttempts h;
     reconnectInterval := reconnectInterval h;
     pendingTimers := pendingTimers h; nextTimer := nextTimer h;
     reconnectTimeoutRef := reconnectTimeoutRef h; scheduled := scheduled h;
     connected := connected h; connecting := connecting h; sent := sent h |}.

(** [wsRef.current?.readyState === WebSocket.OPEN] *)
Definition current_open (h : Hook) : bool :=
  match wsRef h with
  | Some id => bool_decide (sockets h !! id = Some OPEN)
  | None => false
  end.

(** [connect()]: unless the current socket is open, a new socket object
    is made (it starts [CONNECTING]) and becomes the current one. *)
Definition connect (h : Hook) : Hook :=
  if current_open h then h
  else
    {| sockets := <[nextSocket h := CONNECTING]> (sockets h);
       nextSocket := S (nextSocket h);
       wsRef := Some (nextSocket h);
       reconnectAttemptsRef := reconnectAttemptsRef h;
       maxReconnectAttempts := maxReconnectAttempts h;
       reconnectInterval := reconnectInterval h;
       pendingTimers := pendingTimers h; nextTimer := nextTimer h;
       reconnectTimeoutRef := reconnectTimeoutRef h; scheduled := scheduled h;
       connected := connected h; connecting := true; sent := sent h |}.

(** [ws.onopen] *)
Definition onopen (h : Hook) : Hook :=
  set_attempts 0 (set_flags true false h).

(** [window.setTimeout(connect, delay)] with the handle stored in
    [reconnectTimeoutRef]. *)
Definition setTimeout_connect (delay : Computed) (h : Hook) : Hook :=
  {| sockets := sockets h; nextSocket := nextSocket h; wsRef := wsRef h;
     reconnectAttemptsRef := reconnectAttemptsRef h;
     maxReconnectAttempts := maxReconnectAttempts h;
     reconnectInterval := reconnectInterval h;
     pendingTimers := <[nextTimer h := delay]> (pendingTimers h);
     nextTimer := S (nextTimer h);
     reconnectTimeoutRef := Some (nextTimer h);
     scheduled := scheduled h ++ [delay];
     connected := connected h; connecting := connecting h; sent := sent h |}.

(** [reconnectInterval * Math.pow(1.5, attempts - 1)] *)
Definition retry_delay (interval : JSNumber) (attempts : Z) : Computed :=
  JSNumber.and_then (JSNumber.Math_pow (Finite 3 (-1)) (attempts - 1))
    (JSNumber.mul interval).

(** [ws.onclose] *)
Definition onclose (h : Hook) : Hook :=
  let h1 := set_wsRef None (set_flags false false h) in
  if reconnectAttemptsRef h1 <? maxReconnectAttempts h1 then
    let h2 := set_attempts (reconnectAttemptsRef h1 + 1) h1 in
    let delay := retry_delay (reconnectInterval h2) (reconnectAttemptsRef h2) in
    setTimeout_connect delay h2
  else h1.

(** [clearTimeout(handle)] *)
Definition clearTimeout (t : nat) (h : Hook) : Hook :=
  {| sockets := sockets h; nextSocket := nextSocket h; wsRef := wsRef h;
     reconnectAttemptsRef := reconnectAttemptsRef h;
     maxReconnectAttempts := maxReconnectAttempts h;
     reconnectInterval := reconnectInterval h;
     pendingTimers := delete t (pendingTimers h); nextTimer := nextTimer h;
     reconnectTimeoutRef := reconnectTimeoutRef h; scheduled := scheduled h;
     connected := connected h; connecting := connecting h; sent := sent h |}.

(** [ws.close()] in the browser: the socket is [CLOSING] until the
    close event, a closed one stays closed. *)
Definition ws_close (id : SocketId) (h : Hook) : Hook :=
  set_sockets (alter (fun r => match r with CLOSED => CLOSED | _ => CLOSING end)
                 id (sockets h)) h.

Definition disconnect (h : Hook) : Hook :=
  let h1 := match reconnectTimeoutRef h with
            | Some t =>
                let h' := clearTimeout t h in
                {| sockets := sockets h'; nextSocket := nextSocket h';
                   wsRef := wsRef h';
                   reconnectAttemptsRef := reconnectAttemptsRef h';
                   maxReconnectAttempts := maxReconnectAttempts h';
                   reconnectInterval := reconnectInterval h';
                   pendingTimers := pendingTimers h'; nextTimer := nextTimer h';
                   reconnectTimeoutRef := None; scheduled := scheduled h';
                   connected := connected h'; connecting := connecting h';
                   sent := sent h' |}
            | None => h
            end in
  let h2 := match wsRef h1 with
            | Some id => set_wsRef None (ws_close id h1)
            | None => h1
            end in
  set_flags false false h2.

(** [sendMessage(message)]; [now] is [Date.now()]. *)
Definition sendMessage (b : WSBody) (now : Z) (h : Hook) : Hook :=
  match wsRef h with
  | Some id =>
      if bool_decide (sockets h !! id = Some OPEN) then
        {| sockets := sockets h; nextSocket := nextSocket h; wsRef := wsRef h;
           reconnectAttemptsRef := reconnectAttemptsRef h;
           maxReconnectAttempts := maxReconnectAttempts h;
           reconnectInterval := reconnectInterval h;
           pendingTimers := pendingTimers h; nextTimer := nextTimer h;
           reconnectTimeoutRef := reconnectTimeoutRef h; scheduled := scheduled h;
           connected := connected h; connecting := connecting h;
           sent := sent h ++ [(id, {| body := b; timestamp := now |})] |}
      else h
  | None => h
  end.

(** What the browser and the user can make the hook do. *)
Inductive HookEvent :=
  | Opened (id : SocketId)
  | Closed (id : SocketId)
  | TimerFired (t : nat)
  | UserConnect
  | UserDisconnect
  | UserSend (b : WSBody) (now : Z).

(** The browser sets the socket's [readyState] before it calls the
    handler; a timer runs only while it is pending. *)
Definition hook_step (e : HookEvent) (h : Hook) : Hook :=
  match e with
  | Opened id => onopen (set_sockets (<[id := OPEN]> (sockets h)) h)
  | Closed id => onclose (set_sockets (<[id := CLOSED]> (sockets h)) h)
  | TimerFired t =>
      match pendingTimers h !! t with
      | Some _ => connect (clearTimeout t h)
      | None => h
      end
  | UserConnect => connect h
  | UserDisconnect => disconnect h
  | UserSend b now => sendMessage b now h
  end.

(** The hook as it is mounted with the default options: [connect()]
    has run once. *)
Definition mounted : Hook :=
  connect {| sockets := ∅; nextSocket := 0%nat; wsRef := None;
             reconnectAttemptsRef := 0; maxReconnectAttempts := 10;
             reconnectInterval := JSNumber.of_Z 3000;
             pendingTimers := ∅; nextTimer := 1%nat; reconnectTimeoutRef := None;
             scheduled := []; connected := false; connecting := false;
             sent := [] |}.

(** The current socket closes and the reconnect timer that this
    scheduled, if any, fires. *)
Definition lose (h : Hook) : Hook :=
  match wsRef h with
  | Some id =>
      let h1 := hook_step (Closed id) h in
      if reconnectAttemptsRef h <? maxReconnectAttempts h then
        match reconnectTimeoutRef h1 with
        | Some t => hook_step (TimerFired t) h1
        | None => h1
        end
      else h1
  | None => h
  end.

End UseWebSocket.

(** * Properties *)

(** ** The log ring buffer *)

Section RingBuffer.

Import PM2EventBus Samples.

Lemma tail_drop {A} (l : list A) : tail l = drop 1 l.
Proof. by destruct l. Qed.

Lemma most_recent_length {A} (n : Z) (l : list A) :
  0 <= n -> JSArray.len (most_recent n l) <= n.
Proof.
  intros Hn. unfold most_recent, JSArray.len. rewrite length_drop. lia.
Qed.

Lemma most_recent_all {A} (n : Z) (l : list A) :
  JSArray.len l <= n -> most_recent n l = l.
Proof.
  unfold most_recent, JSArray.len. intros H.
  replace (length l - Z.to_nat n)%nat with 0%nat by lia. done.
Qed.

Lemma buffer_add_most_recent (cap : Z) (l : list LogEntry) (e : LogEntry) :
  0 <= cap ->
  buffer_add cap (most_recent cap l) e = most_recent cap (l ++ [e]).
Proof.
  intros Hcap. unfold buffer_add, JSArray.push, JSArray.shift, JSArray.len,
    most_recent.
  rewrite !length_app, length_drop. cbn [length].
  destruct (Z.gtb_spec
    (Z.of_nat (length l - (length l - Z.to_nat cap) + 1)) cap) as [Hgt | Hle].
  - rewrite tail_drop.
    rewrite <- (drop_app_le l [e]) by lia.
    rewrite drop_drop. f_equal. lia.
  - replace (length l - Z.to_nat cap)%nat with 0%nat by lia.
    replace (length l + 1 - Z.to_nat cap)%nat with 0%nat by lia. done.
Qed.

Lemma onHub_bus {A} (m : Eff Hub A) (r : Relay) :
  pm2EventBus (snd (onHub m r)) = pm2EventBus r.
Proof. unfold onHub. by destruct (m (wsManager r)). Qed.

Lemma ingest_bus (i : Ingestion) (r : Relay) :
  pm2EventBus (ingest i r) =
    with_logBuffer (buffer_add (maxBufferSize (pm2EventBus r))
                      (logBuffer (pm2EventBus r)) (entry_of i))
                   (pm2EventBus r).
Proof.
  unfold ingest, handleLog, bind, this, modify. cbn.
  apply (onHub_bus _ (set_bus _ r)).
Qed.

Lemma ingest_all_snoc (l : list Ingestion) (i : Ingestion) (r : Relay) :
  ingest_all (l ++ [i]) r = ingest i (ingest_all l r).
Proof. unfold ingest_all. by rewrite foldl_app. Qed.

Lemma ingest_all_bus (l : list Ingestion) (r : Relay) :
  JSArray.len (logBuffer (pm2EventBus r)) <= maxBufferSize (pm2EventBus r) ->
  pm2EventBus (ingest_all l r) =
    with_logBuffer
      (most_recent (maxBufferSize (pm2EventBus r))
         (logBuffer (pm2EventBus r) ++ (entry_of <$> l)))
      (pm2EventBus r).
Proof.
  intros Hlen.
  assert (0 <= maxBufferSize (pm2EventBus r)) as Hcap
    by (unfold JSArray.len in Hlen; lia).
  induction l as [| i l IH] using rev_ind.
  - cbn. rewrite app_nil_r, most_recent_all by done.
    by destruct (pm2EventBus r).
  - rewrite ingest_all_snoc, ingest_bus, IH. cbn.
    rewrite buffer_add_most_recent by done.
    by rewrite fmap_app, app_assoc.
Qed.

(** C1. Whatever log items are ingested, starting from a buffer within
    its capacity: the capacity is never exceeded, the buffer holds the
    most recent [maxBufferSize] entries in arrival order, and one more
    entry into a full buffer of 10000 drops the oldest entry and leaves
    10000.  The translator starts with an empty buffer of capacity
    10000. *)
Theorem log_buffer_fifo (r : Relay) (l : list Ingestion) :
  JSArray.len (logBuffer (pm2EventBus r)) <= maxBufferSize (pm2EventBus r) ->
  let cap := maxBufferSize (pm2EventBus r) in
  let buf := logBuffer (pm2EventBus r) in
  let buf' := logBuffer (pm2EventBus (ingest_all l r)) in
  maxBufferSize (pm2EventBus (ingest_all l r)) = cap /\
  JSArray.len buf' <= cap /\
  buf' = most_recent cap (buf ++ (entry_of <$> l)) /\
  (forall i : Ingestion,
     cap = 10000 -> JSArray.len buf = 10000 ->
     logBuffer (pm2EventBus (ingest i r)) = tail buf ++ [entry_of i] /\
     JSArray.len (logBuffer (pm2EventBus (ingest i r))) = 10000) /\
  logBuffer (pm2EventBus initial) = [] /\
  maxBufferSize (pm2EventBus initial) = 10000.
Proof.
  intros Hlen cap buf buf'. subst buf'.
  assert (0 <= cap) as Hcap by (subst cap; unfold JSArray.len in Hlen; lia).
  rewrite ingest_all_bus by done. cbn. fold cap buf.
  split; [done |]. split; [by apply most_recent_length |].
  split; [done |]. split; [| done].
  intros i Hc Hfull. rewrite ingest_bus. cbn. fold cap buf.
  unfold buffer_add, JSArray.push, JSArray.shift, JSArray.len in *.
  rewrite length_app. cbn [length].
  destruct (Z.gtb_spec (Z.of_nat (length buf + 1)) cap) as [_ | Hle]; [| lia].
  destruct buf as [| e0 buf0]; [cbn in Hfull; lia |].
  cbn [tail app]. split; [done |].
  rewrite length_app. cbn [length] in *. lia.
Qed.

Lemma log_buffer_fifo_witness :
  logBuffer (pm2EventBus
    (ingest_all [sample_ingestion 1 "a" 10; sample_ingestion 2 "b" 11;
                 sample_ingestion 1 "c" 12] small_relay))
  = [entry_of (sample_ingestion 2 "b" 11); entry_of (sample_ingestion 1 "c" 12)].
Proof.
  assert (JSArray.len (logBuffer (pm2EventBus small_relay))
          <= maxBufferSize (pm2EventBus small_relay)) as H
    by (vm_compute; discriminate).
  exact (proj1 (proj2 (proj2 (log_buffer_fifo small_relay
    [sample_ingestion 1 "a" 10; sample_ingestion 2 "b" 11;
     sample_ingestion 1 "c" 12] H)))).
Defined.

End RingBuffer.

(** ** Fan-out *)

Section FanOut.

Import WebSocketManager Delivery.

Lemma forEach_ext {S A} (f g : A -> Eff S unit) (l : list A) (s : S) :
  (forall x s', f x s' = g x s') -> forEach l f s = forEach l g s.
Proof.
  intros Hfg. revert s. induction l as [| x l IH]; intros s; [done |].
  cbn. unfold bind. rewrite Hfg. destruct (g x s) as [[[] | e] s']; [| done].
  apply IH.
Qed.

Lemma broadcast_visit (m : WSMessage) (w : Hub) :
  broadcast m w = forEach (clients w) (visit everyone m) w.
Proof.
  unfold broadcast. apply forEach_ext. intros c w'.
  unfold visit, everyone, sendToClient. by destruct (heap w' !! c).
Qed.

Lemma broadcastToSubscribers_visit (p : Z) (m : WSMessage) (w : Hub) :
  broadcastToSubscribers p m w = forEach (clients w) (visit (wants p) m) w.
Proof.
  unfold broadcastToSubscribers. apply forEach_ext. intros c w'.
  unfold visit, wants, has_subscription. by destruct (heap w' !! c).
Qed.

Lemma visit_one (P : ExtendedWebSocket -> bool) (m : WSMessage)
    (c : SocketId) (w : Hub) :
  fst (visit P m c w) = Returned tt /\
  clients (snd (visit P m c w)) = clients w /\
  heap (snd (visit P m c w)) !! c = relayed P m <$> heap w !! c /\
  (forall c', c' ≠ c -> heap (snd (visit P m c w)) !! c' = heap w !! c') /\
  logger (snd (visit P m c w)) = logger w ++ failures P w [c].
Proof.
  unfold visit, failures, relayed, accepts, refuses, sendToClient, try_catch,
    ws_send.
  cbn [flat_map]. rewrite app_nil_r.
  destruct (heap w !! c) as [s |] eqn:Hc; cbn;
    [| by rewrite app_nil_r].
  destruct (P s); cbn; [| by rewrite ?Hc, app_nil_r].
  destruct (decide (readyState s = OPEN)) as [Ho | Hn].
  - rewrite (bool_decide_eq_true_2 _ Ho). cbn.
    destruct (sendFails s); cbn.
    + by rewrite ?Hc.
    + rewrite lookup_insert_eq, app_nil_r. repeat split; try done.
      intros c' Hne. by rewrite lookup_insert_ne.
  - rewrite (bool_decide_eq_false_2 _ Hn). cbn.
    by rewrite ?Hc, app_nil_r.
Qed.

Lemma failures_ext (P : ExtendedWebSocket -> bool) (w w' : Hub) (l : list SocketId) :
  (forall c, c ∈ l -> heap w' !! c = heap w !! c) ->
  failures P w' l = failures P w l.
Proof.
  induction l as [| c l IH]; intros H; [done |].
  unfold failures in *. cbn. rewrite H by apply list_elem_of_here.
  f_equal. apply IH. intros c' Hc'. apply H. by apply list_elem_of_further.
Qed.

(** A fan-out loop always returns and leaves the set as it is. *)
Lemma fanout_total (P : ExtendedWebSocket -> bool) (m : WSMessage)
    (l : list SocketId) (w : Hub) :
  fst (forEach l (visit P m) w) = Returned tt /\
  clients (snd (forEach l (visit P m) w)) = clients w.
Proof.
  revert w. induction l as [| c l IH]; intros w; [done |].
  destruct (visit_one P m c w) as (Hr & Hcl & _).
  cbn [forEach]. unfold bind.
  destruct (visit P m c w) as [o w1]. cbn in Hr, Hcl. subst o.
  destruct (IH w1) as [Hr' Hcl']. split; [done | congruence].
Qed.

Lemma broadcast_total (m : WSMessage) (w : Hub) :
  fst (broadcast m w) = Returned tt /\
  clients (snd (broadcast m w)) = clients w.
Proof. rewrite broadcast_visit. apply fanout_total. Qed.

Lemma broadcastToSubscribers_total (p : Z) (m : WSMessage) (w : Hub) :
  fst (broadcastToSubscribers p m w) = Returned tt /\
  clients (snd (broadcastToSubscribers p m w)) = clients w.
Proof. rewrite broadcastToSubscribers_visit. apply fanout_total. Qed.

(** The fan-out loop over a duplicate-free iteration order. *)
Lemma fanout_spec (P : ExtendedWebSocket -> bool) (m : WSMessage)
    (l : list SocketId) (w : Hub) :
  NoDup l ->
  fst (forEach l (visit P m) w) = Returned tt /\
  clients (snd (forEach l (visit P m) w)) = clients w /\
  (forall c, heap (snd (forEach l (visit P m) w)) !! c =
               if decide (c ∈ l) then relayed P m <$> heap w !! c
               else heap w !! c) /\
  logger (snd (forEach l (visit P m) w)) = logger w ++ failures P w l.
Proof.
  revert w. induction l as [| c l IH]; intros w Hnd.
  - cbn. rewrite app_nil_r. by repeat split.
  - apply NoDup_cons in Hnd as [Hc Hnd].
    destruct (visit_one P m c w) as (Hr & Hcl & Hself & Hoth & Hlog).
    cbn [forEach]. unfold bind.
    destruct (visit P m c w) as [o w1]. cbn in Hr, Hcl, Hself, Hoth, Hlog.
    subst o.
    destruct (IH w1 Hnd) as (Hr' & Hcl' & Hheap' & Hlog').
    split; [done |]. split; [congruence |]. split.
    + intros c'. rewrite Hheap'.
      destruct (decide (c' = c)) as [-> | Hne].
      * destruct (decide (c ∈ l)); [done |].
        destruct (decide (c ∈ c :: l)) as [_ | Hn]; [done |].
        destruct Hn. apply list_elem_of_here.
      * rewrite (Hoth c' Hne).
        destruct (decide (c' ∈ l)) as [Hl | Hl],
                 (decide (c' ∈ c :: l)) as [Hcl2 | Hcl2]; try done.
        -- destruct Hcl2. by apply list_elem_of_further.
        -- apply elem_of_cons in Hcl2 as [? | ?]; done.
    + rewrite Hlog', Hlog. rewrite <- app_assoc. f_equal.
      rewrite (failures_ext P w w1 l).
      * unfold failures. cbn. by rewrite app_nil_r.
      * intros c' Hc'. apply Hoth. by intros ->.
Qed.

Lemma broadcast_spec (m : WSMessage) (w : Hub) :
  NoDup (clients w) ->
  fst (broadcast m w) = Returned tt /\
  clients (snd (broadcast m w)) = clients w /\
  (forall c, heap (snd (broadcast m w)) !! c =
               if decide (c ∈ clients w) then relayed everyone m <$> heap w !! c
               else heap w !! c) /\
  logger (snd (broadcast m w)) = logger w ++ failures everyone w (clients w).
Proof. intros Hnd. rewrite broadcast_visit. by apply fanout_spec. Qed.

Lemma broadcastToSubscribers_spec (p : Z) (m : WSMessage) (w : Hub) :
  NoDup (clients w) ->
  fst (broadcastToSubscribers p m w) = Returned tt /\
  clients (snd (broadcastToSubscribers p m w)) = clients w /\
  (forall c, heap (snd (broadcastToSubscribers p m w)) !! c =
               if decide (c ∈ clients w) then relayed (wants p) m <$> heap w !! c
               else heap w !! c) /\
  logger (snd (broadcastToSubscribers p m w))
    = logger w ++ failures (wants p) w (clients w).
Proof. intros Hnd. rewrite broadcastToSubscribers_visit. by apply fanout_spec. Qed.

(** A socket that [P] rejects, or that is not in the set, is left as it
    was. *)
Lemma relayed_skip (P : ExtendedWebSocket -> bool) (m : WSMessage)
    (s : ExtendedWebSocket) :
  P s = false -> relayed P m s = s.
Proof. unfold relayed. by intros ->. Qed.

Lemma relayed_accept (P : ExtendedWebSocket -> bool) (m : WSMessage)
    (s : ExtendedWebSocket) :
  P s = true -> accepts s = true -> relayed P m s = deliver m s.
Proof. unfold relayed. by intros -> ->. Qed.

Lemma wants_only (q p : Z) (s : ExtendedWebSocket) :
  subscriptions s = {[ Pid q ]} -> p ≠ q -> wants p s = false.
Proof.
  intros Hs Hp. unfold wants. rewrite Hs.
  rewrite !bool_decide_eq_false_2; [done | |].
  - rewrite elem_of_singleton. congruence.
  - rewrite elem_of_singleton. congruence.
Qed.

End FanOut.

(** ** The translator's calls into the hub *)

Section Routing.

Import WebSocketManager PM2EventBus Delivery Wire.

Lemma handleLog_hub packet type uuid now (r : Relay) :
  handleLog packet type uuid now r =
    (fst (broadcastToSubscribers (lp_pm_id packet)
            (log_message packet type uuid now) (wsManager r)),
     {| pm2EventBus := with_logBuffer
          (buffer_add (maxBufferSize (pm2EventBus r)) (logBuffer (pm2EventBus r))
             (mkLogEntry packet type uuid now)) (pm2EventBus r);
        wsManager := snd (broadcastToSubscribers (lp_pm_id packet)
                            (log_message packet type uuid now) (wsManager r));
        listCalls := listCalls r |}).
Proof.
  unfold handleLog, bind, this, modify, onHub, log_message. cbn.
  by destruct (broadcastToSubscribers _ _ _) as [[[] | e] h].
Qed.

Lemma on_process_event_eq packet now (r : Relay) :
  on_process_event packet now r =
    (Returned tt,
     {| pm2EventBus := pm2EventBus r;
        wsManager := snd (broadcast (process_event_message packet now)
                            (with_line process_event_line (wsManager r)));
        listCalls := S (listCalls r) |}).
Proof.
  unfold on_process_event, bind, onHub, broadcastProcessList, modify.
  cbn -[broadcast].
  fold (process_event_message packet now).
  fold (with_line process_event_line (wsManager r)).
  pose proof (broadcast_total (process_event_message packet now)
                (with_line process_event_line (wsManager r))) as [Hr _].
  destruct (broadcast _ _) as [o h]. cbn in Hr. by subst o.
Qed.

Lemma broadcastProcessList_settled_ok ps now (r : Relay) :
  broadcastProcessList_settled (Returned ps) now r =
    (Returned tt,
     {| pm2EventBus := pm2EventBus r;
        wsManager := snd (broadcast (process_list_message ps now) (wsManager r));
        listCalls := pred (listCalls r) |}).
Proof.
  unfold broadcastProcessList_settled, bind, try_catch, onHub, modify.
  cbn -[broadcast].
  fold (process_list_message ps now).
  pose proof (broadcast_total (process_list_message ps now) (wsManager r))
    as [Hr _].
  destruct (broadcast _ _) as [o h]. cbn in Hr. by subst o.
Qed.

End Routing.

(** ** Subscription filtering *)

Section Subscriptions.

Import WebSocketManager PM2EventBus Delivery Wire Samples.

(** C2. A session whose subscription set is exactly {7} is left untouched
    by [broadcastToSubscribers] for any other process id, and so by the
    translator's handling of a log item of any other process; while
    [broadcast], and with it the translator's PROCESS_EVENT and
    PROCESS_LIST_UPDATE, reaches every session of the set whose socket
    is open and takes the send, whatever its subscription set is. *)
Theorem subscription_filters_logs_only (r : Relay) (c : SocketId)
    (s : ExtendedWebSocket) :
  NoDup (clients (wsManager r)) ->
  heap (wsManager r) !! c = Some s ->
  (subscriptions s = {[ Pid 7 ]} ->
     (forall p m, p ≠ 7 ->
        heap (snd (broadcastToSubscribers p m (wsManager r))) !! c = Some s) /\
     (forall packet type uuid now, lp_pm_id packet ≠ 7 ->
        heap (wsManager (snd (handleLog packet type uuid now r))) !! c = Some s)) /\
  (c ∈ clients (wsManager r) -> accepts s = true ->
     (forall m, heap (snd (broadcast m (wsManager r))) !! c = Some (deliver m s)) /\
     (forall packet now,
        heap (wsManager (snd (on_process_event packet now r))) !! c
          = Some (deliver (process_event_message packet now) s)) /\
     (forall ps now,
        heap (wsManager (snd (broadcastProcessList_settled (Returned ps) now r))) !! c
          = Some (deliver (process_list_message ps now) s))).
Proof.
  intros Hnd Hc. split.
  - intros Hsub.
    assert (forall p m, p ≠ 7 ->
      heap (snd (broadcastToSubscribers p m (wsManager r))) !! c = Some s) as H.
    { intros p m Hp.
      destruct (broadcastToSubscribers_spec p m _ Hnd) as (_ & _ & Hh & _).
      rewrite Hh, Hc. cbn. rewrite relayed_skip by (by apply (wants_only 7)).
      by destruct (decide _). }
    split; [done |].
    intros packet type uuid now Hp. rewrite handleLog_hub.
    cbn [wsManager snd]. by apply H.
  - intros Hin Hacc.
    assert (forall m w, heap w = heap (wsManager r) ->
              clients w = clients (wsManager r) ->
              heap (snd (broadcast m w)) !! c = Some (deliver m s)) as H.
    { intros m w Hh Hcl. rewrite <- Hcl in Hnd, Hin.
      destruct (broadcast_spec m w Hnd) as (_ & _ & Hh' & _).
      rewrite Hh', Hh, Hc. cbn. rewrite relayed_accept by done.
      by destruct (decide _). }
    split; [by intros m; apply H |]. split.
    + intros packet now. rewrite on_process_event_eq. cbn [wsManager snd].
      by apply H.
    + intros ps now. rewrite broadcastProcessList_settled_ok.
      cbn [wsManager snd]. by apply H.
Qed.

Lemma subscription_filters_logs_only_witness :
  heap (snd (broadcastToSubscribers 8 (sample_log 8) sample_hub)) !! 0%nat
    = Some (open_socket {[ Pid 7 ]}) /\
  heap (snd (broadcast sample_message sample_hub)) !! 0%nat
    = Some (deliver sample_message (open_socket {[ Pid 7 ]})).
Proof.
  assert (NoDup (clients (wsManager sample_relay))) as Hnd
    by (apply (bool_decide_unpack _); vm_compute; exact I).
  assert (heap (wsManager sample_relay) !! 0%nat = Some (open_socket {[ Pid 7 ]}))
    as Hc by reflexivity.
  destruct (subscription_filters_logs_only sample_relay 0%nat
              (open_socket {[ Pid 7 ]}) Hnd Hc) as [Hlogs Hall].
  split.
  - apply (proj1 (Hlogs eq_refl)). discriminate.
  - apply (proj1 (Hall (list_elem_of_here _ _) eq_refl)).
Defined.

End Subscriptions.

(** ** Failure isolation *)

Section Isolation.

Import WebSocketManager Delivery Samples.

Lemma failure_logged (P : ExtendedWebSocket -> bool) (w : Hub)
    (l : list SocketId) (c : SocketId) (s : ExtendedWebSocket) :
  c ∈ l -> heap w !! c = Some s -> P s = true -> refuses s = true ->
  send_failure ∈ failures P w l.
Proof.
  intros Hin Hc HP Hr. induction Hin as [c l | c c' l _ IH].
  - unfold failures. cbn. rewrite Hc, HP, Hr. cbn. apply list_elem_of_here.
  - unfold failures in *. cbn. apply elem_of_app. right. by apply IH.
Qed.

Lemma refuses_not_accepts (s : ExtendedWebSocket) :
  refuses s = true -> accepts s = false.
Proof.
  unfold refuses, accepts.
  destruct (bool_decide (readyState s = OPEN)), (sendFails s); done.
Qed.

Lemma fanout_isolated (P : ExtendedWebSocket -> bool) (m : WSMessage) (w : Hub) :
  NoDup (clients w) ->
  isolated P m w (forEach (clients w) (visit P m) w).
Proof.
  intros Hnd.
  destruct (fanout_spec P m (clients w) w Hnd) as (Hr & Hcl & Hh & Hlog).
  split; [done |]. split; [done |]. split; [done |].
  intros c s Hin Hc HP. rewrite Hh, Hc, Hlog.
  destruct (decide (c ∈ clients w)); [| done]. cbn. split.
  - intros Href. unfold relayed.
    rewrite (refuses_not_accepts s Href), HP. cbn. split; [done |].
    apply elem_of_app. right. by apply (failure_logged P w _ c s).
  - intros Hacc. by rewrite relayed_accept.
Qed.

(** C4 (as the code has it). In both fan-outs a send that raises is
    caught and logged; the failing session stays in the session set and
    is left as it was, every other selected session whose socket is open
    and takes the send receives the message, and the fan-out returns
    normally. *)
Theorem send_failure_isolated (w : Hub) (m : WSMessage) (p : Z) :
  NoDup (clients w) ->
  isolated everyone m w (broadcast m w) /\
  isolated (wants p) m w (broadcastToSubscribers p m w).
Proof.
  intros Hnd. rewrite broadcast_visit, broadcastToSubscribers_visit.
  split; by apply fanout_isolated.
Qed.

Lemma send_failure_isolated_witness :
  isolated everyone sample_message sample_hub
    (broadcast sample_message sample_hub) /\
  isolated (wants 7) sample_message sample_hub
    (broadcastToSubscribers 7 sample_message sample_hub).
Proof.
  apply (send_failure_isolated sample_hub sample_message 7).
  apply (bool_decide_unpack _). vm_compute. exact I.
Defined.

(** C4 as worded fails: the session whose send raised is still in the
    set after the broadcast. *)
Lemma send_failure_keeps_session :
  ~ removes_failed_sessions sample_message sample_hub.
Proof.
  intros H.
  apply (H 1%nat (broken_socket {[ All ]})).
  - apply list_elem_of_further, list_elem_of_here.
  - reflexivity.
  - reflexivity.
  - destruct (broadcast_total sample_message sample_hub) as [_ ->].
    apply list_elem_of_further, list_elem_of_here.
Qed.

End Isolation.

(** ** Client messages *)

Section ClientMessages.

Import WebSocketManager PM2EventBus Delivery Wire Samples.

Lemma handleMessage_subscribe (c : SocketId) (k : SubKey) (t now : Z) (w : Hub) :
  handleMessage c (Some (subscribe_logs k t)) now w =
    (Returned tt,
     with_line {| level := LDebug; text := "Client subscribed to logs for process" |}
       (set_heap (alter (fun s => with_subscriptions (subscriptions s ∪ {[ k ]}) s)
                    c (heap w)) w)).
Proof. reflexivity. Qed.

Lemma handleMessage_unsubscribe (c : SocketId) (k : SubKey) (t now : Z) (w : Hub) :
  handleMessage c (Some (unsubscribe_logs k t)) now w =
    (Returned tt,
     with_line {| level := LDebug; text := "Client unsubscribed from logs for process" |}
       (set_heap (alter (fun s => with_subscriptions (subscriptions s ∖ {[ k ]}) s)
                    c (heap w)) w)).
Proof. reflexivity. Qed.

(** C10. UNSUBSCRIBE_LOGS with 'all' takes only the wildcard out of the
    session's subscription set: every process id subscribed one by one
    stays.  A session that subscribed to process 7 and then unsubscribed
    from 'all' is, while it is in the set with an open socket that takes
    the send, still handed every log message of process 7, by
    [broadcastToSubscribers] and so by the translator's [handleLog]. *)
Theorem unsubscribe_all_keeps_ids (r : Relay) (c : SocketId)
    (s : ExtendedWebSocket) (t1 now1 t2 now2 : Z) :
  NoDup (clients (wsManager r)) ->
  c ∈ clients (wsManager r) ->
  heap (wsManager r) !! c = Some s ->
  accepts s = true ->
  let w1 := snd (handleMessage c (Some (subscribe_logs (Pid 7) t1)) now1
                   (wsManager r)) in
  let w2 := snd (handleMessage c (Some (unsubscribe_logs All t2)) now2 w1) in
  let s2 := with_subscriptions ((subscriptions s ∪ {[ Pid 7 ]}) ∖ {[ All ]}) s in
  heap w2 !! c = Some s2 /\
  clients w2 = clients (wsManager r) /\
  (All ∉ subscriptions s2) /\
  (Pid 7 ∈ subscriptions s2) /\
  (forall n, Pid n ∈ subscriptions s -> Pid n ∈ subscriptions s2) /\
  (forall m, heap (snd (broadcastToSubscribers 7 m w2)) !! c = Some (deliver m s2)) /\
  (forall packet type uuid now, lp_pm_id packet = 7 ->
     heap (wsManager (snd (handleLog packet type uuid now (set_ws w2 r)))) !! c
       = Some (deliver (log_message packet type uuid now) s2)).
Proof.
  intros Hnd Hin Hc Hacc w1 w2 s2.
  assert (heap w2 !! c = Some s2) as Hc2.
  { subst w2 w1. rewrite handleMessage_subscribe, handleMessage_unsubscribe.
    cbn. rewrite !lookup_alter_eq, Hc. done. }
  assert (clients w2 = clients (wsManager r)) as Hcl2 by done.
  assert (forall k, k ≠ All -> k ∈ subscriptions s ∪ {[ Pid 7 ]} ->
                    k ∈ subscriptions s2) as Hkeep.
  { intros k Hk Hks. cbn. apply elem_of_difference. split; [done |].
    by rewrite elem_of_singleton. }
  assert (Pid 7 ∈ subscriptions s2) as H7.
  { apply Hkeep; [done |]. apply elem_of_union. right.
    by apply elem_of_singleton. }
  assert (forall m, heap (snd (broadcastToSubscribers 7 m w2)) !! c
                    = Some (deliver m s2)) as Hdel.
  { intros m. rewrite <- Hcl2 in Hnd, Hin.
    destruct (broadcastToSubscribers_spec 7 m w2 Hnd) as (_ & _ & Hh & _).
    rewrite Hh, Hc2. destruct (decide _); [| done]. cbn.
    rewrite relayed_accept; [done | | done].
    unfold wants. rewrite (bool_decide_eq_true_2 _ H7). apply orb_true_r. }
  split; [done |]. split; [done |].
  split.
  { cbn. rewrite elem_of_difference, elem_of_singleton. by intros [_ []]. }
  split; [done |]. split.
  { intros n Hn. apply Hkeep; [done |]. apply elem_of_union. by left. }
  split; [done |].
  intros packet type uuid now Hp. rewrite handleLog_hub.
  cbn [wsManager snd set_ws]. rewrite Hp. apply Hdel.
Qed.

Lemma unsubscribe_all_keeps_ids_witness :
  heap (snd (broadcastToSubscribers 7 (sample_log 7)
               (snd (handleMessage 2%nat (Some (unsubscribe_logs All 2)) 2
                  (snd (handleMessage 2%nat (Some (subscribe_logs (Pid 7) 1)) 1
                          sample_hub)))))) !! 2%nat
    = Some (deliver (sample_log 7)
              (with_subscriptions (({[ All ]} ∪ {[ Pid 7 ]}) ∖ {[ All ]})
                 (open_socket {[ All ]}))).
Proof.
  assert (NoDup (clients (wsManager sample_relay))) as Hnd
    by (apply (bool_decide_unpack _); vm_compute; exact I).
  assert (2%nat ∈ clients (wsManager sample_relay)) as Hin
    by (apply (bool_decide_unpack _); vm_compute; exact I).
  assert (heap (wsManager sample_relay) !! 2%nat = Some (open_socket {[ All ]}))
    as Hc by reflexivity.
  exact (proj1 (proj2 (proj2 (proj2 (proj2 (proj2
    (unsubscribe_all_keeps_ids sample_relay 2%nat (open_socket {[ All ]})
       1 1 2 2 Hnd Hin Hc eq_refl)))))) (sample_log 7)).
Defined.

End ClientMessages.

(** ** Heartbeat *)

Section Heartbeat.

Import WebSocketManager Delivery HubSteps Samples.

Lemma Set_delete_elem (c x : SocketId) (cs : list SocketId) :
  x ∈ Set_delete c cs <-> x ∈ cs /\ x ≠ c.
Proof. unfold Set_delete. rewrite list_elem_of_filter. tauto. Qed.

Lemma Set_delete_NoDup (c : SocketId) (cs : list SocketId) :
  NoDup cs -> NoDup (Set_delete c cs).
Proof. apply NoDup_filter. Qed.

Lemma Set_add_elem (c x : SocketId) (cs : list SocketId) :
  x ∈ Set_add c cs <-> x ∈ cs \/ x = c.
Proof.
  unfold Set_add. destruct (decide (c ∈ cs)) as [Hin | Hout].
  - split; [tauto |]. intros [? | ->]; done.
  - rewrite elem_of_app, list_elem_of_singleton. tauto.
Qed.

Lemma Set_add_NoDup (c : SocketId) (cs : list SocketId) :
  NoDup cs -> NoDup (Set_add c cs).
Proof.
  intros Hnd. unfold Set_add. destruct (decide (c ∈ cs)) as [Hin | Hout]; [done |].
  apply NoDup_app. split; [done |]. split.
  - intros x Hx ->%list_elem_of_singleton. done.
  - apply NoDup_singleton.
Qed.

Lemma checkHeartbeat_one_spec (c : SocketId) (w : Hub) :
  fst (checkHeartbeat_one c w) = Returned tt /\
  heap (snd (checkHeartbeat_one c w)) !! c = beat <$> heap w !! c /\
  (forall c', c' ≠ c -> heap (snd (checkHeartbeat_one c w)) !! c' = heap w !! c') /\
  clients (snd (checkHeartbeat_one c w)) =
    (if unconfirmed w c then Set_delete c (clients w) else clients w).
Proof.
  unfold checkHeartbeat_one, unconfirmed, beat.
  destruct (heap w !! c) as [s |] eqn:Hc; [| by rewrite ?Hc].
  destruct (isAlive s) eqn:Ha; cbn.
  - rewrite !lookup_alter_eq, Hc. cbn. rewrite Ha.
    split; [done |]. split; [done |].
    split; [| done]. intros c' Hne. by rewrite !lookup_alter_ne.
  - rewrite !lookup_alter_eq, Hc. cbn. rewrite Ha.
    split; [done |]. split; [done |].
    split; [| done]. intros c' Hne. by rewrite !lookup_alter_ne.
Qed.

Lemma unconfirmed_ext (w w' : Hub) (c : SocketId) :
  heap w' !! c = heap w !! c -> unconfirmed w' c = unconfirmed w c.
Proof. unfold unconfirmed. by intros ->. Qed.

Lemma heartbeat_loop (l : list SocketId) (w : Hub) :
  NoDup l -> NoDup (clients w) ->
  fst (forEach l checkHeartbeat_one w) = Returned tt /\
  (forall c, heap (snd (forEach l checkHeartbeat_one w)) !! c =
               if decide (c ∈ l) then beat <$> heap w !! c else heap w !! c) /\
  (forall x, x ∈ clients (snd (forEach l checkHeartbeat_one w)) <->
               x ∈ clients w /\ ~ (x ∈ l /\ unconfirmed w x = true)) /\
  NoDup (clients (snd (forEach l checkHeartbeat_one w))).
Proof.
  revert w. induction l as [| c l IH]; intros w Hl Hnd.
  - cbn. split; [done |]. split; [done |]. split; [| done].
    intros x. split; [| tauto].
    intros Hx. split; [done |]. intros [Hx' _]. by apply elem_of_nil in Hx'.
  - apply NoDup_cons in Hl as [Hc Hl].
    destruct (checkHeartbeat_one_spec c w) as (Hr & Hself & Hoth & Hcl).
    cbn [forEach]. unfold bind.
    destruct (checkHeartbeat_one c w) as [o w1]. cbn in Hr, Hself, Hoth, Hcl.
    subst o.
    assert (NoDup (clients w1)) as Hnd1.
    { rewrite Hcl. destruct (unconfirmed w c); [by apply Set_delete_NoDup | done]. }
    destruct (IH w1 Hl Hnd1) as (Hr' & Hh' & Hcl' & Hnd').
    split; [done |]. split; [| split; [| done]].
    + intros c'. rewrite Hh'.
      destruct (decide (c' = c)) as [-> | Hne].
      * destruct (decide (c ∈ l)); [done |].
        destruct (decide (c ∈ c :: l)) as [_ | Hn]; [done |].
        destruct Hn. apply list_elem_of_here.
      * rewrite (Hoth c' Hne).
        destruct (decide (c' ∈ l)) as [Hl' | Hl'],
                 (decide (c' ∈ c :: l)) as [Hcl2 | Hcl2]; try done.
        -- destruct Hcl2. by apply list_elem_of_further.
        -- apply elem_of_cons in Hcl2 as [? | ?]; done.
    + intros x. rewrite Hcl', Hcl, elem_of_cons.
      destruct (decide (x = c)) as [-> | Hne].
      * destruct (unconfirmed w c) eqn:Hu.
        -- rewrite Set_delete_elem. split; [tauto |].
           intros [_ Hn]. destruct Hn. by split; [left |].
        -- split.
           ++ intros [Hx _]. split; [done |]. intros [_ ?]. done.
           ++ intros [Hx _]. split; [done |]. intros [? _]. done.
      * rewrite (unconfirmed_ext w w1 x) by (by apply Hoth).
        destruct (unconfirmed w c).
        -- rewrite Set_delete_elem. tauto.
        -- tauto.
Qed.

Lemma checkHeartbeat_spec (w : Hub) :
  NoDup (clients w) ->
  fst (checkHeartbeat w) = Returned tt /\
  (forall c, heap (snd (checkHeartbeat w)) !! c =
               if decide (c ∈ clients w) then beat <$> heap w !! c
               else heap w !! c) /\
  (forall x, x ∈ clients (snd (checkHeartbeat w)) <->
               x ∈ clients w /\ unconfirmed w x = false) /\
  NoDup (clients (snd (checkHeartbeat w))).
Proof.
  intros Hnd. unfold checkHeartbeat.
  destruct (heartbeat_loop (clients w) w Hnd Hnd) as (Hr & Hh & Hcl & Hnd').
  split; [done |]. split; [done |]. split; [| done].
  intros x. rewrite Hcl. destruct (unconfirmed w x); split.
  - intros [Hx Hn]. destruct Hn. done.
  - intros [_ ?]. done.
  - tauto.
  - intros [Hx _]. split; [done |]. intros [_ ?]. done.
Qed.

Lemma sendToClient_visit (c : SocketId) (m : WSMessage) (w : Hub) :
  sendToClient c m w = visit everyone m c w.
Proof. unfold visit, everyone, sendToClient. by destruct (heap w !! c). Qed.

Lemma relayed_isAlive (P : ExtendedWebSocket -> bool) (m : WSMessage)
    (s : ExtendedWebSocket) :
  isAlive (relayed P m s) = isAlive s.
Proof. unfold relayed. by destruct (P s && accepts s). Qed.

Lemma sendToClient_liveness (c : SocketId) (m : WSMessage) (w : Hub) (x : SocketId) :
  clients (snd (sendToClient c m w)) = clients w /\
  liveness (snd (sendToClient c m w)) x = liveness w x.
Proof.
  rewrite sendToClient_visit.
  destruct (visit_one everyone m c w) as (_ & Hcl & Hself & Hoth & _).
  split; [done |]. unfold liveness.
  destruct (decide (x = c)) as [-> | Hne].
  - rewrite Hself. destruct (heap w !! c); [| done]. cbn.
    by rewrite relayed_isAlive.
  - by rewrite Hoth.
Qed.

Lemma fanout_liveness (P : ExtendedWebSocket -> bool) (m : WSMessage) (w : Hub)
    (x : SocketId) :
  NoDup (clients w) ->
  liveness (snd (forEach (clients w) (visit P m) w)) x = liveness w x.
Proof.
  intros Hnd.
  destruct (fanout_spec P m (clients w) w Hnd) as (_ & _ & Hh & _).
  unfold liveness. rewrite Hh. destruct (decide _); [| done].
  destruct (heap w !! x); [| done]. cbn. by rewrite relayed_isAlive.
Qed.

Lemma alter_liveness (f : ExtendedWebSocket -> ExtendedWebSocket)
    (c x : SocketId) (w : Hub) :
  (forall s, isAlive (f s) = isAlive s) ->
  liveness (set_heap (alter f c (heap w)) w) x = liveness w x.
Proof.
  intros Hf. unfold liveness. cbn.
  destruct (decide (c = x)) as [-> | Hne].
  - rewrite lookup_alter_eq. destruct (heap w !! x); [| done]. cbn.
    by rewrite Hf.
  - by rewrite lookup_alter_ne.
Qed.

Lemma handleMessage_liveness (c : SocketId) (parsed : option WSMessage)
    (now : Z) (w : Hub) (x : SocketId) :
  clients (snd (handleMessage c parsed now w)) = clients w /\
  liveness (snd (handleMessage c parsed now w)) x = liveness w x.
Proof.
  destruct parsed as [[b t] |].
  - destruct b; try (split; reflexivity).
    + split; [reflexivity |].
      apply (alter_liveness
        (fun s => with_subscriptions (subscriptions s ∪ {[ processId ]}) s)).
      done.
    + split; [reflexivity |].
      apply (alter_liveness
        (fun s => with_subscriptions (subscriptions s ∖ {[ processId ]}) s)).
      done.
  - unfold handleMessage, try_catch, throw, bind, log, modify.
    cbn -[sendToClient].
    match goal with
    | |- context [sendToClient c ?m ?w'] =>
        destruct (sendToClient_liveness c m w' x) as [Hcl Hlv];
        destruct (sendToClient c m w') as [o w'']
    end.
    cbn in *. by split.
Qed.

Lemma awaiting_keep (c : SocketId) (w w' : Hub) :
  NoDup (clients w') ->
  (c ∈ clients w' -> c ∈ clients w) ->
  (c ∈ clients w' -> liveness w' c = liveness w c) ->
  awaiting_pong c w -> awaiting_pong c w'.
Proof.
  intros Hnd Hin Hlv [_ Hw]. split; [done |].
  intros Hc. rewrite Hlv by done. by apply Hw, Hin.
Qed.

(** Whatever else happens to the hub, a pinged socket that does not
    answer stays marked. *)
Lemma quiet_step (c : SocketId) (e : HubEvent) (w : Hub) :
  quiet_event c e = true ->
  awaiting_pong c w -> awaiting_pong c (hub_step e w).
Proof.
  intros Hq Hw. pose proof Hw as [Hnd _].
  destruct e as [c' s now | c' | c' parsed now | c' | c' | | m | p m | c' r f];
    unfold hub_step; cbn [handler].
  - (* connection *)
    apply bool_decide_eq_true in Hq.
    unfold handleConnection, bind, log, modify. cbn -[sendToClient].
    match goal with
    | |- context [sendToClient c' ?m ?w'] =>
        destruct (sendToClient_liveness c' m w' c) as [Hcl Hlv];
        destruct (sendToClient c' m w') as [o w'']
    end.
    cbn in Hcl, Hlv. refine (awaiting_keep c w _ _ _ _ Hw); cbn [snd].
    + rewrite Hcl. by apply Set_add_NoDup.
    + rewrite Hcl, Set_add_elem. intros [? | ?]; [done | congruence].
    + intros _. rewrite Hlv. unfold liveness. cbn.
      by rewrite lookup_insert_ne.
  - (* pong of another socket *)
    apply bool_decide_eq_true in Hq.
    refine (awaiting_keep c w _ _ _ _ Hw); [done | done |].
    intros _. unfold liveness. cbn. by rewrite lookup_alter_ne.
  - (* client message *)
    destruct (handleMessage_liveness c' parsed now w c) as [Hcl Hlv].
    refine (awaiting_keep c w _ _ _ _ Hw); by rewrite ?Hcl.
  - (* close *)
    refine (awaiting_keep c w _ _ _ _ Hw); cbn -[Set_delete].
    + by apply Set_delete_NoDup.
    + rewrite Set_delete_elem. tauto.
    + done.
  - (* error *)
    refine (awaiting_keep c w _ _ _ _ Hw); cbn -[Set_delete].
    + by apply Set_delete_NoDup.
    + rewrite Set_delete_elem. tauto.
    + done.
  - (* heartbeat *)
    destruct (checkHeartbeat_spec w Hnd) as (_ & Hh & Hcl & Hnd').
    destruct Hw as [_ Hw]. split; [done |].
    intros Hc. apply Hcl in Hc as [Hc Hu].
    specialize (Hw Hc). unfold liveness, unconfirmed in *.
    destruct (heap w !! c) as [s |]; [| done].
    cbn in Hw. destruct (isAlive s); done.
  - (* broadcast *)
    rewrite broadcast_visit.
    destruct (fanout_total everyone m (clients w) w) as [_ Hcl].
    refine (awaiting_keep c w _ _ _ _ Hw); rewrite ?Hcl; [done | done |].
    intros _. by apply fanout_liveness.
  - (* broadcast to subscribers *)
    rewrite broadcastToSubscribers_visit.
    destruct (fanout_total (wants p) m (clients w) w) as [_ Hcl].
    refine (awaiting_keep c w _ _ _ _ Hw); rewrite ?Hcl; [done | done |].
    intros _. by apply fanout_liveness.
  - (* transport change *)
    refine (awaiting_keep c w _ _ _ _ Hw); [done | done |].
    intros _. by apply (alter_liveness (with_transport r f)).
Qed.

Lemma quiet_run (c : SocketId) (es : list HubEvent) (w : Hub) :
  quiet c es = true ->
  awaiting_pong c w -> awaiting_pong c (hub_run es w).
Proof.
  revert w. induction es as [| e es IH]; intros w Hq Hw; [done |].
  cbn in Hq. apply andb_true_iff in Hq as [He Hes].
  cbn. apply IH; [done |]. by apply quiet_step.
Qed.

Lemma hub_run_ticks (es : list HubEvent) (w : Hub) :
  hub_run (EvHeartbeat :: es ++ [EvHeartbeat]) w =
    snd (checkHeartbeat (hub_run es (snd (checkHeartbeat w)))).
Proof. unfold hub_run. cbn [foldl]. by rewrite foldl_app. Qed.

Lemma tick_awaits (c : SocketId) (s : ExtendedWebSocket) (w : Hub) :
  NoDup (clients w) -> heap w !! c = Some s ->
  awaiting_pong c (snd (checkHeartbeat w)).
Proof.
  intros Hnd Hs. destruct (checkHeartbeat_spec w Hnd) as (_ & Hh & Hcl & Hnd').
  split; [done |]. intros Hc. apply Hcl in Hc as [Hc Hu].
  unfold liveness, unconfirmed in *. rewrite Hh.
  destruct (decide _); [| done].
  rewrite Hs in *. cbn. unfold beat.
  by destruct (isAlive s).
Qed.

Lemma tick_evicts (c : SocketId) (w : Hub) :
  awaiting_pong c w -> c ∉ clients (snd (checkHeartbeat w)).
Proof.
  intros [Hnd Hw] Hc.
  destruct (checkHeartbeat_spec w Hnd) as (_ & _ & Hcl & _).
  apply Hcl in Hc as [Hc Hu]. specialize (Hw Hc).
  unfold liveness, unconfirmed in *.
  destruct (heap w !! c) as [s |]; [| done].
  cbn in Hw. by destruct (isAlive s).
Qed.

(** C8. One tick of the heartbeat marks a confirmed session of the set
    unconfirmed and pings it; a pong marks a session confirmed; a
    session that is unconfirmed when the tick comes is terminated and
    taken out of the set.  So a session that lets one tick pass into
    the next without a pong, whatever else the hub does in between, is
    out of the set after the second tick, and a broadcast right after
    returns normally, reaches every remaining session whose socket is
    open and takes the send, and touches no socket outside the set. *)
Theorem heartbeat_evicts_silent_sessions (w : Hub) (c : SocketId)
    (s : ExtendedWebSocket) (es : list HubEvent) (m : WSMessage) :
  NoDup (clients w) ->
  c ∈ clients w ->
  heap w !! c = Some s ->
  (isAlive s = true ->
     heap (snd (checkHeartbeat w)) !! c
       = Some (with_pings (S (pings s)) (with_isAlive false s)) /\
     c ∈ clients (snd (checkHeartbeat w))) /\
  heap (snd (on_pong c w)) !! c = Some (with_isAlive true s) /\
  (isAlive s = false ->
     heap (snd (checkHeartbeat w)) !! c = Some (dropped s) /\
     c ∉ clients (snd (checkHeartbeat w))) /\
  (quiet c es = true ->
     let w2 := hub_run (EvHeartbeat :: es ++ [EvHeartbeat]) w in
     (c ∉ clients w2) /\
     isolated everyone m w2 (broadcast m w2) /\
     (forall x, x ∉ clients w2 -> heap (snd (broadcast m w2)) !! x = heap w2 !! x)).
Proof.
  intros Hnd Hin Hc.
  destruct (checkHeartbeat_spec w Hnd) as (_ & Hh & Hcl & Hnd1).
  assert (heap (snd (checkHeartbeat w)) !! c = Some (beat s)) as Hbeat.
  { rewrite Hh, Hc. by destruct (decide _). }
  split; [| split; [| split]].
  - intros Ha. unfold beat in Hbeat. rewrite Ha in Hbeat. split; [done |].
    apply Hcl. split; [done |]. unfold unconfirmed. by rewrite Hc, Ha.
  - cbn. by rewrite lookup_alter_eq, Hc.
  - intros Ha. unfold beat in Hbeat. rewrite Ha in Hbeat. split; [done |].
    intros [_ Hu]%Hcl. unfold unconfirmed in Hu. by rewrite Hc, Ha in Hu.
  - intros Hq w2. subst w2. rewrite hub_run_ticks.
    pose proof (quiet_run c es _ Hq (tick_awaits c s w Hnd Hc)) as Hw.
    pose proof Hw as [Hnd' _].
    destruct (checkHeartbeat_spec _ Hnd') as (_ & _ & _ & Hnd2).
    split; [by apply tick_evicts |]. split.
    + rewrite broadcast_visit. by apply fanout_isolated.
    + intros x Hx.
      destruct (broadcast_spec m _ Hnd2) as (_ & _ & Hh2 & _).
      rewrite Hh2. by destruct (decide _).
Qed.

Lemma heartbeat_evicts_silent_sessions_witness :
  0%nat ∉ clients
    (hub_run (EvHeartbeat :: [EvBroadcast sample_message; EvPong 2%nat]
                ++ [EvHeartbeat]) sample_hub).
Proof.
  assert (NoDup (clients sample_hub)) as Hnd
    by (apply (bool_decide_unpack _); vm_compute; exact I).
  assert (0%nat ∈ clients sample_hub) as Hin
    by (apply (bool_decide_unpack _); vm_compute; exact I).
  assert (heap sample_hub !! 0%nat = Some (open_socket {[ Pid 7 ]})) as Hc
    by reflexivity.
  exact (proj1 (proj2 (proj2 (proj2
    (heartbeat_evicts_silent_sessions sample_hub 0%nat (open_socket {[ Pid 7 ]})
       [EvBroadcast sample_message; EvPong 2%nat] sample_message Hnd Hin Hc)))
    eq_refl)).
Defined.

End Heartbeat.

(** ** The connection supervisor *)

Section Supervisor.

Import PM2Client SupervisorSpec.

Lemma invariant_initial : invariant initial.
Proof. unfold invariant. cbn. repeat split; done. Qed.

Lemma invariant_step (a : Action) (w : Supervisor) :
  enabled a w = true -> invariant w -> invariant (act a w).
Proof.
  intros Hen (Hfl & Hcc & Hat & Hmax & Hbase & Hcap).
  destruct w as [[cd cg ra mx rd mrd] n sl dc jl]. cbn in *. subst mx rd mrd.
  unfold invariant.
  destruct a as [| | | | | e]; cbn.
  - destruct cd, cg; cbn; repeat split; try done; try lia.
  - destruct cd, cg; cbn; repeat split; try done; try lia.
  - destruct cd, cg; cbn; repeat split; try done; try lia.
  - unfold reconnect. cbn.
    destruct (Z.geb_spec ra 10); cbn; [repeat split; try done; lia |].
    destruct cd, cg; cbn; repeat split; try done; try lia.
  - unfold reconnect_resume. cbn. destruct sl as [| d sl]; cbn.
    + repeat split; try done; lia.
    + destruct cd, cg; cbn; repeat split; try done; try lia.
  - apply bool_decide_eq_true in Hen.
    destruct cg; [| done]. subst n.
    destruct e; cbn; repeat split; try done; try lia.
Qed.

Lemma reachable_invariant (w : Supervisor) : reachable w -> invariant w.
Proof.
  induction 1 as [| w a _ IH Hen]; [apply invariant_initial |].
  by apply invariant_step.
Qed.

(** C3 (as the code has it). In every reachable state at most one
    [pm2.connect] is in flight.  A [connect] or [ensureConnected] issued
    while the supervisor is connecting starts nothing and returns at
    once, without waiting for the attempt in flight.  So a successful
    return of [ensureConnected] finds the supervisor connected or still
    connecting; the call that started the attempt is pending until the
    daemon answers and, on an answer without error, ends connected. *)
Theorem single_connection_attempt (w : Supervisor) :
  reachable w ->
  (inFlight w <= 1)%nat /\
  (connecting (client w) = true ->
     (exists w', connect w = (Returned Fulfilled, w') /\
                 client w' = client w /\ inFlight w' = inFlight w) /\
     (exists w', ensureConnected w = (Returned Fulfilled, w') /\
                 client w' = client w /\ inFlight w' = inFlight w)) /\
  (forall w', ensureConnected w = (Returned Fulfilled, w') ->
     connected (client w') = true \/ connecting (client w') = true) /\
  (forall w', ensureConnected w = (Returned Pending, w') ->
     inFlight w = 0%nat /\ inFlight w' = 1%nat /\
     connecting (client w') = true /\
     fst (connect_callback None w') = Returned tt /\
     connected (client (snd (connect_callback None w'))) = true /\
     inFlight (snd (connect_callback None w')) = 0%nat) /\
  (forall e w', ensureConnected w ≠ (Thrown e, w')).
Proof.
  intros (Hfl & Hcc & _)%reachable_invariant.
  destruct w as [[cd cg ra mx rd mrd] n sl dc jl]. cbn in *.
  split; [destruct cg; lia |]. split; [| split; [| split]].
  - intros ->. specialize (Hcc). destruct cd; [by specialize (Hcc eq_refl) |].
    split; eexists; cbn; done.
  - intros w'. destruct cd, cg; cbn; intros [= <-]; cbn; auto.
  - intros w'. destruct cd, cg; cbn; intros [= <-]; cbn. by subst n.
  - intros e w'. destruct cd, cg; cbn; done.
Qed.

Lemma single_connection_attempt_witness :
  (inFlight first_attempt <= 1)%nat /\
  exists w', ensureConnected first_attempt = (Returned Fulfilled, w') /\
             client w' = client first_attempt /\
             inFlight w' = inFlight first_attempt.
Proof.
  assert (reachable first_attempt) as Hr
    by (apply (reach_step initial CallConnect reach_initial); reflexivity).
  destruct (single_connection_attempt first_attempt Hr) as (H1 & H2 & _).
  split; [exact H1 |]. exact (proj2 (H2 eq_refl)).
Defined.

(** C3 as worded fails: while the first attempt is in flight,
    [ensureConnected] returns successfully and the supervisor is not
    connected. *)
Lemma ensureConnected_while_connecting :
  reachable first_attempt /\ ~ ensureConnected_ensures first_attempt.
Proof.
  split.
  - apply (reach_step initial CallConnect reach_initial). reflexivity.
  - intros H. specialize (H _ eq_refl). discriminate H.
Qed.

Lemma spec_delay_mono (base cap a b : Z) :
  0 <= base -> 0 <= a <= b -> spec_delay base cap a <= spec_delay base cap b.
Proof.
  intros Hbase Hab. unfold spec_delay.
  apply Z.min_le_compat_r, Z.mul_le_mono_nonneg_l; [done |].
  apply Z.pow_le_mono_r; lia.
Qed.

Lemma reconnect_gives_up (w : Supervisor) :
  maxReconnectAttempts (client w) <= reconnectAttempts (client w) <->
  exists msg, reconnect w = (Thrown (ConnectionError msg), w).
Proof.
  unfold reconnect.
  destruct (Z.geb_spec (reconnectAttempts (client w))
              (maxReconnectAttempts (client w))) as [Hge | Hlt].
  - split; [eauto | lia].
  - split; [lia |]. intros [msg H]. revert H.
    unfold bind, this, modify, log, disconnect. cbn.
    destruct (negb (connected (client w))); cbn; discriminate.
Qed.

Lemma reconnect_delay (w : Supervisor) :
  reconnectAttempts (client w) < maxReconnectAttempts (client w) ->
  fst (reconnect w)
    = Returned (spec_delay (reconnectDelay (client w))
                  (maxReconnectDelay (client w)) (reconnectAttempts (client w))) /\
  reconnectAttempts (client (snd (reconnect w)))
    = reconnectAttempts (client w) + 1 /\
  connected (client (snd (reconnect w))) = false.
Proof.
  intros Hlt. unfold reconnect, spec_delay.
  destruct (Z.geb_spec (reconnectAttempts (client w))
              (maxReconnectAttempts (client w))) as [Hge | _]; [lia |].
  destruct w as [[cd cg ra mx rd mrd] n sl dc jl]. cbn in *.
  replace (ra + 1 - 1) with ra by lia.
  destruct cd; cbn; done.
Qed.

(** C6 (as the code has it). With [attempt] the number of reconnects
    made since the last successful connection, [reconnect] sleeps for
    [min (reconnectDelay * 2 ^ attempt) maxReconnectDelay] and counts the
    attempt; that delay never decreases from one attempt to the next; a
    successful connection sets the counter back to zero, so that the
    next delay is the base delay; and [reconnect] fails with a
    ConnectionError exactly when the counter has reached the ceiling
    (counter >= maxReconnectAttempts, 10 by default). *)
Theorem reconnect_backoff (w : Supervisor) :
  0 <= reconnectAttempts (client w) ->
  0 <= reconnectDelay (client w) ->
  let base := reconnectDelay (client w) in
  let cap := maxReconnectDelay (client w) in
  (reconnectAttempts (client w) < maxReconnectAttempts (client w) ->
     fst (reconnect w) = Returned (spec_delay base cap (reconnectAttempts (client w))) /\
     reconnectAttempts (client (snd (reconnect w)))
       = reconnectAttempts (client w) + 1) /\
  (forall a b, 0 <= a <= b -> spec_delay base cap a <= spec_delay base cap b) /\
  (fst (connect_callback None w) = Returned tt /\
   reconnectAttempts (client (snd (connect_callback None w))) = 0 /\
   (0 < maxReconnectAttempts (client w) ->
      fst (reconnect (snd (connect_callback None w)))
        = Returned (Z.min base cap))) /\
  (maxReconnectAttempts (client w) <= reconnectAttempts (client w) <->
     exists msg, reconnect w = (Thrown (ConnectionError msg), w)) /\
  (reconnectDelay (client initial) = 1000 /\
   maxReconnectDelay (client initial) = 30000 /\
   maxReconnectAttempts (client initial) = 10).
Proof.
  intros Hat Hbase base cap.
  split; [| split; [| split; [| split]]].
  - intros Hlt. destruct (reconnect_delay w Hlt) as (H1 & H2 & _). done.
  - intros a b Hab. by apply spec_delay_mono.
  - split; [done |]. split; [done |]. intros Hmax.
    destruct (reconnect_delay (snd (connect_callback None w))) as (H1 & _).
    { cbn. lia. }
    rewrite H1. cbn. unfold spec_delay. subst base cap. do 2 f_equal. lia.
  - apply reconnect_gives_up.
  - done.
Qed.

Lemma reconnect_backoff_witness :
  fst (reconnect initial) = Returned 1000 /\
  fst (reconnect (snd (reconnect initial))) = Returned 2000 /\
  fst (reconnect (snd (connect_callback None (snd (reconnect initial)))))
    = Returned 1000.
Proof.
  assert (0 <= reconnectAttempts (client initial)) as H0 by (cbn; lia).
  assert (0 <= reconnectDelay (client initial)) as H1 by (cbn; lia).
  assert (0 <= reconnectAttempts (client (snd (reconnect initial)))) as H2
    by (cbn; lia).
  assert (0 <= reconnectDelay (client (snd (reconnect initial)))) as H3
    by (cbn; lia).
  split; [| split].
  - apply (proj1 (reconnect_backoff initial H0 H1)). cbn. lia.
  - apply (proj1 (reconnect_backoff (snd (reconnect initial)) H2 H3)). cbn. lia.
  - apply (proj2 (proj2 (proj1 (proj2 (proj2
      (reconnect_backoff (snd (reconnect initial)) H2 H3)))))). cbn. lia.
Defined.

Lemma reachable_iter (n : nat) :
  reachable (Nat.iter n (act CallReconnect) initial).
Proof.
  induction n as [| n IH]; [apply reach_initial |].
  cbn [Nat.iter]. by apply reach_step.
Qed.

(** C6 as worded fails: after ten reconnects the counter equals the
    ceiling, it does not exceed it, and [reconnect] fails. *)
Lemma reconnect_fails_at_ceiling :
  reachable exhausted /\
  reconnectAttempts (client exhausted) = maxReconnectAttempts (client exhausted) /\
  ~ fails_only_beyond_ceiling exhausted.
Proof.
  split; [apply reachable_iter |]. split; [reflexivity |].
  intros H. specialize (H _ _ eq_refl). vm_compute in H. discriminate H.
Qed.

End Supervisor.

(** ** Lifecycle events and the process-list refresh *)

Section Refresh.

Import WebSocketManager PM2EventBus Delivery Wire Samples TranslatorSpec.

Lemma lifecycle_burst_snoc l pn (r : Relay) :
  lifecycle_burst (l ++ [pn]) r
    = snd (on_process_event (fst pn) (snd pn) (lifecycle_burst l r)).
Proof. unfold lifecycle_burst. by rewrite foldl_app. Qed.

Lemma lifecycle_burst_listCalls l (r : Relay) :
  listCalls (lifecycle_burst l r) = (listCalls r + length l)%nat.
Proof.
  induction l as [| pn l IH] using rev_ind; [cbn; lia |].
  rewrite lifecycle_burst_snoc, on_process_event_eq, length_app. cbn. lia.
Qed.

(** C5 (as the code has it). On every lifecycle item the translator
    broadcasts a PROCESS_EVENT to every session whose socket is open and
    takes the send, whatever its subscriptions, and starts a
    [pm2API.list()] refresh at once, outside the 2000 ms interval.  It
    keeps no debounce state: each item of a burst starts a refresh of
    its own, whether or not one is already under way, so [n] items
    start [n] refreshes.  A refresh that settles with a list is
    broadcast as PROCESS_LIST_UPDATE. *)
Theorem lifecycle_event_refreshes (r : Relay)
    (packet : PM2ProcessEventPacket) (now : Z) :
  NoDup (clients (wsManager r)) ->
  let r' := snd (on_process_event packet now r) in
  fst (on_process_event packet now r) = Returned tt /\
  clients (wsManager r') = clients (wsManager r) /\
  (forall c s, c ∈ clients (wsManager r) -> heap (wsManager r) !! c = Some s ->
     accepts s = true ->
     heap (wsManager r') !! c = Some (deliver (process_event_message packet now) s)) /\
  listCalls r' = S (listCalls r) /\
  pm2EventBus r' = pm2EventBus r /\
  (forall l, listCalls (lifecycle_burst l r) = (listCalls r + length l)%nat) /\
  (forall ps t c s, c ∈ clients (wsManager r) -> heap (wsManager r) !! c = Some s ->
     accepts s = true ->
     heap (wsManager (snd (broadcastProcessList_settled (Returned ps) t r))) !! c
       = Some (deliver (process_list_message ps t) s)).
Proof.
  intros Hnd r'. subst r'. rewrite on_process_event_eq. cbn [fst snd wsManager
    listCalls pm2EventBus].
  assert (forall m w c s, heap w = heap (wsManager r) ->
            clients w = clients (wsManager r) ->
            c ∈ clients (wsManager r) -> heap (wsManager r) !! c = Some s ->
            accepts s = true ->
            heap (snd (broadcast m w)) !! c = Some (deliver m s)) as H.
  { intros m w c s Hh Hcl Hin Hc Hacc. rewrite <- Hcl in Hnd, Hin.
    destruct (broadcast_spec m w Hnd) as (_ & _ & Hh' & _).
    rewrite Hh', Hh, Hc. cbn. rewrite relayed_accept by done.
    by destruct (decide _). }
  split; [done |]. split.
  { by destruct (broadcast_total (process_event_message packet now)
                   (with_line process_event_line (wsManager r))) as [_ ->]. }
  split; [intros c s; by apply H |]. split; [done |]. split; [done |].
  split; [intros l; apply lifecycle_burst_listCalls |].
  intros ps t c s. rewrite broadcastProcessList_settled_ok.
  cbn [snd wsManager]. by apply H.
Qed.

Lemma lifecycle_event_refreshes_witness :
  listCalls (lifecycle_burst [(sample_event, 1); (sample_event, 1)] polling_relay)
    = 3%nat.
Proof.
  assert (NoDup (clients (wsManager polling_relay))) as Hnd
    by (apply (bool_decide_unpack _); vm_compute; exact I).
  exact (proj1 (proj2 (proj2 (proj2 (proj2 (proj2
    (lifecycle_event_refreshes polling_relay sample_event 1 Hnd))))))
    [(sample_event, 1); (sample_event, 1)]).
Defined.

(** C5 as worded fails: with a refresh already under way, one more
    lifecycle item starts another one. *)
Lemma lifecycle_burst_not_debounced : ~ burst_is_noop polling_relay.
Proof.
  intros H. specialize (H sample_event 1).
  rewrite on_process_event_eq in H. cbn in H.
  assert (1%nat ≠ 0%nat) as Hne by done. specialize (H Hne). discriminate H.
Qed.

End Refresh.

(** ** Reading the log buffer *)

Section RecentLogs.

Import PM2EventBus TranslatorSpec.

Lemma slice_zero {A} (l : list A) : JSArray.slice l (- 0) = l.
Proof.
  unfold JSArray.slice, JSArray.len.
  change (- 0 <? 0) with false. cbv iota.
  replace (Z.to_nat (Z.min (- 0) (Z.of_nat (length l)))) with 0%nat by lia. done.
Qed.

(** For a positive limit [getRecentLogs] does what C7 says: the last
    [limit] matching entries, in arrival order, none of another
    process. *)
Lemma getRecentLogs_positive (processId : option Z) (limit : Z) (b : PM2EventBus) :
  0 < limit ->
  getRecentLogs processId (Some limit) b = most_recent limit (matching processId b) /\
  JSArray.len (getRecentLogs processId (Some limit) b) <= limit /\
  getRecentLogs processId (Some limit) b `sublist_of` logBuffer b /\
  (forall p e, processId = Some p -> e ∈ getRecentLogs processId (Some limit) b ->
               le_processId e = p).
Proof.
  intros Hlim.
  assert (getRecentLogs processId (Some limit) b
          = most_recent limit (matching processId b)) as Heq.
  { unfold getRecentLogs, matching, JSArray.slice, most_recent, JSArray.len. cbn.
    destruct (Z.ltb_spec (- limit) 0) as [_ | ?]; [| lia].
    f_equal. lia. }
  rewrite Heq. split; [done |]. split; [apply most_recent_length; lia |].
  assert (most_recent limit (matching processId b) `sublist_of` matching processId b)
    as Hsub by apply sublist_drop.
  split.
  - etrans; [exact Hsub |]. unfold matching.
    destruct processId; [apply sublist_filter | done].
  - intros p e -> He. apply (elem_of_sublist _ _ _ He) in Hsub as He'.
    cbn in He'. rename He' into He0. clear He. rename He0 into He. by apply list_elem_of_filter in He as [? _].
Qed.

(** C7 at the limit 0: [slice(-0)] is [slice(0)], so the whole selection
    comes back and not at most 0 entries; and at a negative limit [-k]
    the call is [slice(k)], which drops the [k] oldest entries and
    returns the rest. *)
Theorem getRecentLogs_limit_zero (processId : option Z) (b : PM2EventBus) :
  getRecentLogs processId (Some 0) b = matching processId b /\
  getRecentLogs None (Some 0) sample_bus = logBuffer sample_bus /\
  JSArray.len (getRecentLogs None (Some 0) sample_bus) = 3 /\
  getRecentLogs None (Some (-1)) sample_bus = tail (logBuffer sample_bus).
Proof.
  split; [| split; [| split]; reflexivity].
  unfold getRecentLogs, matching. cbn [default]. by rewrite slice_zero.
Qed.

End RecentLogs.

(** ** The browser side *)

Section ClientState.

Import Frontend Wire.

(** C9. Applying the same PROCESS_LIST_UPDATE twice leaves the client
    state that applying it once leaves: the process list is replaced by
    the payload, not merged with what was there. *)
Theorem snapshot_idempotent (ps : list PM2Process) (t : Z) (st : ClientState) :
  handleMessage (process_list_message ps t)
      (handleMessage (process_list_message ps t) st)
    = handleMessage (process_list_message ps t) st /\
  processes (processStore (handleMessage (process_list_message ps t) st)) = ps /\
  logStore (handleMessage (process_list_message ps t) st) = logStore st.
Proof. by repeat split. Qed.

End ClientState.

(** * Further properties *)

(** ** Sessions of the hub *)

Section Sessions.

Import WebSocketManager PM2EventBus Delivery Wire HubSteps HubMore Samples.

(** X1. A connection under a new identity joins the end of the set,
    confirmed and subscribed to 'all'; it is greeted with
    CONNECTION_STATUS when its socket is open and takes the send; no
    other socket is touched; and from then on the log messages of every
    process reach it. *)
Theorem new_session_defaults (w : Hub) (c : SocketId) (s : ExtendedWebSocket)
    (now : Z) :
  NoDup (clients w) ->
  c ∉ clients w ->
  let w' := snd (handleConnection c s now w) in
  let s0 := with_subscriptions {[ All ]} (with_isAlive true s) in
  fst (handleConnection c s now w) = Returned tt /\
  clients w' = clients w ++ [c] /\
  getClientCount w' = S (getClientCount w) /\
  heap w' !! c = Some (if accepts s then deliver (connection_status now) s0 else s0) /\
  (forall x, x ≠ c -> heap w' !! x = heap w !! x) /\
  (forall p m, accepts s = true ->
     heap (snd (broadcastToSubscribers p m w')) !! c
       = Some (deliver m (deliver (connection_status now) s0))).
Proof.
  intros Hnd Hc w' s0.
  assert (handleConnection c s now w =
          sendToClient c (connection_status now)
            (with_line {| level := LInfo; text := "WebSocket client connected" |}
               (set_clients (clients w ++ [c])
                  (set_heap (<[c := s0]> (heap w)) w)))) as Heq.
  { unfold handleConnection, bind, modify, log. cbn -[sendToClient].
    unfold Set_add. by destruct (decide (c ∈ clients w)). }
  subst w'. rewrite Heq, sendToClient_visit.
  match goal with |- context [visit everyone ?m c ?w3] =>
    destruct (visit_one everyone m c w3) as (Hr & Hcl & Hself & Hoth & _);
    set (w4 := visit everyone m c w3) in *
  end.
  cbn in Hcl, Hself, Hoth. rewrite lookup_insert_eq in Hself. cbn in Hself.
  assert (heap (snd w4) !! c
          = Some (if accepts s then deliver (connection_status now) s0 else s0))
    as Hc4.
  { rewrite Hself. unfold relayed, everyone. cbn [andb].
    by change (accepts s0) with (accepts s). }
  split; [done |]. split; [done |].
  split; [unfold getClientCount; rewrite Hcl, length_app; cbn; lia |].
  split; [done |]. split.
  { intros x Hx. rewrite Hoth by done. by rewrite lookup_insert_ne. }
  intros p m Hacc.
  assert (NoDup (clients (snd w4))) as Hnd4.
  { rewrite Hcl. apply NoDup_app. split; [done |]. split.
    - intros x Hx ->%list_elem_of_singleton. done.
    - apply NoDup_singleton. }
  destruct (broadcastToSubscribers_spec p m (snd w4) Hnd4) as (_ & _ & Hh & _).
  rewrite Hh, Hc4, Hacc. rewrite Hcl.
  destruct (decide (c ∈ clients w ++ [c])) as [_ | Hn].
  - cbn. rewrite relayed_accept; [done | | done].
    unfold wants. cbn. rewrite bool_decide_eq_true_2; [done |].
    by apply elem_of_singleton.
  - destruct Hn. apply elem_of_app. right. by apply list_elem_of_singleton.
Qed.

(** X2. A frame that cannot be read is answered with an ERROR frame to
    the session it came from alone, when that socket is open and takes
    the send: the call returns normally, logs the failure, and leaves
    the set, every other socket and every subscription set as they
    were.  A readable frame of any other type than the two subscription
    messages changes no socket at all and sends nothing. *)
Theorem malformed_message_answered_privately (w : Hub) (c : SocketId) (now : Z) :
  let w' := snd (handleMessage c None now w) in
  fst (handleMessage c None now w) = Returned tt /\
  clients w' = clients w /\
  heap w' !! c = relayed everyone (invalid_format now) <$> heap w !! c /\
  (forall x, x ≠ c -> heap w' !! x = heap w !! x) /\
  (forall x, subscriptions <$> heap w' !! x = subscriptions <$> heap w !! x) /\
  parse_failure ∈ logger w' /\
  (forall m, other_type m = true ->
     fst (handleMessage c (Some m) now w) = Returned tt /\
     heap (snd (handleMessage c (Some m) now w)) = heap w /\
     clients (snd (handleMessage c (Some m) now w)) = clients w).
Proof.
  intros w'.
  assert (handleMessage c None now w =
          sendToClient c (invalid_format now) (with_line parse_failure w)) as Heq
    by reflexivity.
  subst w'. rewrite Heq, sendToClient_visit.
  destruct (visit_one everyone (invalid_format now) c (with_line parse_failure w))
    as (Hr & Hcl & Hself & Hoth & Hlog).
  cbn in Hcl, Hself, Hoth, Hlog.
  split; [done |]. split; [done |]. split; [done |]. split; [done |].
  split; [| split].
  - intros x. destruct (decide (x = c)) as [-> | Hne].
    + rewrite Hself. destruct (heap w !! c) as [s |]; [| done]. cbn.
      unfold relayed. by destruct (everyone s && accepts s).
    + by rewrite Hoth.
  - rewrite Hlog. apply elem_of_app. left. apply elem_of_app. right.
    apply list_elem_of_here.
  - intros [b t] Hm. destruct b; try discriminate Hm; done.
Qed.

Lemma with_subscriptions_same (s : ExtendedWebSocket) :
  with_subscriptions (subscriptions s) s = s.
Proof. by destruct s. Qed.

(** X3. SUBSCRIBE_LOGS [k] followed by UNSUBSCRIBE_LOGS [k] leaves the
    session's subscription set without [k] and otherwise as it was: when
    [k] was not subscribed before, the whole heap is back to what it
    was.  Subscribing to what is already subscribed changes nothing.
    Neither message touches another socket or the set. *)
Theorem subscribe_unsubscribe_roundtrip (w : Hub) (c : SocketId)
    (s : ExtendedWebSocket) (k : SubKey) (t1 now1 t2 now2 : Z) :
  heap w !! c = Some s ->
  let w1 := snd (handleMessage c (Some (subscribe_logs k t1)) now1 w) in
  let w2 := snd (handleMessage c (Some (unsubscribe_logs k t2)) now2 w1) in
  heap w1 !! c = Some (with_subscriptions (subscriptions s ∪ {[ k ]}) s) /\
  heap w2 !! c = Some (with_subscriptions (subscriptions s ∖ {[ k ]}) s) /\
  (k ∉ subscriptions s -> heap w2 = heap w) /\
  (k ∈ subscriptions s -> heap w1 = heap w) /\
  (forall x, x ≠ c -> heap w2 !! x = heap w !! x) /\
  clients w2 = clients w.
Proof.
  intros Hc w1 w2. subst w2 w1.
  rewrite handleMessage_subscribe. cbn [snd].
  rewrite handleMessage_unsubscribe. cbn [snd with_line set_heap heap clients].
  assert ((subscriptions s ∪ {[ k ]}) ∖ {[ k ]} = subscriptions s ∖ {[ k ]}) as Hset.
  { apply set_eq. intros x.
    rewrite !elem_of_difference, elem_of_union, elem_of_singleton. tauto. }
  assert (alter (fun s0 => with_subscriptions (subscriptions s0 ∖ {[ k ]}) s0) c
            (alter (fun s0 => with_subscriptions (subscriptions s0 ∪ {[ k ]}) s0) c
               (heap w)) !! c
          = Some (with_subscriptions (subscriptions s ∖ {[ k ]}) s)) as H2.
  { rewrite !lookup_alter_eq, Hc. cbn. by rewrite Hset. }
  split; [by rewrite lookup_alter_eq, Hc |]. split; [done |].
  split; [| split; [| split; [| done]]].
  - intros Hk. apply map_eq. intros x.
    destruct (decide (x = c)) as [-> | Hne].
    + rewrite H2, Hc. f_equal.
      replace (subscriptions s ∖ {[ k ]}) with (subscriptions s).
      * apply with_subscriptions_same.
      * apply set_eq. intros y. rewrite elem_of_difference, elem_of_singleton.
        split; [| tauto]. intros Hy. split; [done |]. by intros ->.
    + by rewrite !lookup_alter_ne.
  - intros Hk. apply map_eq. intros x.
    destruct (decide (x = c)) as [-> | Hne].
    + rewrite lookup_alter_eq, Hc. cbn. f_equal.
      replace (subscriptions s ∪ {[ k ]}) with (subscriptions s).
      * apply with_subscriptions_same.
      * apply set_eq. intros y. rewrite elem_of_union, elem_of_singleton.
        split; [tauto |]. intros [? | ->]; done.
    + by rewrite lookup_alter_ne.
  - intros x Hx. by rewrite !lookup_alter_ne.
Qed.

Lemma subscribe_unsubscribe_roundtrip_witness :
  heap (snd (handleMessage 0%nat (Some (unsubscribe_logs (Pid 3) 2)) 2
               (snd (handleMessage 0%nat (Some (subscribe_logs (Pid 3) 1)) 1
                       sample_hub))))
    = heap sample_hub.
Proof.
  assert (heap sample_hub !! 0%nat = Some (open_socket {[ Pid 7 ]})) as Hc
    by reflexivity.
  apply (proj1 (proj2 (proj2
    (subscribe_unsubscribe_roundtrip sample_hub 0%nat (open_socket {[ Pid 7 ]})
       (Pid 3) 1 1 2 2 Hc)))).
  apply (bool_decide_unpack _). vm_compute. exact I.
Defined.

Lemma new_session_defaults_witness :
  heap (snd (handleConnection 3%nat (open_socket ∅) 4 sample_hub)) !! 3%nat
    = Some (deliver (connection_status 4) (open_socket {[ All ]})).
Proof.
  assert (NoDup (clients sample_hub)) as Hnd
    by (apply (bool_decide_unpack _); vm_compute; exact I).
  assert (3%nat ∉ clients sample_hub) as Hc
    by (apply (bool_decide_unpack _); vm_compute; exact I).
  exact (proj1 (proj2 (proj2 (proj2
    (new_session_defaults sample_hub 3%nat (open_socket ∅) 4 Hnd Hc))))).
Defined.

(** X4. [broadcastToSubscribers p m] appends [m] to the outbox of
    exactly the sockets that are in the set, are subscribed to 'all' or
    to [p], are open and take the send; every other socket is left as it
    was, the set is unchanged and the call returns normally. *)
Theorem log_fanout_exact (w : Hub) (p : Z) (m : WSMessage) :
  NoDup (clients w) ->
  fst (broadcastToSubscribers p m w) = Returned tt /\
  clients (snd (broadcastToSubscribers p m w)) = clients w /\
  (forall c s, heap w !! c = Some s ->
     heap (snd (broadcastToSubscribers p m w)) !! c
       = Some (if bool_decide (c ∈ clients w) && wants p s && accepts s
               then deliver m s else s)) /\
  (forall c, heap w !! c = None ->
     heap (snd (broadcastToSubscribers p m w)) !! c = None).
Proof.
  intros Hnd.
  destruct (broadcastToSubscribers_spec p m w Hnd) as (Hr & Hcl & Hh & _).
  split; [done |]. split; [done |]. split.
  - intros c s Hc. rewrite Hh, Hc.
    destruct (decide (c ∈ clients w)) as [Hin | Hout].
    + by rewrite (bool_decide_eq_true_2 _ Hin).
    + by rewrite (bool_decide_eq_false_2 _ Hout).
  - intros c Hc. rewrite Hh, Hc. by destruct (decide _).
Qed.

Lemma log_fanout_exact_witness :
  heap (snd (broadcastToSubscribers 7 (sample_log 7) sample_hub)) !! 1%nat
    = Some (broken_socket {[ All ]}) /\
  heap (snd (broadcastToSubscribers 7 (sample_log 7) sample_hub)) !! 2%nat
    = Some (deliver (sample_log 7) (open_socket {[ All ]})).
Proof.
  assert (NoDup (clients sample_hub)) as Hnd
    by (apply (bool_decide_unpack _); vm_compute; exact I).
  destruct (log_fanout_exact sample_hub 7 (sample_log 7) Hnd) as (_ & _ & H & _).
  split.
  - exact (H 1%nat (broken_socket {[ All ]}) eq_refl).
  - exact (H 2%nat (open_socket {[ All ]}) eq_refl).
Defined.

Lemma ingest_hub (i : Ingestion) (r : Relay) :
  wsManager (ingest i r)
    = snd (broadcastToSubscribers (lp_pm_id (in_packet i)) (message_of i)
             (wsManager r)).
Proof. unfold ingest. by rewrite handleLog_hub. Qed.

Lemma asked_for_snoc (s : ExtendedWebSocket) (l : list Ingestion) (i : Ingestion) :
  asked_for s (l ++ [i])
    = asked_for s l ++ (if wants (lp_pm_id (in_packet i)) s then [i] else []).
Proof.
  unfold asked_for. rewrite filter_app. f_equal.
  destruct (wants (lp_pm_id (in_packet i)) s) eqn:Hw.
  - by rewrite filter_cons_True.
  - rewrite filter_cons_False; [done |]. by rewrite Hw.
Qed.

Lemma ingest_all_outbox (r : Relay) (c : SocketId)
    (s : ExtendedWebSocket) (l : list Ingestion) :
  NoDup (clients (wsManager r)) ->
  c ∈ clients (wsManager r) ->
  heap (wsManager r) !! c = Some s ->
  accepts s = true ->
  clients (wsManager (ingest_all l r)) = clients (wsManager r) /\
  heap (wsManager (ingest_all l r)) !! c
    = Some (with_outbox (outbox s ++ (message_of <$> asked_for s l)) s).
Proof.
  intros Hnd Hin Hc Hacc. induction l as [| i l [IHcl IHh]] using rev_ind.
  - split; [done |]. cbn. rewrite app_nil_r, Hc. by destruct s.
  - rewrite ingest_all_snoc, ingest_hub.
    rewrite <- IHcl in Hnd, Hin.
    destruct (broadcastToSubscribers_spec (lp_pm_id (in_packet i)) (message_of i)
                _ Hnd) as (_ & Hcl & Hh & _).
    split; [congruence |].
    rewrite Hh, IHh. destruct (decide _) as [_ | Hn]; [| done]. cbn.
    rewrite asked_for_snoc, fmap_app, app_assoc. unfold relayed.
    change (wants (lp_pm_id (in_packet i)) (with_outbox ?o s))
      with (wants (lp_pm_id (in_packet i)) s).
    change (accepts (with_outbox ?o s)) with (accepts s). rewrite Hacc.
    destruct (wants (lp_pm_id (in_packet i)) s); cbn; [done |].
    by rewrite app_nil_r.
Qed.

Lemma ingest_all_clients (r : Relay) (l : list Ingestion) :
  clients (wsManager (ingest_all l r)) = clients (wsManager r).
Proof.
  induction l as [| i l IH] using rev_ind; [done |].
  rewrite ingest_all_snoc, ingest_hub.
  by destruct (broadcastToSubscribers_total (lp_pm_id (in_packet i))
                 (message_of i) (wsManager (ingest_all l r))) as [_ ->].
Qed.

Lemma ingest_all_passes_by (r : Relay) (c : SocketId)
    (s : ExtendedWebSocket) (l : list Ingestion) :
  NoDup (clients (wsManager r)) ->
  heap (wsManager r) !! c = Some s ->
  c ∉ clients (wsManager r) \/ accepts s = false ->
  heap (wsManager (ingest_all l r)) !! c = Some s.
Proof.
  intros Hnd Hc Hout. induction l as [| i l IH] using rev_ind; [done |].
  rewrite ingest_all_snoc, ingest_hub.
  rewrite <- (ingest_all_clients r l) in Hnd.
  destruct (broadcastToSubscribers_spec (lp_pm_id (in_packet i)) (message_of i)
              _ Hnd) as (_ & _ & Hh & _).
  rewrite Hh, IH, ingest_all_clients.
  destruct (decide (c ∈ clients (wsManager r))) as [Hin | _]; [| done].
  destruct Hout as [? | Hacc]; [done |]. cbn. unfold relayed.
  by rewrite Hacc, andb_false_r.
Qed.

(** X5. Over any sequence of ingested log items, a session that is in
    the set with an open socket that takes the send receives exactly the
    log messages it is subscribed to, each once and in ingestion order;
    a socket that is outside the set, or is not open, or whose send
    raises, is left as it was; and ingestion never changes the set. *)
Theorem logs_delivered_in_order (r : Relay) (c : SocketId)
    (s : ExtendedWebSocket) (l : list Ingestion) :
  NoDup (clients (wsManager r)) ->
  heap (wsManager r) !! c = Some s ->
  clients (wsManager (ingest_all l r)) = clients (wsManager r) /\
  (c ∈ clients (wsManager r) -> accepts s = true ->
     heap (wsManager (ingest_all l r)) !! c
       = Some (with_outbox (outbox s ++ (message_of <$> asked_for s l)) s)) /\
  (c ∉ clients (wsManager r) \/ accepts s = false ->
     heap (wsManager (ingest_all l r)) !! c = Some s).
Proof.
  intros Hnd Hc. split; [apply ingest_all_clients |]. split.
  - intros Hin Hacc. by apply ingest_all_outbox.
  - intros Hout. by apply ingest_all_passes_by.
Qed.

Lemma logs_delivered_in_order_witness :
  outbox <$> heap (wsManager (ingest_all
      [sample_ingestion 7 "a" 10; sample_ingestion 8 "b" 11;
       sample_ingestion 7 "c" 12] sample_relay)) !! 0%nat
    = Some [message_of (sample_ingestion 7 "a" 10);
            message_of (sample_ingestion 7 "c" 12)].
Proof.
  assert (NoDup (clients (wsManager sample_relay))) as Hnd
    by (apply (bool_decide_unpack _); vm_compute; exact I).
  assert (0%nat ∈ clients (wsManager sample_relay)) as Hin
    by (apply (bool_decide_unpack _); vm_compute; exact I).
  assert (heap (wsManager sample_relay) !! 0%nat = Some (open_socket {[ Pid 7 ]}))
    as Hc by reflexivity.
  pose proof (proj1 (proj2 (logs_delivered_in_order sample_relay 0%nat
    (open_socket {[ Pid 7 ]})
    [sample_ingestion 7 "a" 10; sample_ingestion 8 "b" 11;
     sample_ingestion 7 "c" 12] Hnd Hc)) Hin eq_refl) as H.
  exact (f_equal (fmap outbox) H).
Defined.

Lemma answered_tick (w : Hub) (c : SocketId) (s : ExtendedWebSocket) :
  NoDup (clients w) -> c ∈ clients w -> heap w !! c = Some s ->
  isAlive s = true ->
  let w' := hub_step (EvPong c) (hub_step EvHeartbeat w) in
  NoDup (clients w') /\ c ∈ clients w' /\
  heap w' !! c = Some (with_pings (S (pings s)) s).
Proof.
  intros Hnd Hin Hc Ha w'. subst w'. unfold hub_step. cbn [handler].
  destruct (checkHeartbeat_spec w Hnd) as (_ & Hh & Hcl & Hnd').
  cbn. split; [done |]. split.
  - apply Hcl. split; [done |]. unfold unconfirmed. by rewrite Hc, Ha.
  - rewrite lookup_alter_eq, Hh, Hc. destruct (decide _); [| done]. cbn.
    unfold beat. rewrite Ha. f_equal. destruct s. cbn in *. by subst.
Qed.

(** X6. A confirmed session that answers every ping stays in the set
    over any number of heartbeat ticks; each tick pings it once and
    nothing else about it changes. *)
Theorem responsive_session_survives (n : nat) (w : Hub) (c : SocketId)
    (s : ExtendedWebSocket) :
  NoDup (clients w) -> c ∈ clients w -> heap w !! c = Some s ->
  isAlive s = true ->
  c ∈ clients (hub_run (answered_ticks c n) w) /\
  heap (hub_run (answered_ticks c n) w) !! c
    = Some (with_pings (pings s + n) s).
Proof.
  revert w s. induction n as [| n IH]; intros w s Hnd Hin Hc Ha.
  - cbn. split; [done |]. rewrite Hc. f_equal. destruct s. cbn.
    by rewrite Nat.add_0_r.
  - destruct (answered_tick w c s Hnd Hin Hc Ha) as (Hnd1 & Hin1 & Hc1).
    change (hub_run (answered_ticks c (S n)) w)
      with (hub_run (answered_ticks c n)
              (hub_step (EvPong c) (hub_step EvHeartbeat w))).
    destruct (IH _ _ Hnd1 Hin1 Hc1 Ha) as [Hin' Hc'].
    split; [done |]. rewrite Hc'. f_equal. cbn.
    unfold with_pings. cbn. f_equal. lia.
Qed.

Lemma responsive_session_survives_witness :
  0%nat ∈ clients (hub_run (answered_ticks 0%nat 3) sample_hub).
Proof.
  assert (NoDup (clients sample_hub)) as Hnd
    by (apply (bool_decide_unpack _); vm_compute; exact I).
  assert (0%nat ∈ clients sample_hub) as Hin
    by (apply (bool_decide_unpack _); vm_compute; exact I).
  assert (heap sample_hub !! 0%nat = Some (open_socket {[ Pid 7 ]})) as Hc
    by reflexivity.
  exact (proj1 (responsive_session_survives 3 sample_hub 0%nat
    (open_socket {[ Pid 7 ]}) Hnd Hin Hc eq_refl)).
Defined.

Lemma Set_delete_length (c : SocketId) (cs : list SocketId) :
  NoDup cs -> c ∈ cs ->
  (length (Set_delete c cs) + 1 = length cs)%nat.
Proof.
  unfold Set_delete. induction cs as [| x cs IH]; intros Hnd Hin.
  - by apply elem_of_nil in Hin.
  - apply NoDup_cons in Hnd as [Hx Hnd].
    destruct (decide (x = c)) as [-> | Hne].
    + rewrite filter_cons_False by (by intros ?).
      assert (filter (fun y => y ≠ c) cs = cs) as ->; [| cbn; lia].
      clear IH Hin Hnd. induction cs as [| y cs IH]; [done |].
      apply not_elem_of_cons in Hx as [Hy Hx].
      rewrite filter_cons_True by done. by rewrite IH.
    + rewrite filter_cons_True by done. cbn.
      apply elem_of_cons in Hin as [-> | Hin]; [done |].
      rewrite <- (IH Hnd Hin). lia.
Qed.

Lemma Set_delete_absent (c : SocketId) (cs : list SocketId) :
  c ∉ cs -> Set_delete c cs = cs.
Proof.
  unfold Set_delete. induction cs as [| y cs IH]; intros Hc; [done |].
  apply not_elem_of_cons in Hc as [Hy Hc].
  rewrite filter_cons_True by done. by rewrite IH.
Qed.

Lemma forgets_delete (c : SocketId) (w w' : Hub) :
  NoDup (clients w) -> c ∈ clients w ->
  clients w' = Set_delete c (clients w) -> heap w' = heap w ->
  forgets c w w'.
Proof.
  intros Hnd Hin Hcl Hh.
  assert (c ∉ clients w') as Hout.
  { rewrite Hcl, Set_delete_elem. by intros [_ ?]. }
  split; [done |]. split.
  { unfold getClientCount. rewrite Hcl. by apply Set_delete_length. }
  split.
  { intros x Hx. rewrite Hcl, Set_delete_elem. tauto. }
  split; [done |]. split.
  - intros m.
    assert (NoDup (clients w')) as Hnd'
      by (rewrite Hcl; by apply Set_delete_NoDup).
    destruct (broadcast_spec m w' Hnd') as (_ & _ & Hb & _).
    rewrite Hb, Hh. by destruct (decide _).
  - cbn -[Set_delete]. by apply Set_delete_absent.
Qed.

(** X7. When the socket of a session reports a close or an error, the
    session leaves the set and nothing else does; the socket objects are
    left alone; later broadcasts pass it by; and a second close event
    for it changes nothing in the set. *)
Theorem closed_session_forgotten (w : Hub) (c : SocketId) :
  NoDup (clients w) -> c ∈ clients w ->
  forgets c w (snd (on_close c w)) /\ forgets c w (snd (on_error c w)).
Proof. intros Hnd Hin. split; by apply forgets_delete. Qed.

Lemma closed_session_forgotten_witness :
  forgets 1%nat sample_hub (snd (on_close 1%nat sample_hub)) /\
  forgets 1%nat sample_hub (snd (on_error 1%nat sample_hub)).
Proof.
  apply (closed_session_forgotten sample_hub 1%nat).
  - apply (bool_decide_unpack _). vm_compute. exact I.
  - apply (bool_decide_unpack _). vm_compute. exact I.
Defined.

End Sessions.

(** ** Shutting the hub down *)

Section Shutdown.

Import WebSocketManager Delivery Wire HubMore HubServer.

Lemma dropped_twice (s : ExtendedWebSocket) : dropped (dropped s) = dropped s.
Proof. unfold dropped. by destruct s as [[] ? ? ? ? ?]. Qed.

Lemma dropped_not_open (s : ExtendedWebSocket) : readyState (dropped s) ≠ OPEN.
Proof. unfold dropped. by destruct s as [[] ? ? ? ? ?]. Qed.

Lemma close_all (l : list SocketId) (w : Hub) :
  fst (forEach l ws_close w) = Returned tt /\
  clients (snd (forEach l ws_close w)) = clients w /\
  logger (snd (forEach l ws_close w)) = logger w /\
  (forall c, heap (snd (forEach l ws_close w)) !! c =
               if decide (c ∈ l) then dropped <$> heap w !! c else heap w !! c).
Proof.
  revert w. induction l as [| x l IH]; intros w; [done |].
  cbn. destruct (IH (set_heap (alter dropped x (heap w)) w)) as (Hr & Hcl & Hlg & Hh).
  split; [done |]. split; [done |]. split; [done |].
  intros c. rewrite Hh. cbn.
  destruct (decide (c = x)) as [-> | Hne].
  - rewrite lookup_alter_eq.
    destruct (decide (x ∈ x :: l)) as [_ | Hn];
      [| destruct Hn; apply list_elem_of_here].
    destruct (decide (x ∈ l)); [| done].
    destruct (heap w !! x); [| done]. cbn. by rewrite dropped_twice.
  - rewrite lookup_alter_ne by done.
    destruct (decide (c ∈ l)) as [Hl | Hl],
             (decide (c ∈ x :: l)) as [Hxl | Hxl]; try done.
    + destruct Hxl. by apply list_elem_of_further.
    + apply elem_of_cons in Hxl as [? | ?]; done.
Qed.

Lemma shutdown_eq (v : HubServer) :
  shutdown v =
    (Returned tt,
     {| hub := with_line {| level := LInfo; text := "WebSocket server shut down" |}
                 (set_clients [] (snd (forEach (clients (hub v)) ws_close (hub v))));
        wss := false; heartbeatInterval := false;
        liveIntervals := if heartbeatInterval v then pred (liveIntervals v)
                         else liveIntervals v |}).
Proof.
  destruct (close_all (clients (hub v)) (hub v)) as (Hr & _).
  unfold shutdown, bind, HubServer.onHub, modify, log.
  destruct v as [h ws hb n]. cbn -[forEach] in *.
  destruct hb; cbn -[forEach];
    destruct (forEach (clients h) ws_close h) as [o h']; cbn in Hr; subst o;
    cbn; by destruct ws.
Qed.

(** X8. [shutdown] returns normally and leaves an empty session set, no
    server object and no heartbeat timer of its own; every socket that
    was in the set has been closed (it is not open any more) without
    anything having been sent to it, sockets outside the set are left
    alone; a broadcast afterwards reaches nobody; and a second
    [shutdown] changes neither the sockets nor the set again.  After
    [initialize] on a fresh hub, [shutdown] leaves no timer running. *)
Theorem shutdown_closes_everything (v : HubServer) :
  let v' := snd (shutdown v) in
  fst (shutdown v) = Returned tt /\
  getClientCount (hub v') = 0%nat /\
  wss v' = false /\ heartbeatInterval v' = false /\
  (forall c s, heap (hub v) !! c = Some s ->
     heap (hub v') !! c = Some (if decide (c ∈ clients (hub v)) then dropped s else s)) /\
  (forall c s, c ∈ clients (hub v) -> heap (hub v') !! c = Some s ->
     readyState s ≠ OPEN) /\
  (forall m, heap (snd (broadcast m (hub v'))) = heap (hub v')) /\
  (heap (hub (snd (shutdown v'))) = heap (hub v') /\
   clients (hub (snd (shutdown v'))) = []) /\
  liveIntervals (snd (shutdown (snd (initialize fresh)))) = 0%nat.
Proof.
  intros v'. subst v'. rewrite !shutdown_eq. cbn [fst snd hub wss heartbeatInterval
    with_line set_clients heap clients getClientCount length].
  destruct (close_all (clients (hub v)) (hub v)) as (_ & _ & _ & Hh).
  split; [done |]. split; [done |]. split; [done |]. split; [done |].
  split; [| split; [| split; [| split]]].
  - intros c s Hc. rewrite Hh, Hc. by destruct (decide _).
  - intros c s Hin. rewrite Hh. destruct (decide _); [| done].
    destruct (heap (hub v) !! c) as [s0 |]; [| done]. cbn.
    intros [= <-]. apply dropped_not_open.
  - done.
  - done.
  - done.
Qed.

End Shutdown.

(** ** More on the connection supervisor *)

Section SupervisorMore.

Import PM2Client SupervisorSpec SupervisorMore.

(** X9. In every state the supervisor can reach, the reconnect counter
    lies between 0 and the ceiling, the supervisor is never connected
    and connecting at once, and the configured ceiling and delays are
    the defaults it started with. *)
Theorem supervisor_stays_consistent (w : Supervisor) :
  reachable w ->
  0 <= reconnectAttempts (client w) <= 10 /\
  ~ (connected (client w) = true /\ connecting (client w) = true) /\
  maxReconnectAttempts (client w) = 10 /\
  reconnectDelay (client w) = 1000 /\
  maxReconnectDelay (client w) = 30000.
Proof.
  intros (_ & Hcc & Hat & Hmax & Hbase & Hcap)%reachable_invariant.
  split; [lia |]. split; [| done].
  intros [Hc Hg]. rewrite (Hcc Hc) in Hg. discriminate Hg.
Qed.

Lemma supervisor_stays_consistent_witness :
  0 <= reconnectAttempts (client exhausted) <= 10.
Proof.
  apply (supervisor_stays_consistent exhausted).
  apply (reachable_iter 10).
Defined.

(** X10. In every reachable state below the ceiling, [reconnect] sleeps
    1000 ms doubled once per reconnect made since the last success, up
    to 16000 ms, and 30000 ms from the sixth reconnect on: never less
    than 1000 ms and never more than 30000 ms. *)
Theorem reconnect_default_schedule (w : Supervisor) :
  reachable w ->
  reconnectAttempts (client w) < 10 ->
  fst (reconnect w) = Returned (default_delay (reconnectAttempts (client w))) /\
  1000 <= default_delay (reconnectAttempts (client w)) <= 30000.
Proof.
  intros (_ & _ & Hat & Hmax & Hbase & Hcap)%reachable_invariant Hlt.
  destruct (reconnect_delay w) as (Hd & _); [lia |].
  rewrite Hd, Hbase, Hcap. unfold spec_delay, default_delay.
  assert (reconnectAttempts (client w) = 0 \/ reconnectAttempts (client w) = 1 \/
          reconnectAttempts (client w) = 2 \/ reconnectAttempts (client w) = 3 \/
          reconnectAttempts (client w) = 4 \/ reconnectAttempts (client w) = 5 \/
          reconnectAttempts (client w) = 6 \/ reconnectAttempts (client w) = 7 \/
          reconnectAttempts (client w) = 8 \/ reconnectAttempts (client w) = 9)
    as Hcases by lia.
  destruct Hcases as [-> | [-> | [-> | [-> | [-> | [-> | [-> | [-> | [-> | ->]]]]]]]]];
    cbn; (split; [reflexivity | lia]).
Qed.

Lemma reconnect_default_schedule_witness :
  fst (reconnect (Nat.iter 6 (act CallReconnect) initial)) = Returned 30000.
Proof.
  assert (reachable (Nat.iter 6 (act CallReconnect) initial)) as Hr
    by apply (reachable_iter 6).
  assert (reconnectAttempts (client (Nat.iter 6 (act CallReconnect) initial)) < 10)
    as Hlt by (vm_compute; reflexivity).
  exact (proj1 (reconnect_default_schedule _ Hr Hlt)).
Defined.

(** X11. When the daemon answers an attempt with an error, the promise
    of [connect] is rejected with a ConnectionError that carries the
    daemon's message; the supervisor is neither connected nor
    connecting, nothing is in flight, the reconnect counter is as it
    was, and the next [connect] starts a fresh attempt. *)
Theorem failed_attempt_can_be_retried (w : Supervisor) (msg : string) :
  reachable w ->
  connecting (client w) = true ->
  let w' := snd (connect_callback (Some msg) w) in
  fst (connect_callback (Some msg) w) = Thrown (ConnectionError msg) /\
  connected (client w') = false /\
  connecting (client w') = false /\
  inFlight w' = 0%nat /\
  reconnectAttempts (client w') = reconnectAttempts (client w) /\
  fst (connect w') = Returned Pending /\
  inFlight (snd (connect w')) = 1%nat /\
  connecting (client (snd (connect w'))) = true.
Proof.
  intros (Hfl & Hcc & _)%reachable_invariant Hg.
  destruct w as [[cd cg ra mx rd mrd] n sl dc jl]. cbn in *. subst cg n.
  destruct cd; [by specialize (Hcc eq_refl) |]. by cbn.
Qed.

Lemma failed_attempt_can_be_retried_witness :
  fst (connect_callback (Some "ECONNREFUSED") first_attempt)
    = Thrown (ConnectionError "ECONNREFUSED") /\
  fst (connect (snd (connect_callback (Some "ECONNREFUSED") first_attempt)))
    = Returned Pending.
Proof.
  assert (reachable first_attempt) as Hr
    by (apply (reach_step initial CallConnect reach_initial); reflexivity).
  destruct (failed_attempt_can_be_retried first_attempt "ECONNREFUSED" Hr eq_refl)
    as (H1 & _ & _ & _ & _ & H2 & _).
  split; [exact H1 | exact H2].
Defined.

(** X12. From a reachable state in which no attempt is in flight and the
    counter is below the ceiling, a [reconnect] whose timer fires and
    whose attempt the daemon answers without error ends connected with
    the counter at zero and nothing in flight; on the way it called
    [pm2.disconnect] once if the supervisor was connected and not at all
    otherwise, and started exactly one attempt. *)
Theorem reconnect_cycle_connects (w : Supervisor) :
  reachable w ->
  connecting (client w) = false ->
  reconnectAttempts (client w) < maxReconnectAttempts (client w) ->
  connected (client (snd (reconnect w))) = false /\
  disconnects (snd (reconnect w)) = (disconnects w + was_connected w)%nat /\
  fst (reconnect_resume (snd (reconnect w))) = Returned Pending /\
  inFlight (snd (reconnect_resume (snd (reconnect w)))) = 1%nat /\
  connected (client (reconnect_cycle w)) = true /\
  reconnectAttempts (client (reconnect_cycle w)) = 0 /\
  inFlight (reconnect_cycle w) = 0%nat.
Proof.
  intros (Hfl & _)%reachable_invariant Hg Hlt.
  unfold reconnect_cycle, was_connected, reconnect.
  destruct (Z.geb_spec (reconnectAttempts (client w))
              (maxReconnectAttempts (client w))) as [Hge | _]; [lia |].
  destruct w as [[cd cg ra mx rd mrd] n sl dc jl]. cbn in *. subst cg n.
  destruct cd; cbn; destruct sl; cbn; repeat split; lia.
Qed.

Lemma reconnect_cycle_connects_witness :
  connected (client (reconnect_cycle initial)) = true /\
  reconnectAttempts (client (reconnect_cycle initial)) = 0.
Proof.
  assert (reconnectAttempts (client initial) < maxReconnectAttempts (client initial))
    as Hlt by (vm_compute; reflexivity).
  destruct (reconnect_cycle_connects initial reach_initial eq_refl Hlt)
    as (_ & _ & _ & _ & H1 & H2 & _).
  split; [exact H1 | exact H2].
Defined.

(** X13. [disconnect] calls [pm2.disconnect] only when the supervisor is
    connected and leaves it not connected; a second [disconnect] calls
    nothing.  It leaves an attempt in flight alone: if the daemon then
    answers that attempt without error, the supervisor ends connected
    all the same. *)
Theorem disconnect_leaves_attempt_alone (w : Supervisor) :
  let w' := snd (disconnect w) in
  fst (disconnect w) = Returned tt /\
  connected (client w') = false /\
  disconnects w' = (disconnects w + was_connected w)%nat /\
  disconnects (snd (disconnect w')) = disconnects w' /\
  client (snd (disconnect w')) = client w' /\
  connecting (client w') = connecting (client w) /\
  inFlight w' = inFlight w /\
  reconnectAttempts (client w') = reconnectAttempts (client w) /\
  connected (client (snd (connect_callback None w'))) = true.
Proof.
  destruct w as [[cd cg ra mx rd mrd] n sl dc jl].
  unfold was_connected. destruct cd; cbn; repeat split; lia.
Qed.

End SupervisorMore.

(** ** More on the translator *)

Section TranslatorMore.

Import WebSocketManager PM2EventBus Delivery Wire Samples TranslatorSpec
  TranslatorMore.

Lemma recent_is_most_recent (processId : option Z) (limit : Z) (b : PM2EventBus) :
  0 < limit ->
  getRecentLogs processId (Some limit) b = most_recent limit (matching processId b).
Proof.
  intros Hlim.
  unfold getRecentLogs, matching, JSArray.slice, most_recent, JSArray.len. cbn.
  destruct (Z.ltb_spec (- limit) 0) as [_ | ?]; [| lia].
  f_equal. lia.
Qed.

Lemma last_most_recent_snoc {A} (n : Z) (l : list A) (x : A) :
  0 < n -> last (most_recent n (l ++ [x])) = Some x.
Proof.
  intros Hn. unfold most_recent. rewrite length_app. cbn [length].
  rewrite drop_app_le by lia. apply last_snoc.
Qed.

Lemma buffer_add_ends (cap : Z) (buf : list LogEntry) (e : LogEntry) :
  0 < cap -> exists front, buffer_add cap buf e = front ++ [e].
Proof.
  intros Hcap. unfold buffer_add, JSArray.push, JSArray.shift, JSArray.len.
  destruct (Z.gtb_spec (Z.of_nat (length (buf ++ [e]))) cap) as [Hgt | _].
  - destruct buf as [| x buf]; [cbn in Hgt; lia |]. by exists buf.
  - by exists buf.
Qed.

(** X15. With a buffer capacity of at least one, the entry [handleLog]
    has just built is the newest one [getRecentLogs] returns, for every
    positive limit and for the default limit, both without a process
    filter and with the entry's own process id as filter; and
    [handleLog] returns normally. *)
Theorem ingested_entry_is_most_recent (r : Relay) (packet : PM2LogPacket)
    (type : LogType) (uuid : string) (now : Z) (limit : Z) :
  0 < maxBufferSize (pm2EventBus r) ->
  0 < limit ->
  let b' := pm2EventBus (snd (handleLog packet type uuid now r)) in
  let e := mkLogEntry packet type uuid now in
  fst (handleLog packet type uuid now r) = Returned tt /\
  last (getRecentLogs None (Some limit) b') = Some e /\
  last (getRecentLogs (Some (lp_pm_id packet)) (Some limit) b') = Some e /\
  last (getRecentLogs None None b') = Some e /\
  last (getRecentLogs (Some (lp_pm_id packet)) None b') = Some e.
Proof.
  intros Hcap Hlim b' e. subst b'. rewrite handleLog_hub. cbn [fst snd pm2EventBus].
  destruct (buffer_add_ends (maxBufferSize (pm2EventBus r))
              (logBuffer (pm2EventBus r)) e Hcap) as [front Hfront].
  fold e. split.
  { by destruct (broadcastToSubscribers_total (lp_pm_id packet)
                   (log_message packet type uuid now) (wsManager r)) as [-> _]. }
  assert (forall n, 0 < n ->
    last (most_recent n (matching None
            (with_logBuffer (front ++ [e]) (pm2EventBus r)))) = Some e) as Hall.
  { intros n Hn. cbn. by apply last_most_recent_snoc. }
  assert (forall n, 0 < n ->
    last (most_recent n (matching (Some (lp_pm_id packet))
            (with_logBuffer (front ++ [e]) (pm2EventBus r)))) = Some e) as Hown.
  { intros n Hn. cbn. rewrite filter_app, filter_cons_True by done.
    rewrite filter_nil. by apply last_most_recent_snoc. }
  rewrite Hfront.
  change (getRecentLogs None None) with (getRecentLogs None (Some 100)).
  change (getRecentLogs (Some (lp_pm_id packet)) None)
    with (getRecentLogs (Some (lp_pm_id packet)) (Some 100)).
  rewrite !recent_is_most_recent by lia.
  split; [by apply Hall |]. split; [by apply Hown |].
  split; [apply Hall | apply Hown]; lia.
Qed.

Lemma ingested_entry_is_most_recent_witness :
  last (getRecentLogs (Some 7) (Some 5)
          (pm2EventBus (snd (handleLog (sample_packet 7 "x") log_err "u9" 3
                               sample_relay))))
    = Some (mkLogEntry (sample_packet 7 "x") log_err "u9" 3).
Proof.
  assert (0 < maxBufferSize (pm2EventBus sample_relay)) as Hcap
    by (vm_compute; reflexivity).
  assert (0 < 5) as Hlim by lia.
  exact (proj1 (proj2 (proj2
    (ingested_entry_is_most_recent sample_relay (sample_packet 7 "x") log_err
       "u9" 3 5 Hcap Hlim)))).
Defined.

(** X16. A refresh whose list call fails is logged and skipped: the call
    returns normally, no socket and no buffer entry changes.  The next
    tick of the interval starts a new list call, and when that one
    settles with a list, every session of the set whose socket is open
    and takes the send receives it as PROCESS_LIST_UPDATE. *)
Theorem failed_refresh_is_retried (r : Relay) (e : JSError) (now1 : Z)
    (ps : list PM2Process) (now2 : Z) (c : SocketId) (s : ExtendedWebSocket) :
  NoDup (clients (wsManager r)) ->
  c ∈ clients (wsManager r) ->
  heap (wsManager r) !! c = Some s ->
  accepts s = true ->
  let r1 := snd (broadcastProcessList_settled (Thrown e) now1 r) in
  fst (broadcastProcessList_settled (Thrown e) now1 r) = Returned tt /\
  heap (wsManager r1) = heap (wsManager r) /\
  clients (wsManager r1) = clients (wsManager r) /\
  logger (wsManager r1) = logger (wsManager r) ++ [list_failure] /\
  pm2EventBus r1 = pm2EventBus r /\
  listCalls (snd (on_metricsInterval r1)) = S (listCalls r1) /\
  heap (wsManager (retried e now1 ps now2 r)) !! c
    = Some (deliver (process_list_message ps now2) s) /\
  listCalls (retried e now1 ps now2 r) = listCalls r1.
Proof.
  intros Hnd Hin Hc Hacc r1. subst r1. unfold retried.
  rewrite broadcastProcessList_settled_ok.
  assert (broadcastProcessList_settled (Thrown e) now1 r =
          (Returned tt,
           {| pm2EventBus := pm2EventBus r;
              wsManager := with_line list_failure (wsManager r);
              listCalls := pred (listCalls r) |})) as -> by reflexivity.
  cbn [fst snd wsManager pm2EventBus listCalls with_line heap clients logger
       on_metricsInterval broadcastProcessList modify set_listCalls pred].
  split; [done |]. split; [done |]. split; [done |]. split; [done |].
  split; [done |]. split; [done |]. split; [| done].
  assert (NoDup (clients (with_line list_failure (wsManager r)))) as Hnd' by done.
  destruct (broadcast_spec (process_list_message ps now2) _ Hnd')
    as (_ & _ & Hh & _).
  rewrite Hh. cbn [with_line heap clients]. rewrite Hc.
  destruct (decide _); [| done]. cbn. by rewrite relayed_accept.
Qed.

Lemma failed_refresh_is_retried_witness :
  heap (wsManager (retried (PM2Error "Failed to list processes") 1 [] 2
                     sample_relay)) !! 2%nat
    = Some (deliver (process_list_message [] 2) (open_socket {[ All ]})).
Proof.
  assert (NoDup (clients (wsManager sample_relay))) as Hnd
    by (apply (bool_decide_unpack _); vm_compute; exact I).
  assert (2%nat ∈ clients (wsManager sample_relay)) as Hin
    by (apply (bool_decide_unpack _); vm_compute; exact I).
  assert (heap (wsManager sample_relay) !! 2%nat = Some (open_socket {[ All ]}))
    as Hc by reflexivity.
  exact (proj1 (proj2 (proj2 (proj2 (proj2 (proj2 (proj2
    (failed_refresh_is_retried sample_relay (PM2Error "Failed to list processes")
       1 [] 2 2%nat (open_socket {[ All ]}) Hnd Hin Hc eq_refl)))))))).
Defined.

Lemma slice_nil {A} (start : Z) : JSArray.slice (@nil A) start = [].
Proof. unfold JSArray.slice. by rewrite drop_nil. Qed.

(** X17. [destroy] empties the log buffer and clears the polling
    interval and touches neither the sessions nor the capacity: every
    [getRecentLogs] afterwards is empty, a second [destroy] changes
    nothing in the translator, and ingestion afterwards fills the
    buffer from empty again.  A refresh that was under way is not
    cancelled: its count stays. *)
Theorem destroy_clears_buffer (r : Relay) (l : list Ingestion) :
  0 <= maxBufferSize (pm2EventBus r) ->
  let r' := snd (destroy r) in
  fst (destroy r) = Returned tt /\
  logBuffer (pm2EventBus r') = [] /\
  metricsInterval (pm2EventBus r') = false /\
  maxBufferSize (pm2EventBus r') = maxBufferSize (pm2EventBus r) /\
  (forall p n, getRecentLogs p n (pm2EventBus r') = []) /\
  heap (wsManager r') = heap (wsManager r) /\
  clients (wsManager r') = clients (wsManager r) /\
  listCalls r' = listCalls r /\
  pm2EventBus (snd (destroy r')) = pm2EventBus r' /\
  logBuffer (pm2EventBus (ingest_all l r'))
    = most_recent (maxBufferSize (pm2EventBus r)) (entry_of <$> l).
Proof.
  intros Hcap r'. subst r'.
  assert (destroy r =
          (Returned tt,
           {| pm2EventBus := {| logBuffer := [];
                                maxBufferSize := maxBufferSize (pm2EventBus r);
                                metricsInterval := false |};
              wsManager := with_line
                             {| level := LInfo; text := "PM2 event bus destroyed" |}
                             (wsManager r);
              listCalls := listCalls r |})) as -> by reflexivity.
  cbn [fst snd pm2EventBus wsManager listCalls logBuffer metricsInterval
       maxBufferSize with_line heap clients].
  split; [done |]. split; [done |]. split; [done |]. split; [done |]. split.
  { intros p n. unfold getRecentLogs. cbn [logBuffer].
    destruct p; [rewrite filter_nil |]; apply slice_nil. }
  split; [done |]. split; [done |]. split; [done |]. split; [done |].
  rewrite ingest_all_bus by (cbn; unfold JSArray.len; cbn; lia). done.
Qed.

Lemma destroy_clears_buffer_witness :
  logBuffer (pm2EventBus (ingest_all
    [sample_ingestion 1 "a" 10; sample_ingestion 2 "b" 11;
     sample_ingestion 1 "c" 12]
    (snd (destroy (ingest_all [sample_ingestion 3 "z" 9] small_relay)))))
  = [entry_of (sample_ingestion 2 "b" 11); entry_of (sample_ingestion 1 "c" 12)].
Proof.
  assert (0 <= maxBufferSize (pm2EventBus
            (ingest_all [sample_ingestion 3 "z" 9] small_relay))) as Hcap
    by (vm_compute; discriminate).
  exact (proj2 (proj2 (proj2 (proj2 (proj2 (proj2 (proj2 (proj2 (proj2
    (destroy_clears_buffer (ingest_all [sample_ingestion 3 "z" 9] small_relay)
       [sample_ingestion 1 "a" 10; sample_ingestion 2 "b" 11;
        sample_ingestion 1 "c" 12] Hcap)))))))))).
Defined.

End TranslatorMore.

(** ** [getRecentLogs] on every Number *)

Section RecentLogsNumber.

Import PM2EventBus Samples TranslatorSpec.

Lemma pow2_pos (e : Z) : e < 0 -> 0 < 2 ^ (- e).
Proof. intros He. apply Z.pow_pos_nonneg; lia. Qed.

Lemma truncate_neg (m e : Z) :
  JSNumber.truncate (- m) e = - JSNumber.truncate m e.
Proof.
  unfold JSNumber.truncate. destruct (Z.leb_spec 0 e) as [_ | He]; [lia |].
  apply Z.quot_opp_l. pose proof (pow2_pos e He). lia.
Qed.

(** An integer is at most a finite Number exactly when it is at most
    its integer part, for a positive integer. *)
Lemma Z_leb_truncate (z m e : Z) :
  1 <= z ->
  JSNumber.Z_leb z (Finite m e) = true <-> z <= JSNumber.truncate m e.
Proof.
  intros Hz. unfold JSNumber.Z_leb, JSNumber.truncate.
  destruct (Z.leb_spec 0 e) as [_ | He]; [apply Z.leb_le |].
  pose proof (pow2_pos e He) as Hd. rewrite Z.leb_le. split.
  - intros Hle. assert (0 <= m) by nia.
    rewrite Z.quot_div_nonneg by lia.
    apply Z.div_le_lower_bound; lia.
  - intros Hle. destruct (Z_lt_le_dec m 0) as [Hm | Hm].
    + pose proof (Z.quot_opp_l m (2 ^ (- e))) as Ho.
      assert (0 <= Z.quot (- m) (2 ^ (- e))) by (apply Z.quot_pos; lia).
      lia.
    + rewrite Z.quot_div_nonneg in Hle by lia.
      pose proof (Z.mul_div_le m (2 ^ (- e)) Hd). nia.
Qed.

(** Neither [1 <= x] nor [x <= -1]: the integer part of [-x] is 0. *)
Lemma fraction_truncates_to_zero (x : JSNumber) :
  JSNumber.Z_leb 1 x = false ->
  JSNumber.Z_leb 1 (JSNumber.neg x) = false ->
  JSNumber.ToIntegerOrInfinity (JSNumber.neg x) = Int 0.
Proof.
  destruct x as [m e | | |]; cbn; try done.
  unfold JSNumber.truncate.
  destruct (Z.leb_spec 0 e) as [_ | He].
  - intros H1%Z.leb_gt H2%Z.leb_gt. f_equal. lia.
  - pose proof (pow2_pos e He) as Hd.
    intros H1%Z.leb_gt H2%Z.leb_gt. f_equal.
    destruct (Z_lt_le_dec m 0) as [Hm | Hm].
    + apply Z.quot_small. lia.
    + rewrite Z.quot_opp_l by lia. rewrite Z.quot_small by lia. done.
Qed.

Lemma slice_from_zero {A} (l : list A) : JSArray.slice l 0 = l.
Proof. apply (slice_zero l). Qed.

Lemma slice_last {A} (n : Z) (l : list A) :
  1 <= n -> JSArray.slice l (- n) = most_recent n l.
Proof.
  intros Hn. unfold JSArray.slice, most_recent, JSArray.len.
  destruct (Z.ltb_spec (- n) 0) as [_ | ?]; [| lia]. f_equal. lia.
Qed.

Lemma slice_drop {A} (n : Z) (l : list A) :
  0 <= n -> JSArray.slice l n = drop (Z.to_nat n) l.
Proof.
  intros Hn. unfold JSArray.slice, JSArray.len.
  destruct (Z.ltb_spec n 0) as [? | _]; [lia |].
  destruct (Z_le_gt_dec n (Z.of_nat (length l))) as [Hle | Hgt].
  - by rewrite Z.min_l.
  - rewrite Z.min_r by lia. rewrite !drop_ge by lia. done.
Qed.

Lemma Array_slice_sublist {A} (l : list A) (x : JSNumber) :
  JSNumber.Array_slice l x `sublist_of` l.
Proof.
  unfold JSNumber.Array_slice.
  destruct (JSNumber.ToIntegerOrInfinity x);
    [apply sublist_drop | apply sublist_nil_l | done].
Qed.

Lemma RecentLogs_eq (processId : option Z) (limit : option JSNumber)
    (b : PM2EventBus) :
  RecentLogs.getRecentLogs processId limit b
  = JSNumber.Array_slice (matching processId b)
      (JSNumber.neg (default (JSNumber.of_Z 100) limit)).
Proof. by destruct processId. Qed.

(** X14. [getRecentLogs] for every Number [limit].  For a finite limit
    of at least 1, integer or not, it returns the last [n] entries of
    the buffer that match the process filter, [n] the integer part of
    the limit, in arrival order: never more than [limit], and all the
    matching entries when there are no more than [limit] of them.  For
    a limit strictly between -1 and 1 (0.5, zero), for NaN and for
    plus infinity it returns every matching entry; for a limit of -1
    or below, every matching entry but the first [n], [n] the integer
    part of [-limit]; for minus infinity, none.  Whatever the limit,
    what it returns is taken from the buffer in order and holds no
    entry of another process.  On an integer limit it is the integer
    model's [getRecentLogs], and without a limit the last 100 matching
    entries. *)
Theorem recent_logs_within_limit (processId : option Z) (limit : JSNumber)
    (b : PM2EventBus) :
  let out := RecentLogs.getRecentLogs processId (Some limit) b in
  out `sublist_of` logBuffer b /\
  (forall p e, processId = Some p -> e ∈ out -> le_processId e = p) /\
  (forall m e, limit = Finite m e -> JSNumber.Z_leb 1 limit = true ->
     out = most_recent (JSNumber.truncate m e) (matching processId b) /\
     JSNumber.Z_leb (JSArray.len out) limit = true /\
     (JSNumber.Z_leb (JSArray.len (matching processId b)) limit = true ->
        out = matching processId b)) /\
  (JSNumber.Z_leb 1 limit = false ->
   JSNumber.Z_leb 1 (JSNumber.neg limit) = false ->
     out = matching processId b) /\
  (limit = PosInfinity -> out = matching processId b) /\
  (forall m e, limit = Finite m e -> JSNumber.Z_leb 1 (JSNumber.neg limit) = true ->
     out = drop (Z.to_nat (JSNumber.truncate (- m) e)) (matching processId b)) /\
  (limit = NegInfinity -> out = []) /\
  (forall z, limit = JSNumber.of_Z z ->
     out = PM2EventBus.getRecentLogs processId (Some z) b) /\
  RecentLogs.getRecentLogs processId None b
    = most_recent 100 (matching processId b).
Proof.
  intros out. subst out. rewrite !RecentLogs_eq. cbn [default from_option id].
  assert (matching processId b `sublist_of` logBuffer b) as Hsel.
  { unfold matching. destruct processId; [apply sublist_filter | done]. }
  pose proof (Array_slice_sublist (matching processId b) (JSNumber.neg limit))
    as Hsub.
  split; [by etrans |]. split.
  { intros p e -> He. apply (elem_of_sublist _ _ _ He) in Hsub as Hin.
    cbn in Hin. by apply list_elem_of_filter in Hin as [? _]. }
  split.
  { intros m e -> Hone.
    assert (1 <= JSNumber.truncate m e) as Hn by (by apply Z_leb_truncate).
    assert (JSNumber.Array_slice (matching processId b) (JSNumber.neg (Finite m e))
            = most_recent (JSNumber.truncate m e) (matching processId b)) as ->.
    { unfold JSNumber.Array_slice. cbn. rewrite truncate_neg. by apply slice_last. }
    split; [done |]. split.
    - pose proof (most_recent_length (JSNumber.truncate m e)
                    (matching processId b)) as Hlen.
      destruct (Z_lt_le_dec (JSArray.len (most_recent (JSNumber.truncate m e)
                                             (matching processId b))) 1) as [Hz | Hz].
      + assert (JSArray.len (most_recent (JSNumber.truncate m e)
                               (matching processId b)) = 0) as ->.
        { unfold JSArray.len in *. lia. }
        revert Hone. unfold JSNumber.Z_leb.
        destruct (0 <=? e); rewrite !Z.leb_le; lia.
      + apply Z_leb_truncate; [done |]. apply Hlen. lia.
    - intros Hall. apply most_recent_all.
      destruct (Z_lt_le_dec (JSArray.len (matching processId b)) 1) as [Hz | Hz];
        [lia |].
      by apply Z_leb_truncate. }
  split.
  { intros H1 H2. unfold JSNumber.Array_slice.
    rewrite fraction_truncates_to_zero by done. apply slice_from_zero. }
  split; [by intros -> |].
  split.
  { intros m e -> Hneg. unfold JSNumber.Array_slice. cbn.
    apply slice_drop.
    cbn in Hneg. apply Z_leb_truncate in Hneg; lia. }
  split; [by intros -> |].
  split.
  { intros z ->. unfold JSNumber.Array_slice, JSNumber.of_Z. cbn.
    unfold JSNumber.truncate. cbn. rewrite Z.mul_1_r.
    unfold getRecentLogs, matching. by destruct processId. }
  unfold JSNumber.Array_slice, JSNumber.of_Z. cbn.
  apply (slice_last 100). lia.
Qed.

Lemma recent_logs_within_limit_witness :
  RecentLogs.getRecentLogs None (Some (Finite 5 (-1))) sample_bus
    = [sample_entry "b" 2; sample_entry "c" 1] /\
  RecentLogs.getRecentLogs None (Some (Finite 1 (-1))) sample_bus
    = logBuffer sample_bus.
Proof.
  split.
  - destruct (recent_logs_within_limit None (Finite 5 (-1)) sample_bus)
      as (_ & _ & H & _).
    destruct (H 5 (-1)) as (Hout & _); [reflexivity | reflexivity |].
    exact Hout.
  - destruct (recent_logs_within_limit None (Finite 1 (-1)) sample_bus)
      as (_ & _ & _ & H & _).
    apply H; reflexivity.
Defined.

End RecentLogsNumber.

(** ** The browser stores *)

Section StoresMore.

Import Frontend Stores.

Lemma Array_find_Some {A} (P : A -> Prop) `{forall x, Decision (P x)}
    (l : list A) (x : A) :
  Array_find P l = Some x -> x ∈ l /\ P x.
Proof.
  induction l as [| y l IH]; [done |]. cbn.
  destruct (decide (P y)) as [Hy | Hy].
  - intros [= ->]. split; [apply list_elem_of_here | done].
  - intros [Hin HP]%IH. split; [by apply list_elem_of_further | done].
Qed.

Lemma Array_find_None {A} (P : A -> Prop) `{forall x, Decision (P x)}
    (l : list A) :
  Array_find P l = None <-> forall x, x ∈ l -> ~ P x.
Proof.
  induction l as [| y l IH]; cbn.
  - split; [| done]. intros _ x Hx. by apply elem_of_nil in Hx.
  - destruct (decide (P y)) as [Hy | Hy].
    + split; [done |]. intros Hall. destruct (Hall y); [apply list_elem_of_here | done].
    + rewrite IH. split.
      * intros Hall x [-> | Hx]%elem_of_cons; [done | by apply Hall].
      * intros Hall x Hx. apply Hall. by apply list_elem_of_further.
Qed.

Lemma find_after_remove (id q : Z) (l : list PM2Process) :
  q ≠ id ->
  Array_find (fun p => pm_id p = q) (filter (fun p => pm_id p ≠ id) l)
    = Array_find (fun p => pm_id p = q) l.
Proof.
  intros Hq. induction l as [| p l IH]; [done |].
  destruct (decide (pm_id p = id)) as [Hp | Hp].
  - rewrite filter_cons_False by (by intros ?). cbn.
    destruct (decide (pm_id p = q)); [congruence | done].
  - rewrite filter_cons_True by done. cbn. by rewrite IH.
Qed.

Lemma filter_all {A} (P : A -> Prop) `{forall x, Decision (P x)} (l : list A) :
  (forall x, x ∈ l -> P x) -> filter P l = l.
Proof.
  induction l as [| y l IH]; intros Hall; [done |].
  rewrite filter_cons_True by (apply Hall, list_elem_of_here).
  rewrite IH; [done |]. intros x Hx. apply Hall. by apply list_elem_of_further.
Qed.

(** X18. After [removeProcess id] no process with that id is in the
    store and looking it up gives nothing; every other process stays, in
    order, and is looked up as before; the selection is dropped exactly
    when it was that id; and removing an id that is not there leaves
    the list as it was. *)
Theorem removed_process_is_gone (id : Z) (st : ProcessStore) :
  let st' := removeProcess id st in
  useProcessById id st' = None /\
  (forall p, p ∈ processes st' <-> p ∈ processes st /\ pm_id p ≠ id) /\
  processes st' `sublist_of` processes st /\
  (forall q, q ≠ id -> useProcessById q st' = useProcessById q st) /\
  (selectedProcessId st = Some id ->
     selectedProcessId st' = None /\ useSelectedProcess st' = None) /\
  (selectedProcessId st ≠ Some id ->
     selectedProcessId st' = selectedProcessId st /\
     useSelectedProcess st' = useSelectedProcess st) /\
  (useProcessById id st = None -> processes st' = processes st).
Proof.
  intros st'. subst st'. unfold useProcessById, useSelectedProcess, removeProcess.
  cbn [processes selectedProcessId].
  split.
  { apply Array_find_None. intros p [Hp _]%list_elem_of_filter. done. }
  split.
  { intros p. rewrite list_elem_of_filter. tauto. }
  split; [apply sublist_filter |].
  split; [intros q Hq; by apply find_after_remove |].
  split; [| split].
  - intros Hsel. by rewrite decide_True.
  - intros Hsel. rewrite decide_False by done. split; [done |].
    destruct (selectedProcessId st) as [q |]; [| done].
    apply find_after_remove. congruence.
  - intros Hnone. apply filter_all. intros p Hp Hid.
    by apply (proj1 (Array_find_None _ _) Hnone p).
Qed.

Lemma spread_no_patch (p : PM2Process) : spread p no_patch = p.
Proof. by destruct p. Qed.

Lemma find_after_update (id q : Z) (u : ProcessPatch) (l : list PM2Process) :
  patch_pm_id u = None ->
  Array_find (fun p => pm_id p = q)
    ((fun p => if decide (pm_id p = id) then spread p u else p) <$> l)
    = (fun p => if decide (pm_id p = id) then spread p u else p)
        <$> Array_find (fun p => pm_id p = q) l.
Proof.
  intros Hu. induction l as [| p l IH]; [done |]. cbn.
  assert (pm_id (if decide (pm_id p = id) then spread p u else p) = pm_id p) as ->.
  { destruct (decide (pm_id p = id)); [| done]. unfold spread. cbn. by rewrite Hu. }
  destruct (decide (pm_id p = q)); [done | apply IH].
Qed.

(** X19. [updateProcess id updates] keeps the length and order of the
    list and the selection, and leaves every process with another id as
    it was; with updates that do not carry a [pm_id], looking up [id]
    afterwards gives the earlier process with the updates spread over
    it, and every other lookup is unchanged.  Updating an id that is
    not in the list, or with no updates, changes nothing. *)
Theorem update_touches_only_its_process (id : Z) (u : ProcessPatch)
    (st : ProcessStore) :
  let st' := updateProcess id u st in
  length (processes st') = length (processes st) /\
  selectedProcessId st' = selectedProcessId st /\
  (forall i p, processes st !! i = Some p -> pm_id p ≠ id ->
     processes st' !! i = Some p) /\
  (patch_pm_id u = None ->
     (forall p, useProcessById id st = Some p ->
        useProcessById id st' = Some (spread p u)) /\
     (forall q, q ≠ id -> useProcessById q st' = useProcessById q st)) /\
  (useProcessById id st = None -> st' = st) /\
  updateProcess id no_patch st = st.
Proof.
  intros st'. subst st'. unfold updateProcess, useProcessById, with_processes.
  cbn [processes selectedProcessId].
  split; [by rewrite length_fmap |]. split; [done |]. split.
  { intros i p Hi Hp. rewrite list_lookup_fmap, Hi. cbn.
    by rewrite decide_False. }
  split; [| split].
  - intros Hu. split.
    + intros p Hp. rewrite find_after_update, Hp by done. cbn.
      apply Array_find_Some in Hp as [_ Hid]. by rewrite decide_True.
    + intros q Hq. rewrite find_after_update by done.
      destruct (Array_find (fun p => pm_id p = q) (processes st)) as [p |] eqn:Hp;
        [| done].
      apply Array_find_Some in Hp as [_ Hid]. cbn.
      rewrite decide_False; [done | congruence].
  - intros Hnone. destruct st as [ps sel ld er]. cbn in *. f_equal.
    rewrite <- (list_fmap_id ps) at 2. apply list_fmap_ext.
    intros i p Hi. rewrite decide_False; [done |].
    apply (proj1 (Array_find_None _ _) Hnone p).
    apply list_elem_of_lookup. eauto.
  - destruct st as [ps sel ld er]. cbn. f_equal.
    rewrite <- (list_fmap_id ps) at 2. apply list_fmap_ext.
    intros i p Hi. destruct (decide _); [apply spread_no_patch | done].
Qed.

Lemma stats_partition (l : list PM2Process) :
  (length (filter (fun p => proc_status p = "online"%string) l)
   + length (filter (fun p => proc_status p = "stopped"%string) l)
   + length (filter (fun p => proc_status p = "errored"%string) l)
   + length (filter (fun p => proc_status p ≠ "online"%string /\
                              proc_status p ≠ "stopped"%string /\
                              proc_status p ≠ "errored"%string) l)
   = length l)%nat.
Proof.
  induction l as [| p l IH]; [done |].
  rewrite !filter_cons.
  destruct (decide (proc_status p = "online"%string)) as [Ho | Ho];
  destruct (decide (proc_status p = "stopped"%string)) as [Hs | Hs];
  destruct (decide (proc_status p = "errored"%string)) as [He | He];
  try congruence;
  (destruct (decide (proc_status p ≠ "online"%string /\
                     proc_status p ≠ "stopped"%string /\
                     proc_status p ≠ "errored"%string)) as [Hx | Hx];
   [try (destruct Hx as (? & ? & ?); congruence)
   | try (destruct Hx; by repeat split)]);
  cbn [length]; lia.
Qed.

(** X20. The statistics count every process once: the online, stopped
    and errored counts and the number of processes in any other status
    add up to the total, which is the length of the list; so the three
    counts never exceed the total, and removing a process never raises
    the total. *)
Theorem stats_count_each_process_once (st : ProcessStore) :
  let s := useProcessStats st in
  total s = length (processes st) /\
  (online s + stopped s + errored s
   + length (filter (fun p => proc_status p ≠ "online"%string /\
                              proc_status p ≠ "stopped"%string /\
                              proc_status p ≠ "errored"%string) (processes st))
   = total s)%nat /\
  (online s + stopped s + errored s <= total s)%nat /\
  (forall id, total (useProcessStats (removeProcess id st)) <= total s)%nat /\
  (forall ps, total (useProcessStats (setProcesses ps st)) = length ps).
Proof.
  intros s. subst s. unfold useProcessStats. cbn [total online stopped errored].
  pose proof (stats_partition (processes st)) as Hp.
  split; [done |]. split; [done |]. split; [lia |]. split; [| done].
  intros id. cbn. apply length_filter.
Qed.

(** X21. The selected process, when there is one, is a process of the
    list whose id is the selected id; there is none exactly when nothing
    is selected or no process of the list has the selected id.
    Selecting an id resolves like looking it up.  A snapshot keeps the
    selection as it is, so a selection whose process is not in the new
    list resolves to nothing. *)
Theorem selected_process_resolves (st : ProcessStore) :
  (forall p, useSelectedProcess st = Some p ->
     p ∈ processes st /\ selectedProcessId st = Some (pm_id p)) /\
  (useSelectedProcess st = None <->
     selectedProcessId st = None \/
     exists id, selectedProcessId st = Some id /\
                forall p, p ∈ processes st -> pm_id p ≠ id) /\
  (forall id, useSelectedProcess (selectProcess (Some id) st) = useProcessById id st) /\
  (forall ps, selectedProcessId (setProcesses ps st) = selectedProcessId st) /\
  (forall ps id, selectedProcessId st = Some id ->
     (forall p, p ∈ ps -> pm_id p ≠ id) ->
     useSelectedProcess (setProcesses ps st) = None).
Proof.
  unfold useSelectedProcess, useProcessById.
  split; [| split; [| split; [| split]]].
  - intros p. destruct (selectedProcessId st) as [id |]; [| done].
    intros [Hin Hid]%Array_find_Some. split; [done | by rewrite Hid].
  - destruct (selectedProcessId st) as [id |].
    + rewrite Array_find_None. split.
      * intros Hall. right. exists id. split; [done |]. apply Hall.
      * intros [? | (id' & [= <-] & Hall)]; [done | apply Hall].
    + split; [by left | done].
  - done.
  - done.
  - intros ps id Hsel Hall. cbn. rewrite Hsel. by apply Array_find_None.
Qed.

Lemma most_recent_snoc {A} (n : Z) (l : list A) (x : A) :
  0 < n -> most_recent n (most_recent n l ++ [x]) = most_recent n (l ++ [x]).
Proof.
  intros Hn. unfold most_recent. rewrite !length_app, length_drop. cbn [length].
  destruct (decide (length l <= Z.to_nat n)%nat) as [Hle | Hgt].
  - replace (length l - Z.to_nat n)%nat with 0%nat by lia. cbn [drop].
    f_equal. lia.
  - rewrite <- (drop_app_le l [x]) by lia. rewrite drop_drop. f_equal. lia.
Qed.

Lemma slice_most_recent {A} (n : Z) (l : list A) :
  0 < n -> JSArray.slice l (- n) = most_recent n l.
Proof.
  intros Hn. unfold JSArray.slice, most_recent, JSArray.len.
  destruct (Z.ltb_spec (- n) 0) as [_ | ?]; [| lia]. f_equal. lia.
Qed.

Lemma addLogs_most_recent (l : list LogEntry) (st : LogStore) :
  0 < maxLogs st -> isPaused st = false ->
  addLogs l st = with_logs (most_recent (maxLogs st) (logs st ++ l)) st.
Proof.
  intros Hmax Hp. unfold addLogs. rewrite Hp.
  destruct (Z.gtb_spec (JSArray.len (logs st ++ l)) (maxLogs st)) as [Hgt | Hle].
  - by rewrite slice_most_recent.
  - by rewrite most_recent_all.
Qed.

Lemma addLog_addLogs (e : LogEntry) (st : LogStore) : addLog e st = addLogs [e] st.
Proof. unfold addLog, addLogs, with_logs. by destruct (isPaused st). Qed.

Lemma addLog_fold (l : list LogEntry) (st : LogStore) :
  0 < maxLogs st -> isPaused st = false ->
  JSArray.len (logs st) <= maxLogs st ->
  foldl (fun st e => addLog e st) st l
    = with_logs (most_recent (maxLogs st) (logs st ++ l)) st.
Proof.
  intros Hmax Hp Hlen. induction l as [| e l IH] using rev_ind.
  - cbn. rewrite app_nil_r, most_recent_all by done. by destruct st.
  - rewrite foldl_app. cbn [foldl]. rewrite IH, addLog_addLogs.
    rewrite addLogs_most_recent by done.
    cbn [with_logs logs maxLogs isPaused filters].
    rewrite most_recent_snoc by done. by rewrite app_assoc.
Qed.

(** X22. With a positive [maxLogs] and a log list within it, a log store
    that is not paused holds, after [addLogs] of a batch, the most
    recent [maxLogs] entries of the old list followed by the batch, in
    order, and that is what [addLog] entry by entry gives; while
    paused, both drop what they are given; and [clearLogs] empties the
    list and keeps filters, pause and limit. *)
Theorem log_store_keeps_most_recent (l : list LogEntry) (st : LogStore) :
  0 < maxLogs st ->
  JSArray.len (logs st) <= maxLogs st ->
  (isPaused st = false ->
     logs (addLogs l st) = most_recent (maxLogs st) (logs st ++ l) /\
     JSArray.len (logs (addLogs l st)) <= maxLogs st /\
     foldl (fun st e => addLog e st) st l = addLogs l st) /\
  (isPaused st = true ->
     addLogs l st = st /\ foldl (fun st e => addLog e st) st l = st) /\
  clearLogs st = with_logs [] st /\
  addLogs l (clearLogs (setPaused false st))
    = with_logs (most_recent (maxLogs st) l) (setPaused false st).
Proof.
  intros Hmax Hlen. split; [| split; [| split]].
  - intros Hp. rewrite addLog_fold, addLogs_most_recent by done. cbn.
    split; [done |]. split; [| done]. apply most_recent_length. lia.
  - intros Hp. split; [unfold addLogs; by rewrite Hp |].
    induction l as [| e l IH]; [done |]. cbn. unfold addLog at 2.
    by rewrite Hp.
  - done.
  - by rewrite addLogs_most_recent.
Qed.

Lemma log_store_keeps_most_recent_witness :
  logs (addLogs [TranslatorSpec.sample_entry "a" 1; TranslatorSpec.sample_entry "b" 2;
                 TranslatorSpec.sample_entry "c" 3]
          {| logs := []; filters := filters logStore_initial; isPaused := false;
             maxLogs := 2 |})
    = [TranslatorSpec.sample_entry "b" 2; TranslatorSpec.sample_entry "c" 3].
Proof.
  assert (0 < 2) as Hmax by lia.
  assert (JSArray.len (@nil LogEntry) <= 2) as Hlen by (vm_compute; discriminate).
  exact (proj1 (proj1 (log_store_keeps_most_recent
    [TranslatorSpec.sample_entry "a" 1; TranslatorSpec.sample_entry "b" 2;
     TranslatorSpec.sample_entry "c" 3]
    {| logs := []; filters := filters logStore_initial; isPaused := false;
       maxLogs := 2 |} Hmax Hlen) eq_refl)).
Defined.


Lemma replay_snoc (ms : list WSMessage) (m : WSMessage) (st : ClientState) :
  replay (ms ++ [m]) st = handleMessage m (replay ms st).
Proof. unfold replay. by rewrite foldl_app. Qed.

Lemma handleMessage_processStore (m : WSMessage) (st : ClientState) :
  processStore (handleMessage m st)
    = match snapshot_of m with
      | Some ps => setProcesses ps (processStore st)
      | None => processStore st
      end.
Proof. destruct m as [[] t]; done. Qed.

Lemma handleMessage_logStore (m : WSMessage) (st : ClientState) :
  logStore (handleMessage m st)
    = match log_entry_of m with
      | Some e => addLog e (logStore st)
      | None => logStore st
      end.
Proof. destruct m as [[] t]; done. Qed.

Lemma replay_logStore (ms : list WSMessage) (st : ClientState) :
  logStore (replay ms st)
    = foldl (fun s e => addLog e s) (logStore st) (omap log_entry_of ms).
Proof.
  induction ms as [| m ms IH] using rev_ind; [done |].
  rewrite replay_snoc, handleMessage_logStore, omap_app, foldl_app, IH. cbn.
  by destruct (log_entry_of m).
Qed.

Lemma replay_logs (ms : list WSMessage) (st : ClientState) :
  0 < maxLogs (logStore st) ->
  JSArray.len (logs (logStore st)) <= maxLogs (logStore st) ->
  isPaused (logStore st) = false ->
  logs (logStore (replay ms st))
    = most_recent (maxLogs (logStore st))
        (logs (logStore st) ++ omap log_entry_of ms).
Proof. intros Hmax Hlen Hp. by rewrite replay_logStore, addLog_fold. Qed.

(** X23. After the hook has applied any sequence of frames, the process
    list is the payload of the last PROCESS_LIST_UPDATE among them, or
    the earlier list if there was none; the selection is what it was;
    the log store has taken the LOG_MESSAGE entries in arrival order,
    [addLog] by [addLog], and no other frame has touched it; so an
    unpaused store with a positive limit holds the most recent
    [maxLogs] entries. *)
Theorem client_state_after_frames (ms : list WSMessage) (st : ClientState) :
  processes (processStore (replay ms st))
    = default (processes (processStore st)) (last (omap snapshot_of ms)) /\
  selectedProcessId (processStore (replay ms st))
    = selectedProcessId (processStore st) /\
  logStore (replay ms st)
    = foldl (fun s e => addLog e s) (logStore st) (omap log_entry_of ms) /\
  (0 < maxLogs (logStore st) ->
   JSArray.len (logs (logStore st)) <= maxLogs (logStore st) ->
   isPaused (logStore st) = false ->
   logs (logStore (replay ms st))
     = most_recent (maxLogs (logStore st))
         (logs (logStore st) ++ omap log_entry_of ms)).
Proof.
  split; [| split; [| split]].
  - induction ms as [| m ms IH] using rev_ind; [done |].
    rewrite replay_snoc, handleMessage_processStore, omap_app. cbn.
    destruct (snapshot_of m) as [ps |]; cbn.
    + by rewrite last_snoc.
    + by rewrite app_nil_r.
  - induction ms as [| m ms IH] using rev_ind; [done |].
    rewrite replay_snoc, handleMessage_processStore.
    by destruct (snapshot_of m).
  - apply replay_logStore.
  - apply replay_logs.
Qed.

End StoresMore.

(** ** From the daemon's log items to the browser's log list *)

Section EndToEnd.

Import WebSocketManager PM2EventBus Delivery Wire HubMore Samples Frontend Stores.

Lemma asked_for_all (s : ExtendedWebSocket) (l : list Ingestion) :
  All ∈ subscriptions s -> asked_for s l = l.
Proof.
  intros Hall. unfold asked_for. apply filter_all. intros i _.
  unfold wants. by rewrite (bool_decide_eq_true_2 _ Hall).
Qed.

Lemma entries_of_messages (l : list Ingestion) :
  omap log_entry_of (message_of <$> l) = entry_of <$> l.
Proof. induction l as [| i l IH]; [done |]. cbn. by rewrite IH. Qed.

(** X24. A session that is subscribed to 'all', in the set, with an
    open socket that takes the send and an empty outbox, and a browser
    whose log store is empty, not paused and limited like the server's
    buffer: after any sequence of log items ingested into an empty
    buffer, the browser that applies the frames sent to that session
    holds exactly the server's log buffer. *)
Theorem client_sees_server_buffer (r : Relay) (c : SocketId)
    (s : ExtendedWebSocket) (l : list Ingestion) (st : ClientState) :
  NoDup (clients (wsManager r)) ->
  c ∈ clients (wsManager r) ->
  heap (wsManager r) !! c = Some s ->
  accepts s = true ->
  All ∈ subscriptions s ->
  outbox s = [] ->
  logBuffer (pm2EventBus r) = [] ->
  logs (logStore st) = [] ->
  isPaused (logStore st) = false ->
  0 < maxLogs (logStore st) ->
  maxBufferSize (pm2EventBus r) = maxLogs (logStore st) ->
  exists s', heap (wsManager (ingest_all l r)) !! c = Some s' /\
             outbox s' = message_of <$> l /\
             logs (logStore (replay (outbox s') st))
               = logBuffer (pm2EventBus (ingest_all l r)).
Proof.
  intros Hnd Hin Hc Hacc Hall Hout Hbuf Hlogs Hp Hmax Hcap.
  destruct (ingest_all_outbox r c s l Hnd Hin Hc Hacc) as [_ Hh].
  eexists. split; [exact Hh |]. cbn [outbox with_outbox].
  rewrite Hout, asked_for_all by done. cbn [app]. split; [done |].
  rewrite replay_logs, entries_of_messages; [| done | | done].
  - rewrite ingest_all_bus.
    + cbn. by rewrite Hbuf, Hlogs, Hcap.
    + rewrite Hbuf, Hcap. unfold JSArray.len. cbn. lia.
  - rewrite Hlogs. unfold JSArray.len. cbn. lia.
Qed.

Lemma client_sees_server_buffer_witness :
  exists s',
    heap (wsManager (ingest_all
      [sample_ingestion 7 "a" 10; sample_ingestion 8 "b" 11] sample_relay)) !! 2%nat
      = Some s' /\
    outbox s' = message_of <$> [sample_ingestion 7 "a" 10; sample_ingestion 8 "b" 11] /\
    logs (logStore (replay (outbox s') client_initial))
      = logBuffer (pm2EventBus (ingest_all
          [sample_ingestion 7 "a" 10; sample_ingestion 8 "b" 11] sample_relay)).
Proof.
  apply (client_sees_server_buffer sample_relay 2%nat (open_socket {[ All ]})
           [sample_ingestion 7 "a" 10; sample_ingestion 8 "b" 11] client_initial).
  - apply (bool_decide_unpack _). vm_compute. exact I.
  - apply (bool_decide_unpack _). vm_compute. exact I.
  - reflexivity.
  - reflexivity.
  - apply (bool_decide_unpack _). vm_compute. exact I.
  - reflexivity.
  - reflexivity.
  - reflexivity.
  - reflexivity.
  - vm_compute. reflexivity.
  - reflexivity.
Defined.

End EndToEnd.

(** ** The filtered log view *)

Section FilteredLogs.

Import Frontend Stores.

Variable toLowerCase : string -> string.

Lemma sublist_filter_trans {A} (P : A -> Prop) `{forall x, Decision (P x)}
    (l k : list A) :
  l `sublist_of` k -> filter P l `sublist_of` k.
Proof. intros Hlk. etrans; [apply sublist_filter | done]. Qed.

(** X25. The filtered log view is a selection of the stored logs in
    their order; every entry it shows belongs to the chosen process and
    has the chosen type; with no search text it shows every stored entry
    that does; and with the initial filters ('all' processes, 'all'
    types, no search text) it shows the whole list. *)
Theorem filtered_view_shows_only_matches (st : LogStore) :
  useFilteredLogs toLowerCase st `sublist_of` logs st /\
  (forall e, e ∈ useFilteredLogs toLowerCase st ->
     (forall p, f_processId (filters st) = Pid p -> le_processId e = p) /\
     (forall t, f_type (filters st) = Some t -> le_type e = t)) /\
  (f_search (filters st) = ""%string ->
   forall e, e ∈ logs st ->
     (forall p, f_processId (filters st) = Pid p -> le_processId e = p) ->
     (forall t, f_type (filters st) = Some t -> le_type e = t) ->
     e ∈ useFilteredLogs toLowerCase st) /\
  (filters st = filters logStore_initial ->
   useFilteredLogs toLowerCase st = logs st).
Proof.
  unfold useFilteredLogs.
  destruct st as [l [fp ft fs] ps mx]. cbn [logs filters f_processId f_type f_search].
  split; [| split; [| split]].
  - destruct (decide (fs = ""%string)); [| apply sublist_filter_trans];
      (destruct ft; [apply sublist_filter_trans |]);
      (destruct fp; [apply sublist_filter |]); done.
  - intros e He.
    assert (e ∈ match ft with
                | Some t => filter (fun log => le_type log = t)
                              match fp with
                              | Pid p => filter (fun log => le_processId log = p) l
                              | All => l
                              end
                | None => match fp with
                          | Pid p => filter (fun log => le_processId log = p) l
                          | All => l
                          end
                end) as He'.
    { destruct (decide (fs = ""%string)); [done |].
      by apply list_elem_of_filter in He as [_ He]. }
    clear He. split.
    + intros p ->. destruct ft.
      * apply list_elem_of_filter in He' as [_ He'].
        by apply list_elem_of_filter in He' as [? _].
      * by apply list_elem_of_filter in He' as [? _].
    + intros t [= ->]. by apply list_elem_of_filter in He' as [? _].
  - intros -> e He Hp Ht. rewrite decide_True by done.
    destruct ft as [t |], fp as [p |]; rewrite ?list_elem_of_filter;
      repeat split; auto.
  - intros [= -> -> ->]. done.
Qed.

End FilteredLogs.

(** ** The browser's connection *)

Section Hook.

Import UseWebSocket.

Lemma onclose_below (h : Hook) :
  reconnectAttemptsRef h < maxReconnectAttempts h ->
  onclose h =
    {| sockets := sockets h; nextSocket := nextSocket h; wsRef := None;
       reconnectAttemptsRef := reconnectAttemptsRef h + 1;
       maxReconnectAttempts := maxReconnectAttempts h;
       reconnectInterval := reconnectInterval h;
       pendingTimers :=
         <[nextTimer h := retry_delay (reconnectInterval h) (reconnectAttemptsRef h + 1)]>
           (pendingTimers h);
       nextTimer := S (nextTimer h);
       reconnectTimeoutRef := Some (nextTimer h);
       scheduled := scheduled h
                    ++ [retry_delay (reconnectInterval h) (reconnectAttemptsRef h + 1)];
       connected := false; connecting := false; sent := sent h |}.
Proof.
  intros Hlt. unfold onclose.
  cbn [set_wsRef set_flags reconnectAttemptsRef maxReconnectAttempts].
  destruct (Z.ltb_spec (reconnectAttemptsRef h) (maxReconnectAttempts h))
    as [_ | ?]; [| lia].
  reflexivity.
Qed.

Lemma onclose_spent (h : Hook) :
  maxReconnectAttempts h <= reconnectAttemptsRef h ->
  onclose h = set_wsRef None (set_flags false false h).
Proof.
  intros Hge. unfold onclose. cbn.
  by destruct (Z.ltb_spec (reconnectAttemptsRef h) (maxReconnectAttempts h))
    as [? | _]; [lia |].
Qed.

Lemma lose_below (h : Hook) (id : SocketId) :
  wsRef h = Some id ->
  reconnectAttemptsRef h < maxReconnectAttempts h ->
  wsRef (lose h) = Some (nextSocket h) /\
  nextSocket (lose h) = S (nextSocket h) /\
  reconnectAttemptsRef (lose h) = reconnectAttemptsRef h + 1 /\
  maxReconnectAttempts (lose h) = maxReconnectAttempts h /\
  reconnectInterval (lose h) = reconnectInterval h /\
  scheduled (lose h)
    = scheduled h ++ [retry_delay (reconnectInterval h) (reconnectAttemptsRef h + 1)] /\
  connected (lose h) = false /\
  connecting (lose h) = true /\
  sockets (lose h) !! nextSocket h = Some CONNECTING /\
  pendingTimers (lose h) !! nextTimer h = None.
Proof.
  intros Hws Hlt. unfold lose. rewrite Hws.
  destruct (Z.ltb_spec (reconnectAttemptsRef h) (maxReconnectAttempts h))
    as [_ | ?]; [| lia].
  change (hook_step (Closed id) h)
    with (onclose (set_sockets (<[id := CLOSED]> (sockets h)) h)).
  rewrite onclose_below by done.
  cbn -[retry_delay]. rewrite lookup_insert_eq. unfold connect, current_open.
  cbn -[retry_delay].
  rewrite lookup_insert_eq, lookup_delete_eq. done.
Qed.

Lemma lose_iter (n : nat) (h : Hook) (id : SocketId) :
  wsRef h = Some id ->
  reconnectAttemptsRef h + Z.of_nat n <= maxReconnectAttempts h ->
  is_Some (wsRef (Nat.iter n lose h)) /\
  reconnectAttemptsRef (Nat.iter n lose h) = reconnectAttemptsRef h + Z.of_nat n /\
  maxReconnectAttempts (Nat.iter n lose h) = maxReconnectAttempts h /\
  reconnectInterval (Nat.iter n lose h) = reconnectInterval h /\
  nextSocket (Nat.iter n lose h) = (nextSocket h + n)%nat /\
  scheduled (Nat.iter n lose h)
    = scheduled h
      ++ ((fun k => retry_delay (reconnectInterval h)
                      (reconnectAttemptsRef h + Z.of_nat k + 1)) <$> seq 0 n).
Proof.
  intros Hws. induction n as [| n IH]; intros Hle.
  - cbn. rewrite app_nil_r, Z.add_0_r, Nat.add_0_r. by rewrite Hws.
  - destruct IH as ([id' Hws'] & Hat & Hmax & Hint & Hnx & Hsch); [lia |].
    change (Nat.iter (S n) lose h) with (lose (Nat.iter n lose h)).
    destruct (lose_below (Nat.iter n lose h) id' Hws')
      as (H1 & H2 & H3 & H4 & H5 & H6 & _); [lia |].
    rewrite H1, H2, H3, H4, H5, H6, Hat, Hmax, Hint, Hnx, Hsch.
    split; [done |]. split; [lia |]. split; [done |]. split; [done |].
    split; [lia |].
    rewrite seq_S, fmap_app, app_assoc. done.
Qed.

Lemma binary64_intro (m e : Z) :
  Z.abs m < 2 ^ 53 -> -1074 <= e <= 971 -> JSNumber.binary64 m e = true.
Proof.
  intros Hm He. unfold JSNumber.binary64.
  rewrite !andb_true_iff, Z.ltb_lt, !Z.leb_le. lia.
Qed.

(** A power of 3 with at most 53 bits has an exponent of at most 33. *)
Lemma pow3_small (j : Z) : 0 <= j -> 3 ^ j < 2 ^ 53 -> j <= 33.
Proof.
  intros Hj Hlt. destruct (Z_le_gt_dec j 33) as [| Hgt]; [done |].
  assert (3 ^ 34 <= 3 ^ j) as Hle by (apply Z.pow_le_mono_r; lia).
  change (3 ^ 34) with 16677181699666569 in Hle.
  change (2 ^ 53) with 9007199254740992 in Hlt. lia.
Qed.

(** The delay of the retry after [j] earlier ones, for a whole number
    of milliseconds [i]: [i * 1.5 ^ j], exactly, while [i * 3 ^ j] has
    at most 53 bits. *)
Lemma retry_delay_exact (i j : Z) :
  0 < i -> 0 <= j -> i * 3 ^ j < 2 ^ 53 ->
  retry_delay (JSNumber.of_Z i) (j + 1) = Exact (Finite (i * 3 ^ j) (- j)).
Proof.
  intros Hi Hj Hlt.
  assert (0 < 3 ^ j) as Hpos by (apply Z.pow_pos_nonneg; lia).
  assert (3 ^ j < 2 ^ 53) as Hp by nia.
  pose proof (pow3_small j Hj Hp) as Hsmall.
  unfold retry_delay, JSNumber.Math_pow.
  replace (j + 1 - 1) with j by lia.
  destruct (Z.leb_spec 0 j) as [_ | ?]; [| lia].
  rewrite binary64_intro by lia. cbn [andb JSNumber.and_then].
  unfold JSNumber.mul, JSNumber.of_Z.
  rewrite binary64_intro by lia.
  f_equal; f_equal; lia.
Qed.

(** X26. While the retry budget lasts, every loss of the current
    connection (its socket closes, the reconnect timer fires) counts one
    attempt, hands [setTimeout] the delay
    [reconnectInterval * Math.pow(1.5, attempts - 1)] and leaves a new
    socket connecting: after [n] losses in a row the counter has grown
    by [n] and [n] delays have been scheduled, one per loss.  For an
    interval of a whole number [i] of milliseconds, a counter that
    starts at [a >= 0] and as long as [i * 3 ^ k] has at most 53 bits,
    the arithmetic rounds nothing and the delays are
    [i * 1.5 ^ a], [i * 1.5 ^ (a + 1)], ..., [i * 1.5 ^ (a + n - 1)]. *)
Theorem hook_retry_schedule (n : nat) (h : Hook) (id : SocketId) :
  wsRef h = Some id ->
  reconnectAttemptsRef h + Z.of_nat n <= maxReconnectAttempts h ->
  let a := reconnectAttemptsRef h in
  let h' := Nat.iter n lose h in
  reconnectAttemptsRef h' = a + Z.of_nat n /\
  scheduled h'
    = scheduled h
      ++ ((fun k => retry_delay (reconnectInterval h) (a + Z.of_nat k + 1))
            <$> seq 0 n) /\
  (forall i, reconnectInterval h = JSNumber.of_Z i -> 0 < i -> 0 <= a ->
     i * 3 ^ (a + Z.of_nat n - 1) < 2 ^ 53 ->
     scheduled h'
       = scheduled h
         ++ ((fun k => Exact (Finite (i * 3 ^ (a + Z.of_nat k))
                                     (- (a + Z.of_nat k))))
               <$> seq 0 n)) /\
  wsRef h' = (if n is O then Some id else Some (nextSocket h + n - 1)%nat) /\
  (n ≠ 0%nat -> connecting h' = true /\ connected h' = false).
Proof.
  intros Hws Hle a h'. subst a h'.
  destruct (lose_iter n h id Hws Hle) as (_ & Hat & _ & _ & _ & Hsch).
  split; [done |]. split; [done |]. split.
  { intros i Hint Hi Ha Hfit. rewrite Hsch, Hint. f_equal.
    apply list_fmap_ext. intros k x [-> Hk]%lookup_seq.
    cbn [Nat.add]. apply retry_delay_exact; [done | lia |].
    assert (0 < 3 ^ (reconnectAttemptsRef h + Z.of_nat k)) as Hpos
      by (apply Z.pow_pos_nonneg; lia).
    assert (3 ^ (reconnectAttemptsRef h + Z.of_nat k)
            <= 3 ^ (reconnectAttemptsRef h + Z.of_nat n - 1)) as Hmono
      by (apply Z.pow_le_mono_r; lia).
    nia. }
  destruct n as [| n]; [by split |].
  destruct (lose_iter n h id Hws) as ([id' Hws'] & Hat' & Hmax' & _ & Hnx' & _); [lia |].
  change (Nat.iter (S n) lose h) with (lose (Nat.iter n lose h)).
  destruct (lose_below (Nat.iter n lose h) id' Hws')
    as (H1 & _ & _ & _ & _ & _ & H6 & H7 & _); [lia |].
  rewrite H1, Hnx'. split; [f_equal; lia | done].
Qed.

Lemma hook_retry_schedule_witness :
  scheduled (Nat.iter 10 lose mounted)
    = [Exact (Finite 3000 0); Exact (Finite 9000 (-1));
       Exact (Finite 27000 (-2)); Exact (Finite 81000 (-3));
       Exact (Finite 243000 (-4)); Exact (Finite 729000 (-5));
       Exact (Finite 2187000 (-6)); Exact (Finite 6561000 (-7));
       Exact (Finite 19683000 (-8)); Exact (Finite 59049000 (-9))] /\
  reconnectAttemptsRef (Nat.iter 10 lose mounted) = 10.
Proof.
  assert (wsRef mounted = Some 0%nat) as Hws by reflexivity.
  assert (reconnectAttemptsRef mounted + Z.of_nat 10 <= maxReconnectAttempts mounted)
    as Hle by (vm_compute; discriminate).
  destruct (hook_retry_schedule 10 mounted 0%nat Hws Hle) as (H1 & _ & H3 & _).
  split; [| exact H1].
  apply (H3 3000); [reflexivity | lia | vm_compute; discriminate | reflexivity].
Defined.

(** X27. Once the counter has reached [maxReconnectAttempts], the close
    of the current socket schedules nothing more: the hook is left
    without a socket, neither connected nor connecting, with its timers
    as they were.  A [connect] by hand still makes a new socket but
    leaves the counter alone; only the open event of a socket sets the
    counter back to zero, after which the next close counts as the
    first attempt and is retried with the base delay:
    [reconnectInterval * Math.pow(1.5, 0)], which is [reconnectInterval]
    itself. *)
Theorem hook_gives_up_until_opened (h : Hook) (id : SocketId) :
  wsRef h = Some id ->
  maxReconnectAttempts h <= reconnectAttemptsRef h ->
  let h1 := hook_step (Closed id) h in
  let h2 := hook_step UserConnect h1 in
  let h3 := hook_step (Opened (nextSocket h)) h2 in
  wsRef h1 = None /\ connected h1 = false /\ connecting h1 = false /\
  scheduled h1 = scheduled h /\ pendingTimers h1 = pendingTimers h /\
  reconnectAttemptsRef h1 = reconnectAttemptsRef h /\
  lose h = h1 /\
  wsRef h2 = Some (nextSocket h) /\
  reconnectAttemptsRef h2 = reconnectAttemptsRef h /\
  connected h3 = true /\ reconnectAttemptsRef h3 = 0 /\
  (0 < maxReconnectAttempts h ->
     reconnectAttemptsRef (hook_step (Closed (nextSocket h)) h3) = 1 /\
     scheduled (hook_step (Closed (nextSocket h)) h3)
       = scheduled h ++ [retry_delay (reconnectInterval h) 1] /\
     (forall m e, reconnectInterval h = Finite m e ->
        JSNumber.binary64 m e = true ->
        scheduled (hook_step (Closed (nextSocket h)) h3)
          = scheduled h ++ [Exact (Finite m e)])).
Proof.
  intros Hws Hge h1 h2 h3.
  assert (h1 = set_wsRef None (set_flags false false
                  (set_sockets (<[id := CLOSED]> (sockets h)) h))) as Hh1.
  { subst h1. cbn [hook_step]. by rewrite onclose_spent. }
  assert (lose h = h1) as Hlose.
  { unfold lose. rewrite Hws.
    by destruct (Z.ltb_spec (reconnectAttemptsRef h) (maxReconnectAttempts h))
      as [? | _]; [lia |]. }
  subst h3 h2. rewrite Hh1. cbn [hook_step]. unfold connect, current_open.
  cbn -[retry_delay].
  split_and!; try done.
  - by rewrite Hlose, Hh1.
  - intros Hmax. rewrite onclose_below by (cbn; lia). cbn -[retry_delay].
    split_and!; try done.
    intros m e -> Hfit. do 2 f_equal.
    unfold retry_delay.
    change (JSNumber.Math_pow _ _) with (Exact (Finite 1 0)).
    cbn [JSNumber.and_then]. unfold JSNumber.mul.
    rewrite Z.mul_1_r, Z.add_0_r, Hfit. done.
Qed.

Lemma hook_gives_up_until_opened_witness :
  wsRef (hook_step (Closed 10%nat) (Nat.iter 10 lose mounted)) = None /\
  scheduled (hook_step (Closed 10%nat) (Nat.iter 10 lose mounted))
    = scheduled (Nat.iter 10 lose mounted).
Proof.
  assert (wsRef (Nat.iter 10 lose mounted) = Some 10%nat) as Hws by reflexivity.
  assert (maxReconnectAttempts (Nat.iter 10 lose mounted)
          <= reconnectAttemptsRef (Nat.iter 10 lose mounted)) as Hge
    by (vm_compute; discriminate).
  destruct (hook_gives_up_until_opened (Nat.iter 10 lose mounted) 10%nat Hws Hge)
    as (H1 & _ & _ & H2 & _).
  split; [exact H1 | exact H2].
Defined.

(** X28. [disconnect] leaves the hook without a current socket, neither
    connected nor connecting, with the timer it held cancelled and the
    socket it held closing or closed, so that [sendMessage] sends
    nothing afterwards.  It does not take the handlers off the socket:
    when the close event of that socket then arrives and the counter is
    below the limit, a reconnect is scheduled again, with the delay of
    the next attempt. *)
Theorem hook_disconnect_then_close (h : Hook) :
  let h' := disconnect h in
  wsRef h' = None /\ connected h' = false /\ connecting h' = false /\
  reconnectTimeoutRef h' = None /\
  reconnectAttemptsRef h' = reconnectAttemptsRef h /\
  scheduled h' = scheduled h /\
  (forall t, reconnectTimeoutRef h = Some t -> pendingTimers h' !! t = None) /\
  (forall id, wsRef h = Some id ->
     sockets h' !! id ≠ Some OPEN /\ sockets h' !! id ≠ Some CONNECTING) /\
  (forall b now, sendMessage b now h' = h') /\
  (forall id, reconnectAttemptsRef h < maxReconnectAttempts h ->
     reconnectAttemptsRef (hook_step (Closed id) h') = reconnectAttemptsRef h + 1 /\
     scheduled (hook_step (Closed id) h')
       = scheduled h
         ++ [retry_delay (reconnectInterval h) (reconnectAttemptsRef h + 1)] /\
     pendingTimers (hook_step (Closed id) h') !! nextTimer h
       = Some (retry_delay (reconnectInterval h) (reconnectAttemptsRef h + 1))).
Proof.
  intros h'. subst h'. unfold disconnect.
  destruct h as [sk ns ws ra mx ri pt nt rt sch cd cg snt]. cbn.
  destruct rt as [t |], ws as [id |]; cbn;
    (split; [done |]); (split; [done |]); (split; [done |]); (split; [done |]);
    (split; [done |]); (split; [done |]); (split; [| split; [| split; [done |]]]).
  all: try (intros t' [= <-]; apply lookup_delete_eq).
  all: try (intros t'; discriminate).
  all: try (intros id' [= <-]; rewrite lookup_alter_eq;
            destruct (sk !! id) as [[] |]; cbn; split; discriminate).
  all: try (intros id'; discriminate).
  all: intros id0 Hlt; rewrite onclose_below by (cbn; lia); cbn -[retry_delay];
    split; [done |]; split; [done | apply lookup_insert_eq].
Qed.

End Hook.
